(** * GeNN kernel-generation backend: population descriptors and the
      presynaptic-update parallelisation strategies

    A shallow embedding of [lib/src/neuronGroup.cc] (delay slots, variable
    queues, random-number requirement of a neuron population) and of
    [src/genn/backends/cuda/presynapticUpdateStrategy.cc] (the three
    strategies [PreSpan], [PostSpan] and [PreSpanProcedural]), followed by
    the properties of the specification that concern them. *)

From Stdlib Require Import ZArith Lia Bool List String Ascii Permutation.
From stdpp Require Import base option strings list gmap pretty.

Local Open Scope string_scope.
Local Open Scope Z_scope.

(** ** Machine integers and strings *)

(** [unsigned int] is 32 bits wide; arithmetic on it wraps around. *)
Definition UINT_MAX : Z := 2 ^ 32 - 1.

Definition wrap32 (z : Z) : Z := z mod 2 ^ 32.

(** [code.find(pattern)]: position of the first occurrence of [pattern] in
    [code]; [None] stands for [std::string::npos]. *)
Definition find (code pattern : string) : option nat := String.index 0 pattern code.

(** [code.find(pattern) != string::npos] *)
Definition contains (code pattern : string) : bool :=
  match find code pattern with
  | Some _ => true
  | None => false
  end.

(** ** lib/src/neuronGroup.cc *)

Module NeuronGroup.

(** The parts of a neuron model the population descriptor reads: the declared
    variables as (name, type) pairs and the three code strings. *)
Record NeuronModel := mkNeuronModel {
  getVars : list (string * string);
  getSimCode : string;
  getThresholdConditionCode : string;
  getResetCode : string
}.

Record PostsynapticModel := mkPostsynapticModel {
  getApplyInputCode : string;
  getDecayCode : string
}.

(** An incoming synapse group, as far as the population looks into it. *)
Record SynapseGroup := mkSynapseGroup {
  getPSModel : PostsynapticModel
}.

Record t := mkNeuronGroup {
  getNeuronModel : NeuronModel;
  m_NumDelaySlots : Z;
  m_AnyVarQueuesRequired : bool;
  m_VarQueueRequired : list bool;
  getInSyn : list SynapseGroup
}.

Definition getNumDelaySlots (ng : t) : Z := m_NumDelaySlots ng.

Definition set_NumDelaySlots (n : Z) (ng : t) : t :=
  {| getNeuronModel := getNeuronModel ng;
     m_NumDelaySlots := n;
     m_AnyVarQueuesRequired := m_AnyVarQueuesRequired ng;
     m_VarQueueRequired := m_VarQueueRequired ng;
     getInSyn := getInSyn ng |}.

(** [m_AnyVarQueuesRequired = true; m_VarQueueRequired[i] = true;] *)
Definition set_VarQueueRequired (i : nat) (ng : t) : t :=
  {| getNeuronModel := getNeuronModel ng;
     m_NumDelaySlots := m_NumDelaySlots ng;
     m_AnyVarQueuesRequired := true;
     m_VarQueueRequired := <[i := true]> (m_VarQueueRequired ng);
     getInSyn := getInSyn ng |}.

(** [void NeuronGroup::checkNumDelaySlots(unsigned int requiredDelay)] *)
Definition checkNumDelaySlots (requiredDelay : Z) (ng : t) : t :=
  if requiredDelay >=? getNumDelaySlots ng
  then set_NumDelaySlots (wrap32 (requiredDelay + 1)) ng
  else ng.

(** The body of the loop of [updateVarQueues], from index [i] on; [vars] is
    what is left of the variable list. *)
Fixpoint updateVarQueues_from (code : string) (vars : list (string * string))
    (i : nat) (ng : t) : t :=
  match vars with
  | [] => ng
  | v :: rest =>
      let varName := fst v in
      let ng' := if contains code (varName ++ "_pre")
                 then set_VarQueueRequired i ng
                 else ng in
      updateVarQueues_from code rest (S i) ng'
  end.

(** [void NeuronGroup::updateVarQueues(const string &code)] *)
Definition updateVarQueues (code : string) (ng : t) : t :=
  updateVarQueues_from code (getVars (getNeuronModel ng)) 0 ng.

Section RNG.

(** [::isRNGRequired] lives in codeGenUtils, which is not among the sources:
    the scan of a code string for a random-number primitive is a parameter. *)
Variable isRNGRequired : string -> bool.

(** The loop over the incoming synapse groups, with its early return. *)
Fixpoint isSimRNGRequired_inSyn (inSyn : list SynapseGroup) : bool :=
  match inSyn with
  | [] => false
  | sg :: rest =>
      if isRNGRequired (getApplyInputCode (getPSModel sg))
         || isRNGRequired (getDecayCode (getPSModel sg))
      then true
      else isSimRNGRequired_inSyn rest
  end.

(** [bool NeuronGroup::isSimRNGRequired() const] *)
Definition isSimRNGRequired (ng : t) : bool :=
  if isRNGRequired (getSimCode (getNeuronModel ng))
     || isRNGRequired (getThresholdConditionCode (getNeuronModel ng))
     || isRNGRequired (getResetCode (getNeuronModel ng))
  then true
  else isSimRNGRequired_inSyn (getInSyn ng).

End RNG.

End NeuronGroup.

(** ** Types the strategies read *)

(** [SynapseGroup::SpanType]: the two span types the strategies compare
    with; the declaration itself (synapseGroup.h) is not among the sources. *)
Inductive SpanType := POSTSYNAPTIC | PRESYNAPTIC.

Definition SpanType_eqb (a b : SpanType) : bool :=
  match a, b with
  | POSTSYNAPTIC, POSTSYNAPTIC | PRESYNAPTIC, PRESYNAPTIC => true
  | _, _ => false
  end.

(** Modelled from the spec: the declaration of the matrix-type flags
    (synapseMatrixType.h) is not among the sources. The connectivity
    representation is one of the four tags of the data model, each a flag bit
    of its own; a matrix type carries exactly one of them next to the flags
    of its weight representation, which lie above the connectivity bits. *)
Inductive SynapseMatrixConnectivity := DENSE | BITMASK | SPARSE | PROCEDURAL.

#[global] Instance SynapseMatrixConnectivity_eq_dec : EqDecision SynapseMatrixConnectivity.
Proof. solve_decision. Defined.

Definition connectivityFlag (c : SynapseMatrixConnectivity) : Z :=
  match c with
  | DENSE => Z.shiftl 1 0
  | BITMASK => Z.shiftl 1 1
  | SPARSE => Z.shiftl 1 2
  | PROCEDURAL => Z.shiftl 1 3
  end.

Record SynapseMatrixType := mkSynapseMatrixType {
  matrixConnectivity : SynapseMatrixConnectivity;
  matrixWeight : Z
}.

Definition matrixTypeFlags (m : SynapseMatrixType) : Z :=
  Z.lor (connectivityFlag (matrixConnectivity m)) (Z.shiftl (matrixWeight m) 4).

(** [type & connectivity]: the flag test the strategies are written with. *)
Definition hasConnectivity (m : SynapseMatrixType) (c : SynapseMatrixConnectivity) : bool :=
  negb (Z.land (matrixTypeFlags m) (connectivityFlag c) =? 0).

Infix "&?" := hasConnectivity (at level 40, no associativity).

(** A source or target population, as the strategies see it: the getters
    of the neuron group that the strategies call. *)
Record NeuronGroupInternal := mkNeuronGroupInternal {
  ng_getName : string;
  ng_getNumNeurons : Z;
  ng_isDelayRequired : bool
}.

Record WeightUpdateModel := mkWeightUpdateModel {
  getSimSupportCode : string
}.

(** [SynapseGroupInternal]: the connection descriptor, with the getters the
    strategies call. Its declaration (synapseGroupInternal.h) is not among
    the sources, so what the getters compute from the model (the offset text
    of the dendritic-delay buffer among them) is a field here. *)
Record SynapseGroupInternal := mkSynapseGroupInternal {
  getName : string;
  getSrcNeuronGroup : NeuronGroupInternal;
  getTrgNeuronGroup : NeuronGroupInternal;
  getSpanType : SpanType;
  getMatrixType : SynapseMatrixType;
  getNumThreadsPerSpike : Z;
  getMaxConnections : Z;
  isDendriticDelayRequired : bool;
  isEventThresholdReTestRequired : bool;
  getPSModelTargetName : string;
  getDendriticDelayOffset : string -> string -> string;
  getWUModel : WeightUpdateModel;
  getRowBuildCode : string
}.

Record ModelSpecInternal := mkModelSpecInternal {
  getPrecision : string
}.

(** Modelled from the spec: the enumeration of kernels (backend.h) is not
    among the sources. The kernel categories a block size is configured for,
    one per kernel entry point of the backend interface; the strategies only
    ever ask for [KernelPresynapticUpdate]. *)
Inductive Kernel := KernelNeuronUpdate | KernelPresynapticUpdate | KernelInitialize.

(** Modelled from the spec: the class Backend (backend.h) is not among the
    sources. The capability queries the strategies make: compute-capability
    major version of the chosen device, block size per kernel category, name
    of the atomic add for a precision, and the sequence offset of the random
    stream of a procedural connection. *)
Record Backend := mkBackend {
  getChosenCUDADevice_major : Z;
  getKernelBlockSize : Kernel -> Z;
  getFloatAtomicAdd : string -> string;
  getProceduralConnectivitySequence : SynapseGroupInternal -> ModelSpecInternal -> Z
}.

(** Modelled from the spec: Utils::ceilDivide (gennUtils.h) is not among the
    sources; the quotient rounded up. *)
Definition ceilDivide (numerator denominator : Z) : Z :=
  (numerator + denominator - 1) / denominator.

(** ** The substitution context *)

(** Modelled from the spec: the class Substitutions (substitutions.h) is not
    among the sources. A context maps placeholder names to replacement text
    (variables) or to an arity and a template (functions) and may wrap a
    parent context; a lookup goes to the innermost context first. Binding a
    name as a variable fails when the same context binds it as a function,
    and the other way round; looking up an unbound variable fails. *)
#[warnings="-register-all"] Inductive Substitutions := mkSubstitutions {
  m_VarSubstitutions : gmap string string;
  m_FuncSubstitutions : gmap string (nat * string);
  m_Parent : option Substitutions
}.

(** [Substitutions subs(&parent);] *)
Definition child (parent : Substitutions) : Substitutions :=
  mkSubstitutions ∅ ∅ (Some parent).

Definition addVarSubstitution (source destination : string) (s : Substitutions)
    : option Substitutions :=
  match m_FuncSubstitutions s !! source with
  | Some _ => None
  | None => Some (mkSubstitutions (<[source := destination]> (m_VarSubstitutions s))
                                  (m_FuncSubstitutions s) (m_Parent s))
  end.

Definition addFuncSubstitution (source : string) (numArguments : nat)
    (funcTemplate : string) (s : Substitutions) : option Substitutions :=
  match m_VarSubstitutions s !! source with
  | Some _ => None
  | None => Some (mkSubstitutions (m_VarSubstitutions s)
                                  (<[source := (numArguments, funcTemplate)]> (m_FuncSubstitutions s))
                                  (m_Parent s))
  end.

(** [subs[source]] *)
Fixpoint getVarSubstitution (s : Substitutions) (source : string) : option string :=
  match m_VarSubstitutions s !! source with
  | Some d => Some d
  | None =>
      match m_Parent s with
      | Some p => getVarSubstitution p source
      | None => None
      end
  end.

Fixpoint getFuncSubstitution (s : Substitutions) (source : string) : option (nat * string) :=
  match m_FuncSubstitutions s !! source with
  | Some f => Some f
  | None =>
      match m_Parent s with
      | Some p => getFuncSubstitution p source
      | None => None
      end
  end.

(** ** Emitting text *)

(** Modelled from the spec: the class CodeStream (codeStream.h) is not among
    the sources. The output stream is the text written so far; a scope opens
    with a brace and closes with one; indentation is left out. *)
Definition endl : string := String (ascii_of_nat 10) EmptyString.

Definition OB (level : Z) : string := "{" ++ endl.

Definition CB (level : Z) : string := "}" ++ endl.

(** [os << n] and [std::to_string(n)] for an unsigned number. *)
Definition to_string (n : Z) : string := pretty n.

(** A handler writes the text of a piece of model code under the
    substitutions it is handed; its result is that text. *)
Definition SynapseGroupHandler : Type :=
  SynapseGroupInternal -> Substitutions -> string.

Definition eventSuffix (trueSpike : bool) : string :=
  if trueSpike then EmptyString else "Evnt".

(** Expressions over the kernel's [thread] index that the procedural strategy
    writes into the kernel; [render] is their text, [eval] their value in
    [unsigned int] arithmetic for a given thread. *)
Inductive KernelExpr :=
| Lit (n : Z)
| Thread
| Mul (a b : KernelExpr)
| Select (lhs rhs a b : KernelExpr).

Fixpoint render (e : KernelExpr) : string :=
  match e with
  | Lit n => to_string n
  | Thread => "thread"
  | Mul a b => render a ++ " * " ++ render b
  | Select lhs rhs a b =>
      "(" ++ render lhs ++ " == " ++ render rhs ++ ") ? " ++ render a ++ " : " ++ render b
  end.

Fixpoint eval (thread : Z) (e : KernelExpr) : Z :=
  match e with
  | Lit n => n
  | Thread => thread
  | Mul a b => wrap32 (eval thread a * eval thread b)
  | Select lhs rhs a b =>
      if eval thread lhs =? eval thread rhs then eval thread a else eval thread b
  end.

(** ** presynapticUpdateStrategy.cc: PreSpan *)

Module PreSpan.

Definition getNumThreads (sg : SynapseGroupInternal) : Z :=
  ng_getNumNeurons (getSrcNeuronGroup sg) * getNumThreadsPerSpike sg.

Definition isCompatible (sg : SynapseGroupInternal) : bool :=
  SpanType_eqb (getSpanType sg) PRESYNAPTIC && (getMatrixType sg &? SPARSE).

Definition shouldAccumulateInRegister (sg : SynapseGroupInternal) (backend : Backend) : bool :=
  false.

Definition shouldAccumulateInSharedMemory (sg : SynapseGroupInternal) (backend : Backend) : bool :=
  if getChosenCUDADevice_major backend <? 5 then false
  else if isDendriticDelayRequired sg then false
  else ng_getNumNeurons (getTrgNeuronGroup sg) <=? getKernelBlockSize backend KernelPresynapticUpdate.

(** The substitution stack [synSubs] that [genCode] hands to the handler of
    the presynaptic simulation code. *)
Definition synSubs (model : ModelSpecInternal) (sg : SynapseGroupInternal)
    (popSubs : Substitutions) (backend : Backend) : option Substitutions :=
  s ← addVarSubstitution "id_pre" "preInd" (child popSubs);
  s ← addVarSubstitution "id_post" "ipost" s;
  s ← addVarSubstitution "id_syn" "synAddress" s;
  if isDendriticDelayRequired sg then
    addFuncSubstitution "addToInSynDelay" 2
      (getFloatAtomicAdd backend (getPrecision model) ++ "(&dd_denDelay"
       ++ getPSModelTargetName sg ++ "[" ++ getDendriticDelayOffset sg "dd_" "$(1)"
       ++ "ipost], $(0))") s
  else if shouldAccumulateInSharedMemory sg backend then
    addFuncSubstitution "addToInSyn" 1
      (getFloatAtomicAdd backend (getPrecision model) ++ "(&shLg[ipost], $(0))") s
  else
    addFuncSubstitution "addToInSyn" 1
      (getFloatAtomicAdd backend (getPrecision model) ++ "(&dd_inSyn"
       ++ getPSModelTargetName sg ++ "[ipost], $(0))") s.

Definition genCode (model : ModelSpecInternal) (sg : SynapseGroupInternal)
    (popSubs : Substitutions) (backend : Backend) (trueSpike : bool)
    (wumThreshHandler wumSimHandler : SynapseGroupHandler) : option string :=
  let src := getSrcNeuronGroup sg in
  let threads := getNumThreadsPerSpike sg in
  let reTest := negb trueSpike && isEventThresholdReTestRequired sg in
  id ← getVarSubstitution popSubs "id";
  threshold ←
    (if reTest then
       threshSubs ← addVarSubstitution "id_pre" "preInd" (child popSubs);
       Some ("if(" ++ wumThreshHandler sg threshSubs ++ ")" ++ OB 130)
     else Some EmptyString);
  subs ← synSubs model sg popSubs backend;
  Some (
    (if threads >? 1 then
       "const unsigned int spike = " ++ id ++ " / " ++ to_string threads ++ ";" ++ endl
       ++ "const unsigned int thread = " ++ id ++ " % " ++ to_string threads ++ ";" ++ endl
     else
       "const unsigned int spike = " ++ id ++ ";" ++ endl)
    ++ "if (spike < "
    ++ (if ng_isDelayRequired src then
          "dd_glbSpkCnt" ++ eventSuffix trueSpike ++ ng_getName src ++ "[preReadDelaySlot])"
        else
          "dd_glbSpkCnt" ++ eventSuffix trueSpike ++ ng_getName src ++ "[0])")
    ++ OB 0
    ++ (if String.eqb (getSimSupportCode (getWUModel sg)) EmptyString then EmptyString
        else "using namespace " ++ getName sg ++ "_weightupdate_simCode;" ++ endl)
    ++ (if ng_isDelayRequired src then
          "const unsigned int preInd = dd_glbSpk" ++ eventSuffix trueSpike ++ ng_getName src
          ++ "[(preReadDelaySlot * " ++ to_string (ng_getNumNeurons src) ++ ") + spike];" ++ endl
        else
          "const unsigned int preInd = dd_glbSpk" ++ eventSuffix trueSpike ++ ng_getName src
          ++ "[spike];" ++ endl)
    ++ (if threads >? 1 then
          "unsigned int synAddress = (preInd * " ++ to_string (getMaxConnections sg)
          ++ ") + thread;" ++ endl
        else
          "unsigned int synAddress = preInd * " ++ to_string (getMaxConnections sg) ++ ";" ++ endl)
    ++ "const unsigned int npost = dd_rowLength" ++ getName sg ++ "[preInd];" ++ endl
    ++ threshold
    ++ (if threads >? 1 then
          "for(unsigned int i = thread; i < npost; i += " ++ to_string threads
          ++ ", synAddress += " ++ to_string threads ++ ")"
        else
          "for(unsigned int i = 0; i < npost; i++, synAddress++)")
    ++ OB 0
    ++ "const unsigned int ipost = dd_ind" ++ getName sg ++ "[synAddress];" ++ endl
    ++ wumSimHandler sg subs
    ++ CB 0
    ++ (if reTest then CB 130 else EmptyString)
    ++ CB 0).

End PreSpan.

(** ** presynapticUpdateStrategy.cc: PostSpan *)

Module PostSpan.

Definition getNumThreads (sg : SynapseGroupInternal) : Z :=
  if getMatrixType sg &? SPARSE then getMaxConnections sg
  else ng_getNumNeurons (getTrgNeuronGroup sg).

Definition isCompatible (sg : SynapseGroupInternal) : bool :=
  SpanType_eqb (getSpanType sg) POSTSYNAPTIC && negb (getMatrixType sg &? PROCEDURAL).

Definition shouldAccumulateInRegister (sg : SynapseGroupInternal) (backend : Backend) : bool :=
  (getMatrixType sg &? DENSE) || (getMatrixType sg &? BITMASK).

Definition shouldAccumulateInSharedMemory (sg : SynapseGroupInternal) (backend : Backend) : bool :=
  if isDendriticDelayRequired sg then false
  else (getMatrixType sg &? SPARSE)
       && (ng_getNumNeurons (getTrgNeuronGroup sg) <=? getKernelBlockSize backend KernelPresynapticUpdate).

(** The substitution stack [synSubs] that [genCode] hands to the handler of
    the presynaptic simulation code. *)
Definition synSubs (model : ModelSpecInternal) (sg : SynapseGroupInternal)
    (popSubs : Substitutions) (backend : Backend) (trueSpike : bool) : option Substitutions :=
  s ← addVarSubstitution "id_pre" ("shSpk" ++ eventSuffix trueSpike ++ "[j]") (child popSubs);
  s ← (if getMatrixType sg &? SPARSE then addVarSubstitution "id_post" "ipost" s
       else id ← getVarSubstitution popSubs "id"; addVarSubstitution "id_post" id s);
  s ← addVarSubstitution "id_syn" "synAddress" s;
  if isDendriticDelayRequired sg then
    id_post ← getVarSubstitution s "id_post";
    addFuncSubstitution "addToInSynDelay" 2
      (getFloatAtomicAdd backend (getPrecision model) ++ "(&dd_denDelay"
       ++ getPSModelTargetName sg ++ "[" ++ getDendriticDelayOffset sg "dd_" "$(1)"
       ++ id_post ++ "], $(0))") s
  else if getMatrixType sg &? SPARSE then
    if shouldAccumulateInSharedMemory sg backend then
      id_post ← getVarSubstitution s "id_post";
      addFuncSubstitution "addToInSyn" 1 ("shLg[" ++ id_post ++ "] += $(0)") s
    else
      id_post ← getVarSubstitution s "id_post";
      addFuncSubstitution "addToInSyn" 1
        (getFloatAtomicAdd backend (getPrecision model) ++ "(&dd_inSyn"
         ++ getPSModelTargetName sg ++ "[" ++ id_post ++ "], $(0))") s
  else
    addFuncSubstitution "addToInSyn" 1 "linSyn += $(0)" s.

Definition genCode (model : ModelSpecInternal) (sg : SynapseGroupInternal)
    (popSubs : Substitutions) (backend : Backend) (trueSpike : bool)
    (wumThreshHandler wumSimHandler : SynapseGroupHandler) : option string :=
  let src := getSrcNeuronGroup sg in
  let trg := getTrgNeuronGroup sg in
  let blockSize := to_string (getKernelBlockSize backend KernelPresynapticUpdate) in
  let shSpk := "shSpk" ++ eventSuffix trueSpike in
  let reTest := negb trueSpike && isEventThresholdReTestRequired sg in
  let bitmask := getMatrixType sg &? BITMASK in
  let sparse := getMatrixType sg &? SPARSE in
  let queueOffset := if ng_isDelayRequired src then "preReadDelayOffset + " else EmptyString in
  let maxSynapses := (ng_getNumNeurons trg * ng_getNumNeurons src) mod 2 ^ 64 in
  id ← getVarSubstitution popSubs "id";
  threshold ←
    (if reTest then
       threshSubs ← addVarSubstitution "id_pre" (shSpk ++ "[j]") (child popSubs);
       Some ("if("
             ++ (if bitmask then "(B(dd_gp" ++ getName sg ++ "[gid / 32], gid & 31)) && "
                 else EmptyString)
             ++ wumThreshHandler sg threshSubs ++ ")" ++ OB 130)
     else if bitmask then
       Some ("if (B(dd_gp" ++ getName sg ++ "[gid / 32], gid & 31))" ++ OB 135)
     else Some EmptyString);
  subs ← synSubs model sg popSubs backend trueSpike;
  Some (
    "const unsigned int numSpikes = dd_glbSpkCnt" ++ eventSuffix trueSpike ++ ng_getName src
    ++ (if ng_isDelayRequired src then "[preReadDelaySlot];" ++ endl else "[0];" ++ endl)
    ++ "const unsigned int numSpikeBlocks = (numSpikes + " ++ blockSize ++ " - 1) / "
    ++ blockSize ++ ";" ++ endl
    ++ "for (unsigned int r = 0; r < numSpikeBlocks; r++)"
    ++ OB 0
    ++ "const unsigned int numSpikesInBlock = (r == numSpikeBlocks - 1) ? ((numSpikes - 1) % "
    ++ blockSize ++ ") + 1 : " ++ blockSize ++ ";" ++ endl
    ++ "__syncthreads();" ++ endl
    ++ "if (threadIdx.x < numSpikesInBlock)"
    ++ OB 0
    ++ "const unsigned int spk = dd_glbSpk" ++ eventSuffix trueSpike ++ ng_getName src
    ++ "[" ++ queueOffset ++ "(r * " ++ blockSize ++ ") + threadIdx.x];" ++ endl
    ++ shSpk ++ "[threadIdx.x] = spk;" ++ endl
    ++ (if sparse then "shRowLength[threadIdx.x] = dd_rowLength" ++ getName sg ++ "[spk];" ++ endl
        else EmptyString)
    ++ CB 0
    ++ "__syncthreads();" ++ endl
    ++ "// loop through all incoming spikes" ++ endl
    ++ "for (unsigned int j = 0; j < numSpikesInBlock; j++)"
    ++ OB 0
    ++ "// only work on existing neurons" ++ endl
    ++ "if (" ++ id ++ " < " ++ to_string (getMaxConnections sg) ++ ")"
    ++ OB 0
    ++ (if bitmask then
          if negb (Z.land maxSynapses 0xFFFFFFFF00000000 =? 0) then
            "const uint64_t gid = (" ++ shSpk ++ "[j] * " ++ to_string (ng_getNumNeurons trg)
            ++ "ull + " ++ id ++ ");" ++ endl
          else
            "const unsigned int gid = (" ++ shSpk ++ "[j] * " ++ to_string (ng_getNumNeurons trg)
            ++ " + " ++ id ++ ");" ++ endl
        else EmptyString)
    ++ (if String.eqb (getSimSupportCode (getWUModel sg)) EmptyString then EmptyString
        else "using namespace " ++ getName sg ++ "_weightupdate_simCode;" ++ endl)
    ++ threshold
    ++ (if sparse then
          "unsigned int synAddress = " ++ shSpk ++ "[j] * " ++ to_string (getMaxConnections sg)
          ++ ";" ++ endl
          ++ "const unsigned int npost = shRowLength[j];" ++ endl
          ++ "if (" ++ id ++ " < npost)" ++ OB 140
          ++ "synAddress += " ++ id ++ ";" ++ endl
          ++ "const unsigned int ipost = dd_ind" ++ getName sg ++ "[synAddress];" ++ endl
        else
          "unsigned int synAddress = (" ++ shSpk ++ "[j] * " ++ to_string (ng_getNumNeurons trg)
          ++ ") + " ++ id ++ ";" ++ endl)
    ++ wumSimHandler sg subs
    ++ (if sparse then CB 140 else EmptyString)
    ++ (if reTest then CB 130 else if bitmask then CB 135 else EmptyString)
    ++ CB 0
    ++ CB 0
    ++ CB 0).

End PostSpan.

(** ** presynapticUpdateStrategy.cc: PreSpanProcedural *)

Module PreSpanProcedural.

Section RNG.

(** [::Utils::isRNGRequired] is not among the sources: a parameter. *)
Variable isRNGRequired : string -> bool.

Definition getNumThreads (sg : SynapseGroupInternal) : Z :=
  ng_getNumNeurons (getSrcNeuronGroup sg) * getNumThreadsPerSpike sg.

Definition isCompatible (sg : SynapseGroupInternal) : bool :=
  getMatrixType sg &? PROCEDURAL.

Definition shouldAccumulateInRegister (sg : SynapseGroupInternal) (backend : Backend) : bool :=
  false.

Definition shouldAccumulateInSharedMemory (sg : SynapseGroupInternal) (backend : Backend) : bool :=
  if getChosenCUDADevice_major backend <? 5 then false
  else if isDendriticDelayRequired sg then false
  else ng_getNumNeurons (getTrgNeuronGroup sg) <=? getKernelBlockSize backend KernelPresynapticUpdate.

(** [procPopSubs]: the population substitutions with the presynaptic index
    and, when the row-build code draws random numbers, the copied generator. *)
Definition procPopSubs (sg : SynapseGroupInternal) (popSubs : Substitutions)
    : option Substitutions :=
  s ← addVarSubstitution "id_pre" "preInd" (child popSubs);
  if isRNGRequired (getRowBuildCode sg) then addVarSubstitution "rng" "&connectRNG" s
  else Some s.

(** The substitution stack [synSubs] that [genCode] hands to the handler of
    the presynaptic simulation code. *)
Definition synSubs (model : ModelSpecInternal) (sg : SynapseGroupInternal)
    (popSubs : Substitutions) (backend : Backend) : option Substitutions :=
  p ← procPopSubs sg popSubs;
  s ← addVarSubstitution "id_post" "$(0)" (child p);
  s ← addVarSubstitution "id_syn" "synAddress" s;
  if isDendriticDelayRequired sg then
    addFuncSubstitution "addToInSynDelay" 2
      (getFloatAtomicAdd backend (getPrecision model) ++ "(&dd_denDelay"
       ++ getPSModelTargetName sg ++ "[" ++ getDendriticDelayOffset sg "dd_" "$(1)"
       ++ "$(id_post)], $(0))") s
  else if shouldAccumulateInSharedMemory sg backend then
    addFuncSubstitution "addToInSyn" 1
      (getFloatAtomicAdd backend (getPrecision model) ++ "(&shLg[$(id_post)], $(0))") s
  else
    addFuncSubstitution "addToInSyn" 1
      (getFloatAtomicAdd backend (getPrecision model) ++ "(&dd_inSyn"
       ++ getPSModelTargetName sg ++ "[$(id_post)], $(0))") s.

(** [numPostPerThread]: the length of the sub-row each thread processes. *)
Definition numPostPerThread (sg : SynapseGroupInternal) : Z :=
  wrap32 (ceilDivide (ng_getNumNeurons (getTrgNeuronGroup sg)) (getNumThreadsPerSpike sg)).

(** The initialiser of [idPostStart] in the kernel. *)
Definition idPostStart (sg : SynapseGroupInternal) : KernelExpr :=
  Mul Thread (Lit (numPostPerThread sg)).

(** What [$(num_post)] stands for in the kernel: the sub-row length itself
    when it divides the number of target neurons, the clamped [numPost]
    otherwise. *)
Definition numPost (sg : SynapseGroupInternal) : KernelExpr :=
  let numTrgNeurons := ng_getNumNeurons (getTrgNeuronGroup sg) in
  if numTrgNeurons mod numPostPerThread sg =? 0 then Lit (numPostPerThread sg)
  else Select Thread (Lit (getNumThreadsPerSpike sg - 1))
              (Lit (numTrgNeurons mod numPostPerThread sg))
              (Lit (numPostPerThread sg)).

(** The text written for the row partition and the substitution stack
    [connSubs] of the procedural connectivity code. *)
Definition connSubs (sg : SynapseGroupInternal) (procSubs : Substitutions)
    (presynapticUpdate : string) : option (string * Substitutions) :=
  let numTrgNeurons := ng_getNumNeurons (getTrgNeuronGroup sg) in
  s ← addFuncSubstitution "addSynapse" 1 presynapticUpdate (child procSubs);
  if getNumThreadsPerSpike sg >? 1 then
    let start := "const unsigned int idPostStart = " ++ render (idPostStart sg) ++ ";" ++ endl in
    if numTrgNeurons mod numPostPerThread sg =? 0 then
      s ← addVarSubstitution "num_post" (to_string (numPostPerThread sg)) s;
      s ← addVarSubstitution "id_post_begin" "idPostStart" s;
      Some (start, s)
    else
      s ← addVarSubstitution "num_post" "numPost" s;
      s ← addVarSubstitution "id_post_begin" "idPostStart" s;
      Some (start ++ "const unsigned int numPost = " ++ render (numPost sg) ++ ";" ++ endl, s)
  else
    s ← addVarSubstitution "id_post_begin" "0" s;
    s ← addVarSubstitution "num_post" (to_string numTrgNeurons) s;
    Some (EmptyString, s).

Definition genCode (model : ModelSpecInternal) (sg : SynapseGroupInternal)
    (popSubs : Substitutions) (backend : Backend) (trueSpike : bool)
    (wumThreshHandler wumSimHandler wumProceduralConnectHandler : SynapseGroupHandler)
    : option string :=
  let src := getSrcNeuronGroup sg in
  let numSrcNeurons := ng_getNumNeurons src in
  let threads := getNumThreadsPerSpike sg in
  let reTest := negb trueSpike && isEventThresholdReTestRequired sg in
  id ← getVarSubstitution popSubs "id";
  procSubs ← procPopSubs sg popSubs;
  subs ← synSubs model sg popSubs backend;
  let presynapticUpdate := wumSimHandler sg subs ++ "synAddress++;" ++ endl in
  conn ← connSubs sg procSubs presynapticUpdate;
  Some (
    (if threads >? 1 then
       "const unsigned int spike = " ++ id ++ " / " ++ to_string threads ++ ";" ++ endl
       ++ "const unsigned int thread = " ++ id ++ " % " ++ to_string threads ++ ";" ++ endl
     else
       "const unsigned int spike = " ++ id ++ ";" ++ endl)
    ++ "if (spike < "
    ++ (if ng_isDelayRequired src then
          "dd_glbSpkCnt" ++ eventSuffix trueSpike ++ ng_getName src ++ "[preReadDelaySlot])"
        else
          "dd_glbSpkCnt" ++ eventSuffix trueSpike ++ ng_getName src ++ "[0])")
    ++ OB 0
    ++ (if ng_isDelayRequired src then
          "const unsigned int preInd = dd_glbSpk" ++ eventSuffix trueSpike ++ ng_getName src
          ++ "[(preReadDelaySlot * " ++ to_string numSrcNeurons ++ ") + spike];" ++ endl
        else
          "const unsigned int preInd = dd_glbSpk" ++ eventSuffix trueSpike ++ ng_getName src
          ++ "[spike];" ++ endl)
    ++ (if isRNGRequired (getRowBuildCode sg) then
          "curandStatePhilox4_32_10_t connectRNG = dd_rng[0];" ++ endl
          ++ "skipahead_sequence((unsigned long long)("
          ++ to_string (getProceduralConnectivitySequence backend sg model) ++ " + " ++ id
          ++ "), &connectRNG);" ++ endl
        else EmptyString)
    ++ (if String.eqb (getSimSupportCode (getWUModel sg)) EmptyString then EmptyString
        else "using namespace " ++ getName sg ++ "_weightupdate_simCode;" ++ endl)
    ++ (if reTest then "if(" ++ wumThreshHandler sg (child procSubs) ++ ")" ++ OB 130
        else EmptyString)
    ++ "unsigned int synAddress = preInd * " ++ to_string (getMaxConnections sg) ++ ";" ++ endl
    ++ fst conn
    ++ wumProceduralConnectHandler sg (snd conn)
    ++ (if reTest then CB 130 else EmptyString)
    ++ CB 0).

End RNG.

End PreSpanProcedural.

(** ** The closed set of strategies *)

(** The three strategies behind one interface: virtual dispatch over the
    classes of the source. *)
Inductive Strategy := StrategyPreSpan | StrategyPostSpan | StrategyPreSpanProcedural.

Definition strategies : list Strategy :=
  [StrategyPreSpan; StrategyPostSpan; StrategyPreSpanProcedural].

Definition isCompatible (s : Strategy) (sg : SynapseGroupInternal) : bool :=
  match s with
  | StrategyPreSpan => PreSpan.isCompatible sg
  | StrategyPostSpan => PostSpan.isCompatible sg
  | StrategyPreSpanProcedural => PreSpanProcedural.isCompatible sg
  end.

Definition shouldAccumulateInRegister (s : Strategy) (sg : SynapseGroupInternal)
    (backend : Backend) : bool :=
  match s with
  | StrategyPreSpan => PreSpan.shouldAccumulateInRegister sg backend
  | StrategyPostSpan => PostSpan.shouldAccumulateInRegister sg backend
  | StrategyPreSpanProcedural => PreSpanProcedural.shouldAccumulateInRegister sg backend
  end.

Definition shouldAccumulateInSharedMemory (s : Strategy) (sg : SynapseGroupInternal)
    (backend : Backend) : bool :=
  match s with
  | StrategyPreSpan => PreSpan.shouldAccumulateInSharedMemory sg backend
  | StrategyPostSpan => PostSpan.shouldAccumulateInSharedMemory sg backend
  | StrategyPreSpanProcedural => PreSpanProcedural.shouldAccumulateInSharedMemory sg backend
  end.

(** The strategies whose compatibility predicate accepts a connection. *)
Definition compatibleStrategies (sg : SynapseGroupInternal) : list Strategy :=
  List.filter (fun s => isCompatible s sg) strategies.

(** The representation tag of a connection. *)
Definition connectivityOf (sg : SynapseGroupInternal) : SynapseMatrixConnectivity :=
  matrixConnectivity (getMatrixType sg).

Definition isDenseOrBitmask (c : SynapseMatrixConnectivity) : bool :=
  match c with
  | DENSE | BITMASK => true
  | SPARSE | PROCEDURAL => false
  end.

(** The substitution stack a strategy's [genCode] hands to the handler of
    the presynaptic simulation code. *)
Definition synSubs (isRNGRequired : string -> bool) (s : Strategy)
    (model : ModelSpecInternal) (sg : SynapseGroupInternal) (popSubs : Substitutions)
    (backend : Backend) (trueSpike : bool) : option Substitutions :=
  match s with
  | StrategyPreSpan => PreSpan.synSubs model sg popSubs backend
  | StrategyPostSpan => PostSpan.synSubs model sg popSubs backend trueSpike
  | StrategyPreSpanProcedural => PreSpanProcedural.synSubs isRNGRequired model sg popSubs backend
  end.

(** The text a strategy indexes the target with: the [ipost] read from the
    row, the thread's own index [id] for a dense or bitmask row, or the
    placeholder the procedural connectivity code fills in. *)
Definition postIndexText (s : Strategy) (sg : SynapseGroupInternal) (id : string) : string :=
  match s with
  | StrategyPreSpan => "ipost"
  | StrategyPostSpan => if getMatrixType sg &? SPARSE then "ipost" else id
  | StrategyPreSpanProcedural => "$(id_post)"
  end.

(** The template of an atomic add into the dendritic-delay buffer of the
    target, at the slot given by the second argument. *)
Definition dendriticDelayAtomicAdd (model : ModelSpecInternal) (sg : SynapseGroupInternal)
    (backend : Backend) (postIndex : string) : string :=
  getFloatAtomicAdd backend (getPrecision model) ++ "(&dd_denDelay" ++ getPSModelTargetName sg
  ++ "[" ++ getDendriticDelayOffset sg "dd_" "$(1)" ++ postIndex ++ "], $(0))".

(** ** The sub-row a thread of the procedural kernel works on *)

(** First target index and number of targets of thread [thread], read off the
    expressions the kernel is generated with. *)
Definition subRow (sg : SynapseGroupInternal) (thread : Z) : Z * Z :=
  (eval thread (PreSpanProcedural.idPostStart sg), eval thread (PreSpanProcedural.numPost sg)).

(** The sub-rows of threads 0 .. threadsPerSpike - 1. *)
Definition subRows (sg : SynapseGroupInternal) : list (Z * Z) :=
  List.map (fun t => subRow sg (Z.of_nat t)) (seq 0 (Z.to_nat (getNumThreadsPerSpike sg))).

Definition sumZ (l : list Z) : Z := fold_right Z.add 0 l.

(** ** Delay-slot requests in sequence *)

Definition checkNumDelaySlots_all (delays : list Z) (ng : NeuronGroup.t) : NeuronGroup.t :=
  fold_left (fun g d => NeuronGroup.checkNumDelaySlots d g) delays ng.

(** ** Sample descriptors *)

Definition samplePopulation (name : string) (numNeurons : Z) : NeuronGroupInternal :=
  mkNeuronGroupInternal name numNeurons false.

(** A connection from a population of 100 neurons, with individual weights
    (weight flag 2), at most 8 connections per row, 8 dendritic-delay slots
    and no support code. *)
Definition sampleConnection (span : SpanType) (conn : SynapseMatrixConnectivity)
    (threadsPerSpike numTrgNeurons : Z) (dendriticDelay : bool) : SynapseGroupInternal :=
  mkSynapseGroupInternal "Syn" (samplePopulation "Pre" 100) (samplePopulation "Post" numTrgNeurons)
    span (mkSynapseMatrixType conn 2) threadsPerSpike 8 dendriticDelay false "Post_Syn"
    (fun devPrefix offset =>
       "(((" ++ devPrefix ++ "denDelayPtrPost_Syn + " ++ offset ++ ") % 8) * "
       ++ to_string numTrgNeurons ++ ") + ")
    (mkWeightUpdateModel EmptyString) EmptyString.

(** A dense connection that asks for parallelism over the source. *)
Definition samplePresynapticDense : SynapseGroupInternal :=
  sampleConnection PRESYNAPTIC DENSE 1 10 false.

(** A sparse connection onto 4 neurons, parallelised over the target. *)
Definition samplePostsynapticSparse : SynapseGroupInternal :=
  sampleConnection POSTSYNAPTIC SPARSE 1 4 false.

(** Procedural connections onto 10 neurons with 3 threads per spike, and
    onto 5 neurons with 4 threads per spike. *)
Definition sampleProcedural_10_over_3 : SynapseGroupInternal :=
  sampleConnection PRESYNAPTIC PROCEDURAL 3 10 false.

Definition sampleProcedural_5_over_4 : SynapseGroupInternal :=
  sampleConnection PRESYNAPTIC PROCEDURAL 4 5 false.

(** Weight-update code that reads the variable [V] of the target. *)
Definition samplePostCode : string := "$(addToInSyn, $(g) * $(V_post));".

(** A backend on a device of the given compute capability, with blocks of 32
    threads for every kernel. *)
Definition sampleBackend (major : Z) : Backend :=
  mkBackend major (fun _ => 32) (fun _ => "atomicAdd") (fun _ _ => 0).

Definition sampleModel : ModelSpecInternal := mkModelSpecInternal "float".

Definition samplePopSubs : Substitutions :=
  mkSubstitutions {[ "id" := "lid" ]} ∅ None.

(** A population with one variable [V], not queued, and the given number of
    delay slots. *)
Definition sampleNeuronGroup (numDelaySlots : Z) : NeuronGroup.t :=
  NeuronGroup.mkNeuronGroup
    (NeuronGroup.mkNeuronModel [("V", "scalar")] "$(V) += $(Isyn);" "$(V) >= 1.0" "$(V) = 0.0;")
    numDelaySlots false [false] [].

(** ** snippet.h *)

Module Snippet.

(** [Snippet::Base::getNamedVecIndex]: the position [std::find_if] stops at,
    when the assertion that it found an element holds; [None] when the
    assertion fails. [name_of] reads the [name] member of an element. *)
Fixpoint getNamedVecIndex {T : Type} (name_of : T -> string) (name : string)
    (vec : list T) : option nat :=
  match vec with
  | [] => None
  | v :: rest =>
      if String.eqb (name_of v) name then Some 0%nat
      else S <$> getNamedVecIndex name_of name rest
  end.

Section Init.

(** The type [double] and its comparison [!=]; floating-point arithmetic
    itself is not modelled. *)
Context {double : Type}.
Variable double_neq : double -> double -> bool.

(** [Snippet::Base::DerivedParam] *)
Record DerivedParam := mkDerivedParam {
  dp_name : string;
  dp_func : list double -> double -> double
}.

(** [DerivedParam::operator ==] compares the names. *)
Definition DerivedParam_eqb (a b : DerivedParam) : bool :=
  String.eqb (dp_name a) (dp_name b).

(** [operator ==] of two vectors: the same size and equal elements. *)
Fixpoint vector_eqb {T : Type} (eqb : T -> T -> bool) (a b : list T) : bool :=
  match a, b with
  | [], [] => true
  | x :: a', y :: b' => eqb x y && vector_eqb eqb a' b'
  | _, _ => false
  end.

(** What a snippet reports through its virtuals. *)
Record Base := mkBase {
  getParamNames : list string;
  getDerivedParams : list DerivedParam
}.

(** [Snippet::Base::canBeMerged], the protected helper of the snippet
    classes. *)
Definition Base_canBeMerged (this other : Base) : bool :=
  vector_eqb String.eqb (getParamNames this) (getParamNames other)
  && vector_eqb DerivedParam_eqb (getDerivedParams this) (getDerivedParams other).

(** The public [canBeMerged] of the snippet class [SnippetBase] that [Init]
    is instantiated with. [Init] can not reach the protected helper above,
    so this is the function [getSnippet()->canBeMerged(...)] calls; the
    snippet classes are not among the sources and nothing is assumed about
    it. *)
Variable SnippetBase_canBeMerged : Base -> Base -> bool.

(** [Snippet::Init]: a snippet with its parameter values and the derived
    parameter values computed from them. *)
Record Init := mkInit {
  getSnippet : Base;
  getParams : list double;
  m_DerivedParams : list double
}.

(** [Init::initDerivedParams]: one [push_back] per derived parameter. *)
Definition initDerivedParams (dt : double) (this : Init) : Init :=
  mkInit (getSnippet this) (getParams this)
    (fold_left (fun values d => (values ++ [dp_func d (getParams this) dt])%list)
       (getDerivedParams (getSnippet this)) (m_DerivedParams this)).

(** The first loop of [Init::canBeMerged], from index [i] on: [Some false]
    at the first referenced parameter whose values differ, [None] when a
    value vector is shorter than the name vector. *)
Fixpoint paramsMatch (codeString : string) (names : list string) (i : nat)
    (mine theirs : list double) : option bool :=
  match names with
  | [] => Some true
  | name :: rest =>
      if contains codeString ("$(" ++ name ++ ")") then
        a ← mine !! i;
        b ← theirs !! i;
        if double_neq a b then Some false
        else paramsMatch codeString rest (S i) mine theirs
      else paramsMatch codeString rest (S i) mine theirs
  end.

(** [Init::canBeMerged]; [None] stands for a failed assertion or a read
    past the end of a value vector. *)
Definition canBeMerged (this other : Init) (codeString : string) : option bool :=
  if SnippetBase_canBeMerged (getSnippet this) (getSnippet other) then
    match paramsMatch codeString (getParamNames (getSnippet this)) 0
            (getParams this) (getParams other) with
    | Some true =>
        let derivedParams := getDerivedParams (getSnippet this) in
        if Nat.eqb (List.length derivedParams) (List.length (m_DerivedParams this)) then
          if Nat.eqb (List.length derivedParams) (List.length (m_DerivedParams other)) then
            paramsMatch codeString (List.map dp_name derivedParams) 0
              (m_DerivedParams this) (m_DerivedParams other)
          else None
        else None
    | Some false => Some false
    | None => None
    end
  else Some false.

(** The values at the positions of the names that the code string refers
    to are there on both sides and do not differ. *)
Definition referencedAgree (codeString : string) (names : list string)
    (mine theirs : list double) : Prop :=
  forall (k : nat) (name : string),
    names !! k = Some name ->
    contains codeString ("$(" ++ name ++ ")") = true ->
    exists a b : double,
      mine !! k = Some a /\ theirs !! k = Some b /\ double_neq a b = false.

End Init.

End Snippet.

(** ** lib/src/neuronGroup.cc: the remaining member functions *)

Module NeuronGroupMembers.

Section Members.

(** The storage modes of variables ([VarMode], variableMode.h) and the test
    [mode & VarLocation::ZERO_COPY] are not among the sources: the type and
    the test are parameters, and so are [double] and [::isRNGRequired]. *)
Context {VarMode double : Type}.
Variable isZeroCopy : VarMode -> bool.
Variable isRNGRequired : string -> bool.

(** A variable initialiser, as [isInitCodeRequired], [isInitRNGRequired] and
    [initDerivedParams] use it: the code of its snippet and the snippet with
    its parameter values. *)
Record VarInit := mkVarInit {
  getCode : string;
  getInit : Snippet.Init (double := double)
}.

(** The members of [NeuronGroup] that the functions below read and write,
    around the part of the class modelled in [NeuronGroup.t]; the neuron
    model additionally reports its extra global parameters as (name, type)
    pairs and its derived parameters as (name, function) pairs. *)
Record t := mkMembers {
  base : NeuronGroup.t;
  getName : string;
  getExtraGlobalParams : list (string * string);
  getDerivedParams : list (string * (list double -> double -> double));
  m_Params : list double;
  m_DerivedParams : list double;
  m_VarInitialisers : list VarInit;
  m_VarMode : list VarMode;
  m_SpikeVarMode : VarMode;
  m_SpikeEventVarMode : VarMode;
  m_SpikeTimeVarMode : VarMode;
  m_SpikeEventCondition : gset (string * string)
}.

Definition set_VarMode (modes : list VarMode) (ng : t) : t :=
  mkMembers (base ng) (getName ng) (getExtraGlobalParams ng) (getDerivedParams ng)
    (m_Params ng) (m_DerivedParams ng) (m_VarInitialisers ng) modes
    (m_SpikeVarMode ng) (m_SpikeEventVarMode ng) (m_SpikeTimeVarMode ng)
    (m_SpikeEventCondition ng).

Definition set_SpikeEventCondition (conditions : gset (string * string)) (ng : t) : t :=
  mkMembers (base ng) (getName ng) (getExtraGlobalParams ng) (getDerivedParams ng)
    (m_Params ng) (m_DerivedParams ng) (m_VarInitialisers ng) (m_VarMode ng)
    (m_SpikeVarMode ng) (m_SpikeEventVarMode ng) (m_SpikeTimeVarMode ng)
    conditions.

Definition set_DerivedParams (values : list double) (initialisers : list VarInit)
    (ng : t) : t :=
  mkMembers (base ng) (getName ng) (getExtraGlobalParams ng) (getDerivedParams ng)
    (m_Params ng) values initialisers (m_VarMode ng)
    (m_SpikeVarMode ng) (m_SpikeEventVarMode ng) (m_SpikeTimeVarMode ng)
    (m_SpikeEventCondition ng).

Definition set_base (b : NeuronGroup.t) (ng : t) : t :=
  mkMembers b (getName ng) (getExtraGlobalParams ng) (getDerivedParams ng)
    (m_Params ng) (m_DerivedParams ng) (m_VarInitialisers ng) (m_VarMode ng)
    (m_SpikeVarMode ng) (m_SpikeEventVarMode ng) (m_SpikeTimeVarMode ng)
    (m_SpikeEventCondition ng).

(** Modelled from the spec: [getVarIndex] of the neuron model (newModels.h)
    is not among the sources. The index of the first declared variable with
    the name, by the search of [getNamedVecIndex]; an unknown name fails. *)
Definition getVarIndex (ng : t) (varName : string) : option nat :=
  Snippet.getNamedVecIndex fst varName (NeuronGroup.getVars (NeuronGroup.getNeuronModel (base ng))).

(** [void NeuronGroup::setVarMode(const std::string &varName, VarMode mode)] *)
Definition setVarMode (varName : string) (mode : VarMode) (ng : t) : option t :=
  i ← getVarIndex ng varName;
  Some (set_VarMode (<[i := mode]> (m_VarMode ng)) ng).

(** [VarMode NeuronGroup::getVarMode(const std::string &varName) const] *)
Definition getVarMode (varName : string) (ng : t) : option VarMode :=
  i ← getVarIndex ng varName;
  m_VarMode ng !! i.

(** [void NeuronGroup::addSpkEventCondition(code, supportCodeNamespace)] *)
Definition addSpkEventCondition (code supportCodeNamespace : string) (ng : t) : t :=
  set_SpikeEventCondition ({[ (code, supportCodeNamespace) ]} ∪ m_SpikeEventCondition ng) ng.

(** [void NeuronGroup::initDerivedParams(double dt)] *)
Definition initDerivedParams (dt : double) (ng : t) : t :=
  set_DerivedParams
    (fold_left (fun values d => (values ++ [snd d (m_Params ng) dt])%list)
       (getDerivedParams ng) (m_DerivedParams ng))
    (List.map (fun v => mkVarInit (getCode v) (Snippet.initDerivedParams dt (getInit v)))
       (m_VarInitialisers ng))
    ng.

(** [bool NeuronGroup::isVarQueueRequired(const std::string &var) const] *)
Definition isVarQueueRequired (var : string) (ng : t) : option bool :=
  i ← getVarIndex ng var;
  NeuronGroup.m_VarQueueRequired (base ng) !! i.

(** [updateVarQueues] on the whole object. *)
Definition updateVarQueues (code : string) (ng : t) : t :=
  set_base (NeuronGroup.updateVarQueues code (base ng)) ng.

(** [isSpikeZeroCopyEnabled] and its two siblings are inline in the header:
    the zero-copy test on the mode of the buffer. *)
Definition isSpikeZeroCopyEnabled (ng : t) : bool := isZeroCopy (m_SpikeVarMode ng).
Definition isSpikeEventZeroCopyEnabled (ng : t) : bool := isZeroCopy (m_SpikeEventVarMode ng).
Definition isSpikeTimeZeroCopyEnabled (ng : t) : bool := isZeroCopy (m_SpikeTimeVarMode ng).

(** [bool NeuronGroup::isZeroCopyEnabled() const] *)
Definition isZeroCopyEnabled (ng : t) : bool :=
  if isSpikeZeroCopyEnabled ng || isSpikeEventZeroCopyEnabled ng || isSpikeTimeZeroCopyEnabled ng
  then true
  else if existsb isZeroCopy (m_VarMode ng) then true
  else false.

(** The loop of [isParamRequiredBySpikeEventCondition] over the conditions. *)
Fixpoint anyConditionContains (pnamefull : string) (conditions : list (string * string)) : bool :=
  match conditions with
  | [] => false
  | spkEventCond :: rest =>
      if contains (fst spkEventCond) pnamefull then true
      else anyConditionContains pnamefull rest
  end.

(** [bool NeuronGroup::isParamRequiredBySpikeEventCondition(pnamefull) const] *)
Definition isParamRequiredBySpikeEventCondition (pnamefull : string) (ng : t) : bool :=
  anyConditionContains pnamefull (elements (m_SpikeEventCondition ng)).

(** Whether the sim, threshold or reset code uses an extra global parameter. *)
Definition isExtraGlobalParamUsed (ng : t) (name : string) : bool :=
  let model := NeuronGroup.getNeuronModel (base ng) in
  contains (NeuronGroup.getSimCode model) ("$(" ++ name ++ ")")
  || contains (NeuronGroup.getThresholdConditionCode model) ("$(" ++ name ++ ")")
  || contains (NeuronGroup.getResetCode model) ("$(" ++ name ++ ")").

(** The body of the loop of [addExtraGlobalParams] for one parameter. *)
Definition addExtraGlobalParam (ng : t) (kernelParameters : gmap string string)
    (p : string * string) : gmap string string :=
  let pnamefull := fst p ++ getName ng in
  match kernelParameters !! pnamefull with
  | None =>
      if isExtraGlobalParamUsed ng (fst p) then <[pnamefull := snd p]> kernelParameters
      else kernelParameters
  | Some _ => kernelParameters
  end.

(** [void NeuronGroup::addExtraGlobalParams(std::map<string, string> &) const] *)
Definition addExtraGlobalParams (ng : t) (kernelParameters : gmap string string)
    : gmap string string :=
  fold_left (addExtraGlobalParam ng) (getExtraGlobalParams ng) kernelParameters.

(** The first extra global parameter that is used by the code of the model
    and whose name, followed by the name of the population, is [key]. *)
Definition firstUsedParam (ng : t) (key : string) : option (string * string) :=
  List.find (fun p => bool_decide (fst p ++ getName ng = key)
                      && isExtraGlobalParamUsed ng (fst p))
    (getExtraGlobalParams ng).

(** [bool NeuronGroup::isInitCodeRequired() const] *)
Definition isInitCodeRequired (ng : t) : bool :=
  existsb (fun v => negb (String.eqb (getCode v) EmptyString)) (m_VarInitialisers ng).

(** [bool NeuronGroup::isInitRNGRequired() const] *)
Definition isInitRNGRequired (ng : t) : bool :=
  existsb (fun v => isRNGRequired (getCode v)) (m_VarInitialisers ng).

End Members.

End NeuronGroupMembers.

(** ** The strategies behind one interface, continued *)

(** [genCode] of each strategy; the handler of the procedural connectivity
    code is only used by the procedural strategy. *)
Definition genCode (isRNGRequired : string -> bool) (s : Strategy)
    (model : ModelSpecInternal) (sg : SynapseGroupInternal) (popSubs : Substitutions)
    (backend : Backend) (trueSpike : bool)
    (wumThreshHandler wumSimHandler wumProceduralConnectHandler : SynapseGroupHandler)
    : option string :=
  match s with
  | StrategyPreSpan =>
      PreSpan.genCode model sg popSubs backend trueSpike wumThreshHandler wumSimHandler
  | StrategyPostSpan =>
      PostSpan.genCode model sg popSubs backend trueSpike wumThreshHandler wumSimHandler
  | StrategyPreSpanProcedural =>
      PreSpanProcedural.genCode isRNGRequired model sg popSubs backend trueSpike
        wumThreshHandler wumSimHandler wumProceduralConnectHandler
  end.

(** The accumulation write that goes with the answers of a strategy's two
    policy predicates: into the register [linSyn], into the shared array
    [shLg] (plainly for the target-parallel strategy, atomically for the
    others), or atomically into the global input of the target. *)
Definition accumulationTemplate (s : Strategy) (model : ModelSpecInternal)
    (sg : SynapseGroupInternal) (backend : Backend) (postIndex : string) : string :=
  if shouldAccumulateInRegister s sg backend then "linSyn += $(0)"
  else if shouldAccumulateInSharedMemory s sg backend then
    match s with
    | StrategyPostSpan => "shLg[" ++ postIndex ++ "] += $(0)"
    | _ => getFloatAtomicAdd backend (getPrecision model) ++ "(&shLg[" ++ postIndex ++ "], $(0))"
    end
  else
    getFloatAtomicAdd backend (getPrecision model) ++ "(&dd_inSyn" ++ getPSModelTargetName sg
    ++ "[" ++ postIndex ++ "], $(0))".

(** What [$(id_pre)] and [$(id_post)] stand for in the simulation code of a
    strategy. *)
Definition preIndexBinding (s : Strategy) (trueSpike : bool) : string :=
  match s with
  | StrategyPostSpan => "shSpk" ++ eventSuffix trueSpike ++ "[j]"
  | _ => "preInd"
  end.

Definition postIndexBinding (s : Strategy) (sg : SynapseGroupInternal) (id : string) : string :=
  match s with
  | StrategyPreSpan => "ipost"
  | StrategyPostSpan => if getMatrixType sg &? SPARSE then "ipost" else id
  | StrategyPreSpanProcedural => "$(0)"
  end.

(** [simCodeWrittenUnder ... subs]: whatever the handlers write, the
    kernel body that [genCode] of the strategy produces is a fixed text
    around what the handler of the simulation code writes under [subs], the
    handler being called that once. For the procedural strategy the text of
    the simulation code, followed by the advance of [synAddress], is the
    template of [addSynapse] in the substitutions under which the handler
    of the connectivity code writes, and that handler's text is what the
    fixed text surrounds. *)
Definition simCodeWrittenUnder (isRNGRequired : string -> bool) (s : Strategy)
    (model : ModelSpecInternal) (sg : SynapseGroupInternal) (popSubs : Substitutions)
    (backend : Backend) (trueSpike : bool) (subs : Substitutions) : Prop :=
  forall wumThreshHandler : SynapseGroupHandler,
    match s with
    | StrategyPreSpanProcedural =>
        exists (before after : string) (connSubs : string -> Substitutions),
          forall wumSimHandler wumProceduralConnectHandler : SynapseGroupHandler,
            genCode isRNGRequired s model sg popSubs backend trueSpike
              wumThreshHandler wumSimHandler wumProceduralConnectHandler
            = Some (before
                    ++ wumProceduralConnectHandler sg (connSubs (wumSimHandler sg subs))
                    ++ after)
            /\ getFuncSubstitution (connSubs (wumSimHandler sg subs)) "addSynapse"
               = Some (1%nat, wumSimHandler sg subs ++ "synAddress++;" ++ endl)
    | _ =>
        exists before after : string,
          forall wumSimHandler wumProceduralConnectHandler : SynapseGroupHandler,
            genCode isRNGRequired s model sg popSubs backend trueSpike
              wumThreshHandler wumSimHandler wumProceduralConnectHandler
            = Some (before ++ wumSimHandler sg subs ++ after)
    end.

(** ** Sample populations *)

(** The population of the feature test extra_global_params_in_sim_code:
    variables [x] and [shift], the extra global parameter [input] used by
    the sim code, named [pre]. Storage modes are flag words here, zero-copy
    being bit 2; values of type [double] are integers; one derived
    parameter and one variable initialiser that draws a random number are
    added. *)
Definition sampleZeroCopy (mode : Z) : bool := Z.testbit mode 2.

Definition sampleIsRNGRequired (code : string) : bool := contains code "$(gennrand_".

Definition sampleMembers : @NeuronGroupMembers.t Z Z :=
  NeuronGroupMembers.mkMembers
    (NeuronGroup.mkNeuronGroup
       (NeuronGroup.mkNeuronModel [("x", "scalar"); ("shift", "scalar")]
          "$(x)= $(t)+$(shift)+$(input);" EmptyString EmptyString)
       1 false [false; false] [])
    "pre"
    [("input", "scalar")]
    [("scaledStep", fun params dt => dt * 10)]
    [] []
    [NeuronGroupMembers.mkVarInit "$(value) = $(gennrand_uniform);"
       (Snippet.mkInit (Snippet.mkBase [] []) [] [])]
    [2; 2] 2 2 2 ∅.

(** ** modelCommon.cc (SpineML generator): the code stream of a model *)

Module SpineMLGenerator.

(** [SpineMLGenerator::CodeStream]: the text passed on to the wrapped code
    stream, the text of the regime being written, and whether no regime
    with code has been closed yet. *)
Record CodeStream := mkCodeStream {
  m_CodeStream : string;
  m_CurrentRegimeStream : string;
  m_FirstNonEmptyRegime : bool
}.

(** A stream as its constructor leaves it. *)
Definition emptyCodeStream : CodeStream := mkCodeStream EmptyString EmptyString true.

(** [operator <<] (modelCommon.h, not among the sources) writes into the
    stream of the current regime. *)
Definition write (text : string) (cs : CodeStream) : CodeStream :=
  mkCodeStream (m_CodeStream cs) (m_CurrentRegimeStream cs ++ text) (m_FirstNonEmptyRegime cs).

(** [m_CodeStream << text] *)
Definition emit (text : string) (cs : CodeStream) : CodeStream :=
  mkCodeStream (m_CodeStream cs ++ text) (m_CurrentRegimeStream cs) (m_FirstNonEmptyRegime cs).

(** [void SpineMLGenerator::CodeStream::flush()] *)
Definition flush (cs : CodeStream) : CodeStream :=
  mkCodeStream (m_CodeStream cs ++ m_CurrentRegimeStream cs) EmptyString
    (m_FirstNonEmptyRegime cs).

(** [void SpineMLGenerator::CodeStream::onRegimeEnd(bool multipleRegimes,
    unsigned int currentRegimeID)]; [tellp() > 0] holds when something has
    been written for the regime. *)
Definition onRegimeEnd (multipleRegimes : bool) (currentRegimeID : Z) (cs : CodeStream)
    : CodeStream :=
  if negb (String.eqb (m_CurrentRegimeStream cs) EmptyString) then
    let opened :=
      if multipleRegimes then
        let chained :=
          if m_FirstNonEmptyRegime cs
          then mkCodeStream (m_CodeStream cs) (m_CurrentRegimeStream cs) false
          else emit "else " cs in
        emit ("if(_regimeID == " ++ to_string currentRegimeID ++ ")" ++ OB 1) chained
      else cs in
    let flushed := flush opened in
    if multipleRegimes then emit (CB 1) flushed else flushed
  else cs.

(** A model written regime by regime: the code of each regime, then the end
    of the regime. *)
Definition writeRegimes (multipleRegimes : bool) (regimes : list (Z * string))
    (cs : CodeStream) : CodeStream :=
  fold_left (fun cs regime => onRegimeEnd multipleRegimes (fst regime) (write (snd regime) cs))
    regimes cs.

(** The block of a regime in a model with several regimes. *)
Definition regimeBlock (regime : Z * string) : string :=
  "if(_regimeID == " ++ to_string (fst regime) ++ ")" ++ OB 1 ++ snd regime ++ CB 1.

(** The chain of blocks of the regimes that have code: every block but the
    first is preceded by [else]. *)
Fixpoint regimeChain (first : bool) (regimes : list (Z * string)) : string :=
  match regimes with
  | [] => EmptyString
  | regime :: rest =>
      if String.eqb (snd regime) EmptyString then regimeChain first rest
      else (if first then EmptyString else "else ") ++ regimeBlock regime
           ++ regimeChain false rest
  end.

End SpineMLGenerator.

(** ** modelCommon.cc (SpineML generator): walking the regimes of a model *)

Module ModelCode.

Section Handlers.

(** The object handlers ([ObjectHandler::Base], objectHandler.h) are not
    among the sources; what they do with an object is not modelled, the
    calls made to them are recorded. *)
Context {Handler : Type}.

(** A regime of the component class, as [generateModelCode] reads it: its
    name, the target regime of each [OnCondition], the source port and
    target regime of each [OnEvent] and [OnImpulse], and its
    [TimeDerivative] children (each by the variable it is for). *)
Record Regime := mkRegime {
  regimeName : string;
  onConditions : list string;
  onEvents : list (string * string);
  onImpulses : list (string * string);
  timeDerivatives : list string
}.

Record ComponentClass := mkComponentClass {
  componentType : string;
  regimes : list Regime;
  initial_regime : string
}.

(** A call made while walking the regimes: [onObject] of a handler with
    the object, the current and the target regime ID, or [regimeEndFunc]. *)
Inductive Call :=
| ConditionObject (h : Handler) (target_regime : string) (currentRegimeID targetRegimeID : Z)
| EventObject (h : Handler) (src_port target_regime : string) (currentRegimeID targetRegimeID : Z)
| ImpulseObject (h : Handler) (src_port target_regime : string) (currentRegimeID targetRegimeID : Z)
| TimeDerivativeObject (h : Handler) (variable : string) (currentRegimeID targetRegimeID : Z)
| RegimeEnd (multipleRegimes : bool) (currentRegimeID : Z).

(** The map from regime names to IDs and the calls made so far. *)
Record State := mkState {
  regimeIDs : gmap string Z;
  calls : list Call
}.

(** [regimeIDs[name]]: the ID under the name; a name that is not in the map
    is entered with the value-initialised ID 0. *)
Definition lookupOrInsert (name : string) (ids : gmap string Z) : Z * gmap string Z :=
  match ids !! name with
  | Some id => (id, ids)
  | None => (0, <[name := 0]> ids)
  end.

(** The [std::transform] that builds the map: each regime is inserted under
    its name with the size of the map at that moment; a name that is
    already there is not inserted again. *)
Definition buildRegimeIDs (rs : list Regime) : gmap string Z :=
  fold_left (fun ids r =>
               match ids !! regimeName r with
               | Some _ => ids
               | None => <[regimeName r := wrap32 (Z.of_nat (size ids))]> ids
               end) rs ∅.

(** The loop over the [OnCondition] children of a regime; the second
    component is the message of the exception thrown, if one is. *)
Fixpoint handleConditions (objectHandlerCondition : option Handler) (type : string)
    (currentRegimeID : Z) (conditions : list string) (st : State) : State * option string :=
  match conditions with
  | [] => (st, None)
  | target :: rest =>
      match objectHandlerCondition with
      | Some h =>
          let (targetRegimeID, ids) := lookupOrInsert target (regimeIDs st) in
          handleConditions objectHandlerCondition type currentRegimeID rest
            (mkState ids (calls st ++ [ConditionObject h target currentRegimeID targetRegimeID]))
      | None => (st, Some ("No handler for OnCondition in models of type '" ++ type))
      end
  end.

(** The loop over the [OnEvent] children of a regime. *)
Fixpoint handleEvents (objectHandlerEvent : gmap string Handler) (type : string)
    (currentRegimeID : Z) (events : list (string * string)) (st : State)
    : State * option string :=
  match events with
  | [] => (st, None)
  | (srcPort, target) :: rest =>
      match objectHandlerEvent !! srcPort with
      | Some h =>
          let (targetRegimeID, ids) := lookupOrInsert target (regimeIDs st) in
          handleEvents objectHandlerEvent type currentRegimeID rest
            (mkState ids (calls st ++ [EventObject h srcPort target currentRegimeID targetRegimeID]))
      | None => (st, Some ("No handler for events from source port '" ++ srcPort
                           ++ "' to model of type '" ++ type))
      end
  end.

(** The loop over the [OnImpulse] children of a regime. *)
Fixpoint handleImpulses (objectHandlerImpulse : gmap string Handler) (type : string)
    (currentRegimeID : Z) (impulses : list (string * string)) (st : State)
    : State * option string :=
  match impulses with
  | [] => (st, None)
  | (srcPort, target) :: rest =>
      match objectHandlerImpulse !! srcPort with
      | Some h =>
          let (targetRegimeID, ids) := lookupOrInsert target (regimeIDs st) in
          handleImpulses objectHandlerImpulse type currentRegimeID rest
            (mkState ids (calls st ++ [ImpulseObject h srcPort target currentRegimeID targetRegimeID]))
      | None => (st, Some ("No handler for impulses from source port '" ++ srcPort
                           ++ "' to model of type '" ++ type))
      end
  end.

(** The loop over the [TimeDerivative] children of a regime. *)
Fixpoint handleTimeDerivatives (objectHandlerTimeDerivative : option Handler) (type : string)
    (currentRegimeID : Z) (derivatives : list string) (st : State) : State * option string :=
  match derivatives with
  | [] => (st, None)
  | variable :: rest =>
      match objectHandlerTimeDerivative with
      | Some h =>
          handleTimeDerivatives objectHandlerTimeDerivative type currentRegimeID rest
            (mkState (regimeIDs st) (calls st ++ [TimeDerivativeObject h variable currentRegimeID 0]))
      | None => (st, Some ("No handler for TimeDerivative in models of type '" ++ type))
      end
  end.

Section Walk.

Variable objectHandlerEvent : gmap string Handler.
Variable objectHandlerCondition : option Handler.
Variable objectHandlerImpulse : gmap string Handler.
Variable objectHandlerTimeDerivative : option Handler.

(** The body of the loop over the regimes. *)
Definition handleRegime (type : string) (multipleRegimes : bool) (regime : Regime)
    (st : State) : State * option string :=
  let (currentRegimeID, ids) := lookupOrInsert (regimeName regime) (regimeIDs st) in
  let st := mkState ids (calls st) in
  match handleConditions objectHandlerCondition type currentRegimeID (onConditions regime) st with
  | (st, Some message) => (st, Some message)
  | (st, None) =>
      match handleEvents objectHandlerEvent type currentRegimeID (onEvents regime) st with
      | (st, Some message) => (st, Some message)
      | (st, None) =>
          match handleImpulses objectHandlerImpulse type currentRegimeID (onImpulses regime) st with
          | (st, Some message) => (st, Some message)
          | (st, None) =>
              match handleTimeDerivatives objectHandlerTimeDerivative type currentRegimeID
                      (timeDerivatives regime) st with
              | (st, Some message) => (st, Some message)
              | (st, None) =>
                  (mkState (regimeIDs st)
                     (calls st ++ [RegimeEnd multipleRegimes currentRegimeID]), None)
              end
          end
      end
  end.

(** The loop over the regimes. *)
Fixpoint handleRegimes (type : string) (multipleRegimes : bool) (rs : list Regime)
    (st : State) : State * option string :=
  match rs with
  | [] => (st, None)
  | regime :: rest =>
      match handleRegime type multipleRegimes regime st with
      | (st, Some message) => (st, Some message)
      | (st, None) => handleRegimes type multipleRegimes rest st
      end
  end.

(** [SpineMLGenerator::generateModelCode]: the calls made, and either the
    message of the exception thrown or the pair returned (whether the model
    has several regimes, the ID of the initial regime). *)
Definition generateModelCode (componentClass : ComponentClass)
    : list Call * (string + bool * Z) :=
  let ids := buildRegimeIDs (regimes componentClass) in
  let multipleRegimes := bool_decide (1 < size ids)%nat in
  match handleRegimes (componentType componentClass) multipleRegimes (regimes componentClass)
          (mkState ids []) with
  | (st, Some message) => (calls st, inl message)
  | (st, None) =>
      match regimeIDs st !! initial_regime componentClass with
      | None => (calls st, inl "No initial regime set")
      | Some initialRegime => (calls st, inr (multipleRegimes, initialRegime))
      end
  end.

(** Every transition and time derivative of the regime has a handler. *)
Definition regimeHandled (regime : Regime) : Prop :=
  (onConditions regime <> [] -> is_Some objectHandlerCondition)
  /\ (forall event, In event (onEvents regime) -> is_Some (objectHandlerEvent !! fst event))
  /\ (forall impulse, In impulse (onImpulses regime) ->
        is_Some (objectHandlerImpulse !! fst impulse))
  /\ (timeDerivatives regime <> [] -> is_Some objectHandlerTimeDerivative).

End Walk.

(** The regimes that the transitions of a regime lead to. *)
Definition targetRegimes (regime : Regime) : list string :=
  (onConditions regime ++ List.map snd (onEvents regime)
   ++ List.map snd (onImpulses regime))%list.

(** The map after [regimeIDs[name]] has been evaluated for each of the
    names in turn. *)
Definition insertAll (names : list string) (ids : gmap string Z) : gmap string Z :=
  fold_left (fun ids name => snd (lookupOrInsert name ids)) names ids.

(** The names [generateModelCode] looks up while it walks a regime: the
    regime itself, then the targets of its transitions. *)
Definition namesLookedUp (regime : Regime) : list string :=
  regimeName regime :: targetRegimes regime.

(** The calls of [regimeEndFunc] among the calls made. *)
Definition regimeEnds (cs : list Call) : list (bool * Z) :=
  List.concat (List.map (fun c => match c with
                                  | RegimeEnd multipleRegimes id => [(multipleRegimes, id)]
                                  | _ => []
                                  end) cs).

End Handlers.

End ModelCode.

(** ** Sample component classes *)

(** A neuron body with two regimes, and the handlers of a neuron model:
    one for conditions, one for time derivatives, one for impulses arriving
    at port [I]; handlers are told apart by a name. *)
Definition sampleRegimes : list ModelCode.Regime :=
  [ ModelCode.mkRegime "integrating" ["refractory"] [] [("I", "integrating")] ["V"];
    ModelCode.mkRegime "refractory" ["integrating"] [] [] [] ].

Definition sampleComponentClass : ModelCode.ComponentClass :=
  ModelCode.mkComponentClass "neuron_body" sampleRegimes "integrating".

(** The same regimes with a transition to [resting], which is no regime,
    taken as the initial regime. *)
Definition sampleUndeclaredInitial : ModelCode.ComponentClass :=
  ModelCode.mkComponentClass "neuron_body"
    [ ModelCode.mkRegime "integrating" ["resting"] [] [] ["V"];
      ModelCode.mkRegime "refractory" ["integrating"] [] [] [] ]
    "resting".

Definition sampleImpulseHandlers : gmap string string := {[ "I" := "impulse" ]}.

(** ** modelCommon.cc (SpineML generator): the aliases of a model *)

Module Aliases.

Section Aliases.

(** [references code name] stands for [std::regex_search] of [code] with
    the regular expression built around [name] (the name with a character
    that cannot be part of a variable name, or an end of the string, on
    either side), [hash] for [std::hash<std::string>]. Both are functions of
    the C++ library; nothing is assumed about them. *)
Variable references : string -> string -> bool.
Variable hash : string -> Z.

Record Alias := mkAlias {
  code : string;
  dependencies : list string
}.

(** [m_Aliases], as the entries its iterators go through from [begin()] to
    [end()]; the names are the keys of the map. An iterator into the map
    ([AliasIter]) is given by the name of the entry it points at. *)
Definition t := list (string * Alias).

Definition names (m : t) : list string := List.map fst m.

(** [m_Aliases.find(name)] *)
Fixpoint findAlias (name : string) (m : t) : option Alias :=
  match m with
  | [] => None
  | alias :: rest =>
      if bool_decide (fst alias = name) then Some (snd alias) else findAlias name rest
  end.

Definition isAlias (name : string) (m : t) : bool :=
  match findAlias name m with
  | Some _ => true
  | None => false
  end.

(** [getAliasCode]: the code of the alias, or the message of the exception
    thrown. *)
Definition getAliasCode (name : string) (m : t) : string + string :=
  match findAlias name m with
  | None => inl ("Cannot find alias '" ++ name ++ "'")
  | Some alias => inr (code alias)
  end.

(** The inner loop of the constructor's second loop: every other alias
    that the code of [alias] references is added to its dependencies. *)
Definition dependenciesOf (m : t) (name : string) (alias : Alias) : list string :=
  fold_left (fun deps (otherAlias : string * Alias) =>
               if bool_decide (fst otherAlias <> name)
                  && references (code alias) (fst otherAlias)
               then (deps ++ [fst otherAlias])%list
               else deps)
            m (dependencies alias).

(** The second loop of the constructor. *)
Definition findDependencies (m : t) : t :=
  List.map (fun alias : string * Alias =>
              (fst alias, mkAlias (code (snd alias)) (dependenciesOf m (fst alias) (snd alias))))
           m.

(** The map when the first loop of the constructor has emplaced the aliases
    of the component class: [entries] are the names in the map with their
    code, in the order of the map. *)
Definition emplaced (entries : list (string * string)) : t :=
  List.map (fun entry => (fst entry, mkAlias (snd entry) [])) entries.

(** The constructor, from the entries its first loop leaves in the map. *)
Definition construct (entries : list (string * string)) : t :=
  findDependencies (emplaced entries).

(** The dependencies of an alias that are not excluded are pushed on the
    stack, one after the other; the head of the list is the top of the
    stack. *)
Definition pushDependencies (excludeAliases : gset string) (deps aliasStack : list string)
    : list string :=
  fold_left (fun stack d => if decide (d ∈ excludeAliases) then stack else d :: stack)
            deps aliasStack.

(** The [while] loop of [genAliases], run for at most [fuel] iterations:
    the set of hashes discovered and the list of required aliases when the
    stack is empty. [None] when the iterations do not suffice or an iterator
    points at no entry of the map. *)
Fixpoint search (fuel : nat) (m : t) (excludeAliases : gset string)
    (aliasStack : list string) (discoveredAliases : gset Z) (requiredAliases : list string)
    : option (gset Z * list string) :=
  match fuel with
  | O => None
  | S fuel =>
      match aliasStack with
      | [] => Some (discoveredAliases, requiredAliases)
      | v :: aliasStack =>
          if decide (hash v ∈ discoveredAliases)
          then search fuel m excludeAliases aliasStack discoveredAliases requiredAliases
          else
            match findAlias v m with
            | None => None
            | Some alias =>
                search fuel m excludeAliases
                  (pushDependencies excludeAliases (dependencies alias) aliasStack)
                  ({[ hash v ]} ∪ discoveredAliases)
                  (v :: requiredAliases)
            end
      end
  end.

(** The body of the loop over the aliases. *)
Definition visit (fuel : nat) (m : t) (excludeAliases : gset string)
    (codeStrings : list string) (state : option (list string * gset Z))
    (alias : string * Alias) : option (list string * gset Z) :=
  match state with
  | None => None
  | Some (allRequiredAliases, discoveredAliases) =>
      if bool_decide (fst alias ∉ excludeAliases)
         && existsb (fun code => references code (fst alias)) codeStrings
      then
        match search fuel m excludeAliases [fst alias] discoveredAliases [] with
        | None => None
        | Some (discoveredAliases, requiredAliases) =>
            Some ((allRequiredAliases ++ requiredAliases)%list, discoveredAliases)
        end
      else Some (allRequiredAliases, discoveredAliases)
  end.

(** The list [allRequiredAliases] when the loop over the aliases ends. *)
Definition allRequiredAliases (fuel : nat) (m : t) (excludeAliases : gset string)
    (codeStrings : list string) : option (list string) :=
  match fold_left (visit fuel m excludeAliases codeStrings) m (Some ([], ∅)) with
  | None => None
  | Some (allRequiredAliases, _) => Some allRequiredAliases
  end.

(** The line that declares an alias. *)
Definition declaration (m : t) (r : string) : option string :=
  match findAlias r m with
  | None => None
  | Some alias => Some ("const scalar " ++ r ++ " = " ++ code alias ++ ";" ++ endl)
  end.

Fixpoint declarations (m : t) (rs : list string) : option string :=
  match rs with
  | [] => Some EmptyString
  | r :: rs =>
      match declaration m r, declarations m rs with
      | Some line, Some lines => Some (line ++ lines)
      | _, _ => None
      end
  end.







End Aliases.

End Aliases.

(** ** Sample aliases *)

(** The aliases of a neuron body: the total current is the sum of two
    currents that are aliases themselves. A name counts as referenced when
    it occurs in the code; the names are told apart by their lengths. *)
Definition sampleAliasEntries : list (string * string) :=
  [ ("I_total", "I_syn + I_leak");
    ("I_syn", "g_syn * (E_syn - V)");
    ("I_leak", "g_leak * (E_leak - V)") ].

Definition sampleReferences (code name : string) : bool := contains code name.



(** * Properties *)

(** ** The connectivity flag test *)

Lemma connectivityFlag_high_bits (c : SynapseMatrixConnectivity) (n : Z) :
  4 <= n -> Z.testbit (connectivityFlag c) n = false.
Proof.
  intros Hn.
  assert (Hpos : 0 <= connectivityFlag c) by (destruct c; vm_compute; congruence).
  assert (Hlog : Z.log2 (connectivityFlag c) <= 3) by (destruct c; vm_compute; congruence).
  apply Z.bits_above_log2; lia.
Qed.

Lemma weight_flags_disjoint (w : Z) (c : SynapseMatrixConnectivity) :
  Z.land (Z.shiftl w 4) (connectivityFlag c) = 0.
Proof.
  apply Z.bits_inj'. intros n Hn.
  rewrite Z.land_spec, Z.bits_0.
  destruct (Z.lt_ge_cases n 4) as [Hlt | Hge].
  - rewrite Z.shiftl_spec_low by exact Hlt. reflexivity.
  - rewrite connectivityFlag_high_bits by exact Hge. apply andb_false_r.
Qed.

(** The flag test reads the representation tag: [type & c] holds exactly for
    the tag the matrix type carries. *)
Lemma hasConnectivity_tag (m : SynapseMatrixType) (c : SynapseMatrixConnectivity) :
  m &? c = bool_decide (matrixConnectivity m = c).
Proof.
  unfold hasConnectivity, matrixTypeFlags.
  rewrite Z.land_lor_distr_l, weight_flags_disjoint, Z.lor_0_r.
  destruct (matrixConnectivity m), c; reflexivity.
Qed.

Lemma SpanType_eqb_eq (a b : SpanType) : SpanType_eqb a b = true <-> a = b.
Proof. destruct a, b; cbn; split; congruence. Qed.

(** The compatibility predicates, by span and representation tag. *)
Lemma isCompatible_table (s : Strategy) (sg : SynapseGroupInternal) :
  isCompatible s sg =
  match s, getSpanType sg, connectivityOf sg with
  | StrategyPreSpan, PRESYNAPTIC, SPARSE => true
  | StrategyPostSpan, POSTSYNAPTIC, (DENSE | BITMASK | SPARSE) => true
  | StrategyPreSpanProcedural, _, PROCEDURAL => true
  | _, _, _ => false
  end.
Proof.
  unfold isCompatible, PreSpan.isCompatible, PostSpan.isCompatible,
    PreSpanProcedural.isCompatible, connectivityOf.
  rewrite !hasConnectivity_tag.
  destruct s, (getSpanType sg), (matrixConnectivity (getMatrixType sg)); reflexivity.
Qed.

(** ** Strategy selection *)

(** C1, as the code has it: no connection has more than one compatible
    strategy, and every connection has exactly one except those that ask for
    parallelism over the source with a dense or bitmask representation, which
    have none. *)
Theorem compatible_strategies_count (sg : SynapseGroupInternal) :
  List.length (compatibleStrategies sg) =
  if SpanType_eqb (getSpanType sg) PRESYNAPTIC && isDenseOrBitmask (connectivityOf sg)
  then 0%nat else 1%nat.
Proof.
  unfold compatibleStrategies, strategies. cbn [List.filter].
  rewrite !isCompatible_table.
  destruct (getSpanType sg), (connectivityOf sg); reflexivity.
Qed.

(** C1 fails as stated: a dense connection that asks for parallelism over
    the source is accepted by none of the three predicates. *)
Lemma presynaptic_dense_no_strategy :
  PreSpan.isCompatible samplePresynapticDense = false
  /\ PostSpan.isCompatible samplePresynapticDense = false
  /\ PreSpanProcedural.isCompatible samplePresynapticDense = false
  /\ compatibleStrategies samplePresynapticDense = [].
Proof. repeat split; reflexivity. Qed.

(** ** Accumulation policy *)

(** C2: with dendritic delay required no strategy accumulates in shared
    memory, whatever the target size, the block size and the device. *)
Theorem dendritic_delay_no_shared_memory (s : Strategy) (sg : SynapseGroupInternal)
    (backend : Backend) :
  isDendriticDelayRequired sg = true ->
  shouldAccumulateInSharedMemory s sg backend = false.
Proof.
  intros Hdelay.
  destruct s; cbn;
    unfold PreSpan.shouldAccumulateInSharedMemory, PostSpan.shouldAccumulateInSharedMemory,
      PreSpanProcedural.shouldAccumulateInSharedMemory;
    rewrite Hdelay.
  - destruct (getChosenCUDADevice_major backend <? 5); reflexivity.
  - reflexivity.
  - destruct (getChosenCUDADevice_major backend <? 5); reflexivity.
Qed.

Lemma dendritic_delay_no_shared_memory_witness :
  shouldAccumulateInSharedMemory StrategyPostSpan
    (sampleConnection POSTSYNAPTIC SPARSE 1 4 true) (sampleBackend 6) = false.
Proof. apply dendritic_delay_no_shared_memory. reflexivity. Defined.




(** The strategies that parallelise over the source never accumulate in a
    register. *)
Lemma source_parallel_no_register (s : Strategy) (sg : SynapseGroupInternal)
    (backend : Backend) :
  s <> StrategyPostSpan -> shouldAccumulateInRegister s sg backend = false.
Proof. destruct s; intros Hs; [reflexivity | contradiction | reflexivity]. Qed.

(** C5: a dense or bitmask connection parallelised over the target
    accumulates in a register, on every backend. *)
Theorem postspan_register_dense_bitmask (sg : SynapseGroupInternal) (backend : Backend) :
  connectivityOf sg = DENSE \/ connectivityOf sg = BITMASK ->
  getSpanType sg = POSTSYNAPTIC ->
  PostSpan.shouldAccumulateInRegister sg backend = true.
Proof.
  intros Hconn _.
  unfold PostSpan.shouldAccumulateInRegister. rewrite !hasConnectivity_tag.
  unfold connectivityOf in Hconn.
  destruct Hconn as [-> | ->]; reflexivity.
Qed.

Lemma postspan_register_dense_bitmask_witness :
  PostSpan.shouldAccumulateInRegister
    (sampleConnection POSTSYNAPTIC BITMASK 1 10 false) (sampleBackend 6) = true.
Proof.
  apply postspan_register_dense_bitmask.
  - right. reflexivity.
  - reflexivity.
Defined.

(** C10: the target-parallel strategy chooses shared memory only for a
    sparse connection; a dense or bitmask connection gets no shared memory,
    whatever the sizes and the device, and accumulates in a register. *)
Theorem postspan_shared_memory_only_sparse (sg : SynapseGroupInternal) (backend : Backend) :
  (PostSpan.shouldAccumulateInSharedMemory sg backend = true -> connectivityOf sg = SPARSE)
  /\ (connectivityOf sg = DENSE \/ connectivityOf sg = BITMASK ->
      PostSpan.shouldAccumulateInSharedMemory sg backend = false
      /\ PostSpan.shouldAccumulateInRegister sg backend = true).
Proof.
  unfold PostSpan.shouldAccumulateInSharedMemory, PostSpan.shouldAccumulateInRegister,
    connectivityOf.
  rewrite !hasConnectivity_tag.
  split.
  - destruct (isDendriticDelayRequired sg); [discriminate |].
    intros H. apply andb_true_iff in H. destruct H as [H _].
    apply bool_decide_eq_true in H. exact H.
  - intros [-> | ->]; destruct (isDendriticDelayRequired sg); split; reflexivity.
Qed.

Lemma postspan_shared_memory_only_sparse_witness :
  connectivityOf (sampleConnection POSTSYNAPTIC SPARSE 1 4 false) = SPARSE
  /\ PostSpan.shouldAccumulateInSharedMemory
       (sampleConnection POSTSYNAPTIC DENSE 1 4 false) (sampleBackend 6) = false
  /\ PostSpan.shouldAccumulateInRegister
       (sampleConnection POSTSYNAPTIC DENSE 1 4 false) (sampleBackend 6) = true.
Proof.
  split.
  - apply (postspan_shared_memory_only_sparse
             (sampleConnection POSTSYNAPTIC SPARSE 1 4 false) (sampleBackend 6)).
    reflexivity.
  - apply (postspan_shared_memory_only_sparse
             (sampleConnection POSTSYNAPTIC DENSE 1 4 false) (sampleBackend 6)).
    left. reflexivity.
Defined.

(** ** Delay slots *)

Lemma wrap32_small (z : Z) : 0 <= z <= UINT_MAX -> wrap32 z = z.
Proof. unfold wrap32, UINT_MAX. intros H. apply Z.mod_small. lia. Qed.

Lemma set_NumDelaySlots_twice (a b : Z) (ng : NeuronGroup.t) :
  NeuronGroup.set_NumDelaySlots a (NeuronGroup.set_NumDelaySlots b ng)
  = NeuronGroup.set_NumDelaySlots a ng.
Proof. reflexivity. Qed.

(** Below the largest [unsigned int] a request raises the count to the
    larger of the count and the request plus one. *)
Lemma checkNumDelaySlots_set_max (n : Z) (ng : NeuronGroup.t) :
  0 <= n < UINT_MAX ->
  NeuronGroup.checkNumDelaySlots n ng
  = NeuronGroup.set_NumDelaySlots (Z.max (NeuronGroup.getNumDelaySlots ng) (n + 1)) ng.
Proof.
  intros Hn. unfold NeuronGroup.checkNumDelaySlots.
  rewrite Z.geb_leb.
  destruct (Z.leb_spec (NeuronGroup.getNumDelaySlots ng) n) as [Hle | Hgt].
  - rewrite wrap32_small by lia. f_equal. lia.
  - rewrite Z.max_l by lia. destruct ng. reflexivity.
Qed.

Lemma checkNumDelaySlots_all_max (delays : list Z) :
  Forall (fun d => 0 <= d < UINT_MAX) delays ->
  forall ng : NeuronGroup.t,
    NeuronGroup.getNumDelaySlots (checkNumDelaySlots_all delays ng)
    = fold_left (fun acc d => Z.max acc (d + 1)) delays (NeuronGroup.getNumDelaySlots ng).
Proof.
  unfold checkNumDelaySlots_all.
  induction 1 as [| d delays Hd _ IH]; intros ng; cbn [fold_left].
  - reflexivity.
  - rewrite IH. rewrite checkNumDelaySlots_set_max by exact Hd. reflexivity.
Qed.

Lemma fold_max_permutation (l l' : list Z) :
  Permutation l l' ->
  forall c : Z,
    fold_left (fun acc d => Z.max acc (d + 1)) l c
    = fold_left (fun acc d => Z.max acc (d + 1)) l' c.
Proof.
  induction 1 as [| x l l' _ IH | x y l | l l' l'' _ IH1 _ IH2]; intros c; cbn [fold_left].
  - reflexivity.
  - apply IH.
  - f_equal. lia.
  - rewrite IH1. apply IH2.
Qed.

(** C6, as the code has it: for a request below the largest [unsigned int],
    the count becomes the maximum of the count and the request plus one, so
    it never decreases; a repeated request changes nothing; two requests
    commute; and from a count of at most 6 the requests 2, 5, 1 in any order
    leave the count at 6. *)
Theorem checkNumDelaySlots_max (ng : NeuronGroup.t) (n : Z) :
  0 <= n < UINT_MAX ->
  NeuronGroup.getNumDelaySlots (NeuronGroup.checkNumDelaySlots n ng)
    = Z.max (NeuronGroup.getNumDelaySlots ng) (n + 1)
  /\ NeuronGroup.getNumDelaySlots ng
     <= NeuronGroup.getNumDelaySlots (NeuronGroup.checkNumDelaySlots n ng)
  /\ NeuronGroup.checkNumDelaySlots n (NeuronGroup.checkNumDelaySlots n ng)
     = NeuronGroup.checkNumDelaySlots n ng
  /\ (forall m : Z, 0 <= m < UINT_MAX ->
      NeuronGroup.checkNumDelaySlots m (NeuronGroup.checkNumDelaySlots n ng)
      = NeuronGroup.checkNumDelaySlots n (NeuronGroup.checkNumDelaySlots m ng))
  /\ (NeuronGroup.getNumDelaySlots ng <= 6 ->
      forall delays : list Z, Permutation delays [2; 5; 1] ->
      NeuronGroup.getNumDelaySlots (checkNumDelaySlots_all delays ng) = 6).
Proof.
  intros Hn.
  assert (Hget : forall v g, NeuronGroup.getNumDelaySlots (NeuronGroup.set_NumDelaySlots v g) = v)
    by reflexivity.
  repeat split.
  - rewrite checkNumDelaySlots_set_max by exact Hn. apply Hget.
  - rewrite checkNumDelaySlots_set_max by exact Hn. rewrite Hget. lia.
  - rewrite !checkNumDelaySlots_set_max by exact Hn.
    rewrite Hget, set_NumDelaySlots_twice. f_equal. lia.
  - intros m Hm.
    rewrite !checkNumDelaySlots_set_max by assumption.
    rewrite !Hget, !set_NumDelaySlots_twice. f_equal. lia.
  - intros Hfresh delays Hperm.
    rewrite checkNumDelaySlots_all_max.
    + rewrite (fold_max_permutation _ _ Hperm). cbn [fold_left]. lia.
    + apply (Permutation_Forall (Permutation_sym Hperm)).
      unfold UINT_MAX. repeat constructor; lia.
Qed.

Lemma checkNumDelaySlots_max_witness :
  NeuronGroup.getNumDelaySlots (NeuronGroup.checkNumDelaySlots 5 (sampleNeuronGroup 1))
    = Z.max 1 6
  /\ NeuronGroup.getNumDelaySlots (checkNumDelaySlots_all [5; 1; 2] (sampleNeuronGroup 1)) = 6.
Proof.
  assert (Hn : 0 <= 5 < UINT_MAX) by (unfold UINT_MAX; lia).
  destruct (checkNumDelaySlots_max (sampleNeuronGroup 1) 5 Hn) as (Hmax & _ & _ & _ & Hany).
  split.
  - exact Hmax.
  - apply Hany.
    + cbn. lia.
    + apply perm_trans with [5; 2; 1].
      * apply perm_skip. apply perm_swap.
      * apply perm_swap.
Defined.

(** C6 fails as stated at the largest [unsigned int]: the request plus one
    wraps to zero, so a count of 1 drops to 0 instead of staying at or above
    it. *)
Lemma checkNumDelaySlots_wraps :
  NeuronGroup.getNumDelaySlots (NeuronGroup.checkNumDelaySlots UINT_MAX (sampleNeuronGroup 1)) = 0
  /\ NeuronGroup.getNumDelaySlots (NeuronGroup.checkNumDelaySlots UINT_MAX (sampleNeuronGroup 1))
     < NeuronGroup.getNumDelaySlots (sampleNeuronGroup 1)
  /\ NeuronGroup.getNumDelaySlots (NeuronGroup.checkNumDelaySlots UINT_MAX (sampleNeuronGroup 1))
     <> Z.max (NeuronGroup.getNumDelaySlots (sampleNeuronGroup 1)) (UINT_MAX + 1).
Proof. repeat split; vm_compute; congruence. Qed.

(** ** Randomness *)

Section RandomNumbers.

Variable isRNGRequired : string -> bool.

Lemma isSimRNGRequired_inSyn_true (inSyn : list NeuronGroup.SynapseGroup) :
  NeuronGroup.isSimRNGRequired_inSyn isRNGRequired inSyn = true <->
  exists sg, In sg inSyn
    /\ (isRNGRequired (NeuronGroup.getApplyInputCode (NeuronGroup.getPSModel sg)) = true
        \/ isRNGRequired (NeuronGroup.getDecayCode (NeuronGroup.getPSModel sg)) = true).
Proof.
  induction inSyn as [| sg rest IH]; cbn [NeuronGroup.isSimRNGRequired_inSyn].
  - split; [discriminate | intros (sg & [] & _)].
  - destruct (isRNGRequired (NeuronGroup.getApplyInputCode (NeuronGroup.getPSModel sg))
              || isRNGRequired (NeuronGroup.getDecayCode (NeuronGroup.getPSModel sg))) eqn:Hsg.
    + split; [intros _ | reflexivity].
      exists sg. split; [left; reflexivity | apply orb_true_iff; exact Hsg].
    + rewrite IH. apply orb_false_iff in Hsg. destruct Hsg as [Ha Hd].
      split.
      * intros (sg' & Hin & Hrng). exists sg'. split; [right; exact Hin | exact Hrng].
      * intros (sg' & [<- | Hin] & Hrng).
        -- destruct Hrng; congruence.
        -- exists sg'. split; assumption.
Qed.

(** C9: the population needs a random-number generator exactly when its
    sim, threshold or reset code references a random-number primitive, or
    the apply-input or decay code of the postsynaptic model of one of its
    incoming synapse groups does. *)
Theorem isSimRNGRequired_iff (ng : NeuronGroup.t) :
  NeuronGroup.isSimRNGRequired isRNGRequired ng = true <->
  (isRNGRequired (NeuronGroup.getSimCode (NeuronGroup.getNeuronModel ng)) = true
   \/ isRNGRequired (NeuronGroup.getThresholdConditionCode (NeuronGroup.getNeuronModel ng)) = true
   \/ isRNGRequired (NeuronGroup.getResetCode (NeuronGroup.getNeuronModel ng)) = true
   \/ exists sg, In sg (NeuronGroup.getInSyn ng)
        /\ (isRNGRequired (NeuronGroup.getApplyInputCode (NeuronGroup.getPSModel sg)) = true
            \/ isRNGRequired (NeuronGroup.getDecayCode (NeuronGroup.getPSModel sg)) = true)).
Proof.
  unfold NeuronGroup.isSimRNGRequired.
  rewrite <- isSimRNGRequired_inSyn_true.
  destruct (isRNGRequired (NeuronGroup.getSimCode (NeuronGroup.getNeuronModel ng))),
    (isRNGRequired (NeuronGroup.getThresholdConditionCode (NeuronGroup.getNeuronModel ng))),
    (isRNGRequired (NeuronGroup.getResetCode (NeuronGroup.getNeuronModel ng)));
    cbn [orb]; intuition congruence.
Qed.

End RandomNumbers.

(** ** Variable queues *)

(** [contains] is the substring test: a non-empty pattern is found exactly
    when it sits at some position of the code. *)
Lemma contains_substring (code pattern : string) :
  pattern <> EmptyString ->
  contains code pattern = true <->
  exists pos : nat, substring pos (String.length pattern) code = pattern.
Proof.
  intros Hne. unfold contains, find.
  destruct (String.index 0 pattern code) as [pos |] eqn:Hidx.
  - split; [intros _ | reflexivity].
    exists pos. apply (index_correct1 0). exact Hidx.
  - split; [discriminate |].
    intros (pos & Hpos). exfalso.
    apply (index_correct3 0 pos pattern code Hidx Hne); [apply Nat.le_0_l | exact Hpos].
Qed.

Lemma orb_false_fmap (o : option bool) : (fun b => b || false) <$> o = o.
Proof. destruct o as [b |]; cbn; [rewrite orb_false_r |]; reflexivity. Qed.

(** The flags after the loop has run over [vars] from index [i]: the flag at
    [j] is raised when the variable at [j] occurs with the suffix. *)
Lemma updateVarQueues_from_flags (code : string) (vars : list (string * string)) :
  forall (i : nat) (ng : NeuronGroup.t) (j : nat),
    NeuronGroup.m_VarQueueRequired (NeuronGroup.updateVarQueues_from code vars i ng) !! j
    = (fun b => b || match (if decide (i <= j)%nat then vars !! (j - i)%nat else None) with
                     | Some v => contains code (fst v ++ "_pre")
                     | None => false
                     end)
      <$> (NeuronGroup.m_VarQueueRequired ng !! j).
Proof.
  induction vars as [| v rest IH]; intros i ng j; cbn [NeuronGroup.updateVarQueues_from].
  - rewrite lookup_nil. destruct (decide (i <= j)%nat); symmetry; apply orb_false_fmap.
  - rewrite IH.
    destruct (decide (i = j)) as [<- | Hne].
    + rewrite decide_False by lia. rewrite decide_True by lia.
      rewrite Nat.sub_diag. cbn [lookup list_lookup].
      rewrite orb_false_fmap.
      destruct (contains code (fst v ++ "_pre")); [| symmetry; apply orb_false_fmap].
      cbn [NeuronGroup.set_VarQueueRequired NeuronGroup.m_VarQueueRequired].
      destruct (NeuronGroup.m_VarQueueRequired ng !! i) as [b |] eqn:Hb.
      * rewrite list_lookup_insert_eq by (eapply lookup_lt_Some; exact Hb).
        cbn. rewrite orb_true_r. reflexivity.
      * rewrite list_insert_ge by (apply lookup_ge_None; exact Hb).
        rewrite Hb. reflexivity.
    + assert (Hflags :
        NeuronGroup.m_VarQueueRequired
          (if contains code (fst v ++ "_pre") then NeuronGroup.set_VarQueueRequired i ng else ng)
          !! j = NeuronGroup.m_VarQueueRequired ng !! j).
      { destruct (contains code (fst v ++ "_pre")); [| reflexivity].
        cbn [NeuronGroup.set_VarQueueRequired NeuronGroup.m_VarQueueRequired].
        apply list_lookup_insert_ne. exact Hne. }
      rewrite Hflags.
      destruct (decide (i <= j)%nat) as [Hle | Hgt].
      * rewrite decide_True by lia.
        replace (j - i)%nat with (S (j - S i)) by lia. reflexivity.
      * rewrite decide_False by lia. reflexivity.
Qed.

(** C8, as the code has it: after the scan a declared variable is flagged
    exactly when it was flagged before or the fragment contains its name
    followed by [_pre]; nothing else in the fragment, a reference with
    [_post] included, has any effect on the flag. *)
Theorem updateVarQueues_flags (ng : NeuronGroup.t) (code : string) (i : nat)
    (name type : string) :
  List.length (NeuronGroup.m_VarQueueRequired ng)
    = List.length (NeuronGroup.getVars (NeuronGroup.getNeuronModel ng)) ->
  NeuronGroup.getVars (NeuronGroup.getNeuronModel ng) !! i = Some (name, type) ->
  exists b : bool,
    NeuronGroup.m_VarQueueRequired ng !! i = Some b
    /\ NeuronGroup.m_VarQueueRequired (NeuronGroup.updateVarQueues code ng) !! i
       = Some (b || contains code (name ++ "_pre")).
Proof.
  intros Hlen Hvar.
  destruct (lookup_lt_is_Some_2 (NeuronGroup.m_VarQueueRequired ng) i) as [b Hb].
  { rewrite Hlen. eapply lookup_lt_Some. exact Hvar. }
  exists b. split; [exact Hb |].
  unfold NeuronGroup.updateVarQueues.
  rewrite updateVarQueues_from_flags.
  rewrite decide_True by lia. rewrite Nat.sub_0_r, Hvar, Hb. reflexivity.
Qed.

Lemma updateVarQueues_flags_witness :
  exists b : bool,
    NeuronGroup.m_VarQueueRequired (sampleNeuronGroup 1) !! 0%nat = Some b
    /\ NeuronGroup.m_VarQueueRequired
         (NeuronGroup.updateVarQueues "$(addToInSyn, $(g) * $(V_pre));" (sampleNeuronGroup 1))
         !! 0%nat
       = Some (b || contains "$(addToInSyn, $(g) * $(V_pre));" ("V" ++ "_pre")).
Proof.
  apply (updateVarQueues_flags (sampleNeuronGroup 1) _ 0 "V" "scalar"); reflexivity.
Defined.

(** C8 fails as stated for the [_post] form: a fragment that refers to
    [V_post] contains the suffixed name, and the scan leaves [V] unflagged. *)
Lemma updateVarQueues_post_not_scanned :
  contains samplePostCode ("V" ++ "_post") = true
  /\ NeuronGroup.m_VarQueueRequired
       (NeuronGroup.updateVarQueues samplePostCode (sampleNeuronGroup 1)) = [false]
  /\ NeuronGroup.m_AnyVarQueuesRequired
       (NeuronGroup.updateVarQueues samplePostCode (sampleNeuronGroup 1)) = false.
Proof. repeat split; reflexivity. Qed.

(** ** Dendritic delay *)

Lemma addVarSubstitution_fresh (source destination : string) (s : Substitutions) :
  m_FuncSubstitutions s !! source = None ->
  addVarSubstitution source destination s
  = Some (mkSubstitutions (<[source := destination]> (m_VarSubstitutions s))
                          (m_FuncSubstitutions s) (m_Parent s)).
Proof. intros H. unfold addVarSubstitution. rewrite H. reflexivity. Qed.

Lemma addFuncSubstitution_fresh (source : string) (numArguments : nat)
    (funcTemplate : string) (s : Substitutions) :
  m_VarSubstitutions s !! source = None ->
  addFuncSubstitution source numArguments funcTemplate s
  = Some (mkSubstitutions (m_VarSubstitutions s)
                          (<[source := (numArguments, funcTemplate)]> (m_FuncSubstitutions s))
                          (m_Parent s)).
Proof. intros H. unfold addFuncSubstitution. rewrite H. reflexivity. Qed.

Lemma getVarSubstitution_bound (s : Substitutions) (source destination : string) :
  m_VarSubstitutions s !! source = Some destination ->
  getVarSubstitution s source = Some destination.
Proof. destruct s. cbn. intros ->. reflexivity. Qed.

(** Rewrites the bindings made in a fresh child context. *)
Ltac bind_fresh :=
  repeat first
    [ rewrite addVarSubstitution_fresh
        by (cbn; repeat (rewrite lookup_insert_ne by discriminate); apply lookup_empty)
    | rewrite addFuncSubstitution_fresh
        by (cbn; repeat (rewrite lookup_insert_ne by discriminate); apply lookup_empty)
    | progress cbn [mbind option_bind child m_VarSubstitutions m_FuncSubstitutions m_Parent] ].

(** When dendritic delay is required, the substitution stack a strategy
    builds for the simulation code binds exactly one function,
    [addToInSynDelay] with two arguments, and its template is the backend's
    atomic add on the dendritic-delay buffer of the target. *)
Lemma synSubs_dendritic_delay (isRNGRequired : string -> bool) (s : Strategy)
    (model : ModelSpecInternal) (sg : SynapseGroupInternal) (popSubs : Substitutions)
    (backend : Backend) (trueSpike : bool) (id : string) :
  isDendriticDelayRequired sg = true ->
  getVarSubstitution popSubs "id" = Some id ->
  exists subs : Substitutions,
    synSubs isRNGRequired s model sg popSubs backend trueSpike = Some subs
    /\ m_FuncSubstitutions subs
       = {[ "addToInSynDelay" :=
              (2%nat, dendriticDelayAtomicAdd model sg backend (postIndexText s sg id)) ]}.
Proof.
  intros Hdelay Hid.
  destruct s; cbn [synSubs postIndexText].
  - unfold PreSpan.synSubs. rewrite Hdelay. bind_fresh.
    eexists. split; [reflexivity |]. cbn. apply insert_empty.
  - unfold PostSpan.synSubs. rewrite Hdelay, Hid.
    destruct (getMatrixType sg &? SPARSE); bind_fresh.
    + rewrite (getVarSubstitution_bound _ "id_post" "ipost")
        by (cbn; rewrite lookup_insert_ne by discriminate; apply lookup_insert_eq).
      bind_fresh.
      eexists. split; [reflexivity |]. cbn. apply insert_empty.
    + rewrite (getVarSubstitution_bound _ "id_post" id)
        by (cbn; rewrite lookup_insert_ne by discriminate; apply lookup_insert_eq).
      bind_fresh.
      eexists. split; [reflexivity |]. cbn. apply insert_empty.
  - unfold PreSpanProcedural.synSubs, PreSpanProcedural.procPopSubs. rewrite Hdelay.
    destruct (isRNGRequired (getRowBuildCode sg)); bind_fresh.
    + eexists. split; [reflexivity |]. cbn. apply insert_empty.
    + eexists. split; [reflexivity |]. cbn. apply insert_empty.
Qed.

(** The template on the sample connection, as text. *)
Example dendriticDelayAtomicAdd_text :
  dendriticDelayAtomicAdd sampleModel (sampleConnection POSTSYNAPTIC SPARSE 1 4 true)
    (sampleBackend 6) "ipost"
  = "atomicAdd(&dd_denDelayPost_Syn[(((dd_denDelayPtrPost_Syn + $(1)) % 8) * 4) + ipost], $(0))".
Proof. reflexivity. Qed.






(** ** Rows split over several threads *)

(** The split named in the specification: 10 targets over 3 threads per
    spike give sub-rows of 4, 4 and 2 targets, the last thread taking the
    remainder. *)
Lemma subRows_10_over_3 :
  PreSpanProcedural.numPostPerThread sampleProcedural_10_over_3 = 4
  /\ render (PreSpanProcedural.idPostStart sampleProcedural_10_over_3) = "thread * 4"
  /\ render (PreSpanProcedural.numPost sampleProcedural_10_over_3) = "(thread == 2) ? 2 : 4"
  /\ subRows sampleProcedural_10_over_3 = [(0, 4); (4, 4); (8, 2)].
Proof. repeat split; reflexivity. Qed.

Lemma ceilDivide_bounds (n t : Z) :
  0 < t -> t * ceilDivide n t - t < n <= t * ceilDivide n t.
Proof.
  intros Ht. unfold ceilDivide.
  pose proof (Z.div_mod (n + t - 1) t) as Hdm.
  pose proof (Z.mod_pos_bound (n + t - 1) t Ht) as Hmod.
  lia.
Qed.


(** Where the last thread starts inside the row, the sub-rows tile the
    targets: every thread but the last takes [numPostPerThread] targets from
    [thread * numPostPerThread] on, and the last takes what is left. *)
Lemma subRow_tiles (sg : SynapseGroupInternal) (thread : Z) :
  let numTrgNeurons := ng_getNumNeurons (getTrgNeuronGroup sg) in
  let threads := getNumThreadsPerSpike sg in
  let perThread := ceilDivide numTrgNeurons threads in
  1 < threads ->
  numTrgNeurons <= UINT_MAX ->
  (threads - 1) * perThread < numTrgNeurons ->
  0 <= thread < threads ->
  subRow sg thread
  = (thread * perThread,
     if thread =? threads - 1 then numTrgNeurons - (threads - 1) * perThread else perThread).
Proof.
  intros numTrgNeurons threads perThread Hthreads Hmax Hlast Hthread.
  pose proof (ceilDivide_bounds numTrgNeurons threads ltac:(lia)) as Hceil.
  fold perThread in Hceil.
  assert (Hper : 0 < perThread) by nia.
  assert (Hsmall : PreSpanProcedural.numPostPerThread sg = perThread).
  { unfold PreSpanProcedural.numPostPerThread.
    fold numTrgNeurons threads perThread. apply wrap32_small. nia. }
  unfold subRow, PreSpanProcedural.idPostStart, PreSpanProcedural.numPost.
  rewrite Hsmall. fold numTrgNeurons threads.
  cbn [eval]. rewrite wrap32_small by nia.
  f_equal.
  pose proof (Z.div_mod numTrgNeurons perThread ltac:(lia)) as Hdm.
  pose proof (Z.mod_pos_bound numTrgNeurons perThread Hper) as Hmod.
  assert (Hquot : numTrgNeurons mod perThread = 0 /\ numTrgNeurons / perThread = threads
                  \/ 0 < numTrgNeurons mod perThread /\ numTrgNeurons / perThread = threads - 1)
    by nia.
  destruct (Z.eqb_spec (numTrgNeurons mod perThread) 0) as [Hzero | Hrest]; cbn [eval].
  - destruct (Z.eqb_spec thread (threads - 1)); nia.
  - destruct (Z.eqb_spec thread (threads - 1)); nia.
Qed.

(** C7, where the code departs from it: with 5 targets and 4 threads per
    spike the sub-rows are 2, 2, 2 and 1 targets long from 0, 2, 4 and 6 on.
    The third thread's sub-row ends at index 6 and the last one's starts
    there, beyond the 5 targets of the population; together they are 7
    targets long. *)
Theorem subRows_5_over_4_overrun :
  ng_getNumNeurons (getTrgNeuronGroup sampleProcedural_5_over_4) = 5
  /\ PreSpanProcedural.numPostPerThread sampleProcedural_5_over_4 = ceilDivide 5 4
  /\ render (PreSpanProcedural.idPostStart sampleProcedural_5_over_4) = "thread * 2"
  /\ render (PreSpanProcedural.numPost sampleProcedural_5_over_4) = "(thread == 3) ? 1 : 2"
  /\ subRows sampleProcedural_5_over_4 = [(0, 2); (2, 2); (4, 2); (6, 1)]
  /\ sumZ (List.map snd (subRows sampleProcedural_5_over_4)) = 7
  /\ ng_getNumNeurons (getTrgNeuronGroup sampleProcedural_5_over_4)
     < fst (subRow sampleProcedural_5_over_4 2) + snd (subRow sampleProcedural_5_over_4 2)
  /\ ng_getNumNeurons (getTrgNeuronGroup sampleProcedural_5_over_4)
     < fst (subRow sampleProcedural_5_over_4 3).
Proof. repeat split; reflexivity. Qed.

(** * Further properties of the code *)

(** ** snippet.h: lookup by name *)

Lemma getNamedVecIndex_None {T : Type} (name_of : T -> string) (name : string) (vec : list T) :
  Snippet.getNamedVecIndex name_of name vec = None <->
  forall v, In v vec -> name_of v <> name.
Proof.
  induction vec as [| v rest IH]; cbn [Snippet.getNamedVecIndex].
  - split; [intros _ v [] | reflexivity].
  - destruct (String.eqb_spec (name_of v) name) as [Heq | Hne].
    + split; [discriminate |]. intros H. exfalso.
      apply (H v); [left; reflexivity | exact Heq].
    + destruct (Snippet.getNamedVecIndex name_of name rest) as [k |]; cbn.
      * split; [discriminate |]. intros H.
        assert (Hnone : Some k = None); [| discriminate].
        apply IH. intros w Hw. apply H. right. exact Hw.
      * split; [| reflexivity]. intros _ w [<- | Hw]; [exact Hne |].
        apply IH; [reflexivity | exact Hw].
Qed.

Lemma getNamedVecIndex_Some {T : Type} (name_of : T -> string) (name : string) (vec : list T)
    (i : nat) :
  Snippet.getNamedVecIndex name_of name vec = Some i ->
  exists v, vec !! i = Some v /\ name_of v = name.
Proof.
  revert i. induction vec as [| v rest IH]; intros i; cbn [Snippet.getNamedVecIndex];
    [discriminate |].
  destruct (String.eqb_spec (name_of v) name) as [Heq | Hne].
  - intros [= <-]. exists v. split; [reflexivity | exact Heq].
  - destruct (Snippet.getNamedVecIndex name_of name rest) as [k |]; cbn; [| discriminate].
    intros [= <-]. exact (IH k eq_refl).
Qed.

(** X1: [getNamedVecIndex] fails exactly when no element has the name, and
    otherwise returns the position of the first element that has it. *)
Theorem getNamedVecIndex_first {T : Type} (name_of : T -> string) (name : string)
    (vec : list T) :
  (Snippet.getNamedVecIndex name_of name vec = None <->
   forall v, In v vec -> name_of v <> name)
  /\ (forall i : nat,
        Snippet.getNamedVecIndex name_of name vec = Some i <->
        (exists v, vec !! i = Some v /\ name_of v = name)
        /\ (forall (j : nat) (w : T), (j < i)%nat -> vec !! j = Some w -> name_of w <> name)).
Proof.
  induction vec as [| v rest [IHnone IHsome]]; cbn [Snippet.getNamedVecIndex].
  - split; [split; [intros _ v [] | reflexivity] |].
    intros i. split; [discriminate |]. intros [(v & Hv & _) _]. discriminate.
  - destruct (String.eqb_spec (name_of v) name) as [Heq | Hne].
    + split.
      * split; [discriminate |]. intros H. exfalso. apply (H v); [left; reflexivity | exact Heq].
      * intros i. split.
        -- intros [= <-]. split; [exists v; split; [reflexivity | exact Heq] |].
           intros j w Hj. lia.
        -- intros [_ Hfirst]. destruct i as [| i]; [reflexivity |].
           exfalso. apply (Hfirst 0%nat v); [lia | reflexivity | exact Heq].
    + split.
      * destruct (Snippet.getNamedVecIndex name_of name rest) as [k |] eqn:Hrest; cbn.
        -- split; [discriminate |]. intros H.
           assert (Hnone : Some k = None); [| discriminate].
           apply IHnone. intros w Hw. apply H. right. exact Hw.
        -- split; [| reflexivity]. intros _ w [<- | Hw]; [exact Hne |].
           apply IHnone; [reflexivity | exact Hw].
      * intros i. destruct i as [| i].
        -- split.
           ++ destruct (Snippet.getNamedVecIndex name_of name rest); discriminate.
           ++ intros [(w & [= <-] & Hw) _]. contradiction.
        -- specialize (IHsome i).
           destruct (Snippet.getNamedVecIndex name_of name rest) as [k |] eqn:Hrest; cbn.
           ++ split.
              ** intros [= <-]. destruct IHsome as [IH _]. destruct (IH eq_refl) as [Hfound Hfirst].
                 split; [exact Hfound |].
                 intros [| j] w Hj; cbn; [intros [= <-]; exact Hne |].
                 apply Hfirst. lia.
              ** intros [Hfound Hfirst]. f_equal. symmetry.
                 assert (Hi : Some k = Some i); [| congruence].
                 apply IHsome. split; [exact Hfound |].
                 intros j w Hj Hw. apply (Hfirst (S j) w); [lia | exact Hw].
           ++ split; [discriminate |].
              intros [Hfound Hfirst]. destruct IHsome as [_ IH].
              assert (Hi : @None nat = Some i); [| discriminate].
              apply IH. split; [exact Hfound |].
              intros j w Hj Hw. apply (Hfirst (S j) w); [lia | exact Hw].
Qed.

(** ** neuronGroup.cc: storage modes *)

Section MemberProperties.

Context {VarMode double : Type}.
Variable isZeroCopy : VarMode -> bool.
Variable isRNGRequired : string -> bool.

Lemma getVarIndex_declared (ng : @NeuronGroupMembers.t VarMode double) (varName : string) (i : nat) :
  NeuronGroupMembers.getVarIndex ng varName = Some i ->
  exists type : string,
    NeuronGroup.getVars (NeuronGroup.getNeuronModel (NeuronGroupMembers.base ng)) !! i
    = Some (varName, type).
Proof.
  unfold NeuronGroupMembers.getVarIndex. intros Hidx.
  apply getNamedVecIndex_Some in Hidx. destruct Hidx as ([name type] & Hv & Hname).
  cbn in Hname. subst name. exists type. exact Hv.
Qed.

Lemma getVarIndex_distinct (ng : @NeuronGroupMembers.t VarMode double) (a b : string) (i j : nat) :
  a <> b ->
  NeuronGroupMembers.getVarIndex ng a = Some i ->
  NeuronGroupMembers.getVarIndex ng b = Some j ->
  i <> j.
Proof.
  intros Hab Ha Hb ->.
  destruct (getVarIndex_declared _ _ _ Ha) as [ta Hta].
  destruct (getVarIndex_declared _ _ _ Hb) as [tb Htb].
  congruence.
Qed.

Lemma setVarMode_sets (ng ng' : @NeuronGroupMembers.t VarMode double) (varName : string)
    (mode : VarMode) :
  List.length (NeuronGroupMembers.m_VarMode ng)
    = List.length (NeuronGroup.getVars (NeuronGroup.getNeuronModel (NeuronGroupMembers.base ng))) ->
  NeuronGroupMembers.setVarMode varName mode ng = Some ng' ->
  NeuronGroupMembers.getVarMode varName ng' = Some mode
  /\ (forall other : string, other <> varName ->
        NeuronGroupMembers.getVarMode other ng' = NeuronGroupMembers.getVarMode other ng).
Proof.
  intros Hlen. unfold NeuronGroupMembers.setVarMode, NeuronGroupMembers.getVarMode.
  destruct (NeuronGroupMembers.getVarIndex ng varName) as [i |] eqn:Hidx;
    cbn; [| discriminate].
  intros [= <-].
  assert (Hsame : forall name, NeuronGroupMembers.getVarIndex
            (NeuronGroupMembers.set_VarMode (<[i:=mode]> (NeuronGroupMembers.m_VarMode ng)) ng)
            name = NeuronGroupMembers.getVarIndex ng name) by reflexivity.
  split.
  - rewrite Hsame, Hidx. cbn.
    apply list_lookup_insert_eq. rewrite Hlen.
    destruct (getVarIndex_declared _ _ _ Hidx) as [type Hv].
    eapply lookup_lt_Some. exact Hv.
  - intros other Hother. rewrite Hsame.
    destruct (NeuronGroupMembers.getVarIndex ng other) as [j |] eqn:Hj; cbn; [| reflexivity].
    apply list_lookup_insert_ne.
    apply (getVarIndex_distinct ng varName other); [congruence | exact Hidx | exact Hj].
Qed.

(** X2: with one mode per declared variable, [setVarMode] fails exactly for
    a name that is not declared; when it succeeds, [getVarMode] of that name
    returns the mode just set and [getVarMode] of every other name is what
    it was. *)
Theorem setVarMode_getVarMode (ng : @NeuronGroupMembers.t VarMode double) (varName : string) (mode : VarMode) :
  List.length (NeuronGroupMembers.m_VarMode ng)
    = List.length (NeuronGroup.getVars (NeuronGroup.getNeuronModel (NeuronGroupMembers.base ng))) ->
  (NeuronGroupMembers.setVarMode varName mode ng = None <->
   forall v, In v (NeuronGroup.getVars (NeuronGroup.getNeuronModel (NeuronGroupMembers.base ng))) ->
             fst v <> varName)
  /\ (forall ng' : @NeuronGroupMembers.t VarMode double,
        NeuronGroupMembers.setVarMode varName mode ng = Some ng' ->
        NeuronGroupMembers.getVarMode varName ng' = Some mode
        /\ (forall other : string, other <> varName ->
              NeuronGroupMembers.getVarMode other ng' = NeuronGroupMembers.getVarMode other ng)).
Proof.
  intros Hlen. split.
  - unfold NeuronGroupMembers.setVarMode.
    rewrite <- (getNamedVecIndex_None fst varName _).
    unfold NeuronGroupMembers.getVarIndex.
    destruct (Snippet.getNamedVecIndex fst varName _); cbn; split; congruence.
  - intros ng' Hset. exact (setVarMode_sets ng ng' varName mode Hlen Hset).
Qed.

(** X3: once a declared variable is given a zero-copy mode, the population
    reports that zero-copy memory is in use. *)
Theorem setVarMode_zero_copy (ng ng' : @NeuronGroupMembers.t VarMode double) (varName : string) (mode : VarMode) :
  List.length (NeuronGroupMembers.m_VarMode ng)
    = List.length (NeuronGroup.getVars (NeuronGroup.getNeuronModel (NeuronGroupMembers.base ng))) ->
  isZeroCopy mode = true ->
  NeuronGroupMembers.setVarMode varName mode ng = Some ng' ->
  NeuronGroupMembers.isZeroCopyEnabled isZeroCopy ng' = true.
Proof.
  intros Hlen Hmode Hset.
  destruct (setVarMode_sets ng ng' varName mode Hlen Hset) as [Hmode' _].
  unfold NeuronGroupMembers.getVarMode in Hmode'.
  destruct (NeuronGroupMembers.getVarIndex ng' varName) as [i |]; cbn in Hmode'; [| discriminate].
  unfold NeuronGroupMembers.isZeroCopyEnabled.
  destruct (_ || _ || _); [reflexivity |].
  assert (Hex : existsb isZeroCopy (NeuronGroupMembers.m_VarMode ng') = true).
  { apply existsb_exists. exists mode. split; [| exact Hmode].
    apply list_elem_of_In. eapply list_elem_of_lookup_2. exact Hmode'. }
  rewrite Hex. reflexivity.
Qed.

(** ** neuronGroup.cc: spike-event conditions *)

Lemma anyConditionContains_exists (pnamefull : string) (conditions : list (string * string)) :
  NeuronGroupMembers.anyConditionContains pnamefull conditions = true <->
  exists c, c ∈ conditions /\ contains (fst c) pnamefull = true.
Proof.
  induction conditions as [| c rest IH]; cbn [NeuronGroupMembers.anyConditionContains].
  - split; [discriminate |]. intros (c & Hc & _). apply not_elem_of_nil in Hc. contradiction.
  - destruct (contains (fst c) pnamefull) eqn:Hc.
    + split; [intros _ | reflexivity]. exists c. split; [left | exact Hc].
    + rewrite IH. split.
      * intros (c' & Hin & Hc'). exists c'. split; [right; exact Hin | exact Hc'].
      * intros (c' & Hin & Hc'). apply elem_of_cons in Hin. destruct Hin as [-> | Hin].
        -- congruence.
        -- exists c'. split; assumption.
Qed.

(** X4: a parameter is required by the spike-event conditions exactly when
    the code of one of the registered conditions contains its name; adding a
    condition adds its code to the ones searched and loses none. *)
Theorem addSpkEventCondition_required (ng : @NeuronGroupMembers.t VarMode double) (code supportCodeNamespace pnamefull : string) :
  (NeuronGroupMembers.isParamRequiredBySpikeEventCondition pnamefull ng = true <->
   exists c, c ∈ NeuronGroupMembers.m_SpikeEventCondition ng /\ contains (fst c) pnamefull = true)
  /\ NeuronGroupMembers.isParamRequiredBySpikeEventCondition pnamefull
       (NeuronGroupMembers.addSpkEventCondition code supportCodeNamespace ng)
     = contains code pnamefull
       || NeuronGroupMembers.isParamRequiredBySpikeEventCondition pnamefull ng.
Proof.
  assert (Hiff : forall g : @NeuronGroupMembers.t VarMode double,
    NeuronGroupMembers.isParamRequiredBySpikeEventCondition pnamefull g = true <->
    exists c, c ∈ NeuronGroupMembers.m_SpikeEventCondition g /\ contains (fst c) pnamefull = true).
  { intros g. unfold NeuronGroupMembers.isParamRequiredBySpikeEventCondition.
    rewrite anyConditionContains_exists.
    split; intros (c & Hc & Hp); exists c; (split; [| exact Hp]); apply elem_of_elements; exact Hc. }
  split; [apply Hiff |].
  apply eq_true_iff_eq. rewrite orb_true_iff, !Hiff.
  cbn [NeuronGroupMembers.addSpkEventCondition NeuronGroupMembers.set_SpikeEventCondition
       NeuronGroupMembers.m_SpikeEventCondition].
  split.
  - intros (c & Hc & Hp). apply elem_of_union in Hc. destruct Hc as [Hc | Hc].
    + apply elem_of_singleton in Hc. subst c. left. exact Hp.
    + right. exists c. split; assumption.
  - intros [Hp | (c & Hc & Hp)].
    + exists (code, supportCodeNamespace). split; [| exact Hp].
      apply elem_of_union. left. apply elem_of_singleton. reflexivity.
    + exists c. split; [| exact Hp]. apply elem_of_union. right. exact Hc.
Qed.

End MemberProperties.

(** ** neuronGroup.cc: extra global parameters *)

Section ExtraGlobalParams.

Context {VarMode double : Type}.

Lemma addExtraGlobalParams_fold (ng : @NeuronGroupMembers.t VarMode double) (key : string)
    (params : list (string * string)) :
  forall kernelParameters : gmap string string,
    fold_left (NeuronGroupMembers.addExtraGlobalParam ng) params kernelParameters !! key
    = match kernelParameters !! key with
      | Some type => Some type
      | None =>
          snd <$> List.find
            (fun p => bool_decide (fst p ++ NeuronGroupMembers.getName ng = key)
                      && NeuronGroupMembers.isExtraGlobalParamUsed ng (fst p)) params
      end.
Proof.
  induction params as [| p rest IH]; intros kernelParameters; cbn [fold_left List.find].
  - destruct (kernelParameters !! key); reflexivity.
  - rewrite IH. unfold NeuronGroupMembers.addExtraGlobalParam.
    destruct (decide (fst p ++ NeuronGroupMembers.getName ng = key)) as [Hkey | Hkey].
    + rewrite (bool_decide_eq_true_2 _ Hkey). rewrite Hkey. cbn [andb].
      destruct (kernelParameters !! key) as [type |] eqn:Hold.
      * rewrite Hold. reflexivity.
      * destruct (NeuronGroupMembers.isExtraGlobalParamUsed ng (fst p)).
        -- rewrite lookup_insert_eq. reflexivity.
        -- rewrite Hold. reflexivity.
    + rewrite (bool_decide_eq_false_2 _ Hkey). cbn [andb].
      destruct (kernelParameters !! (fst p ++ NeuronGroupMembers.getName ng)); [reflexivity |].
      destruct (NeuronGroupMembers.isExtraGlobalParamUsed ng (fst p)); [| reflexivity].
      rewrite lookup_insert_ne by exact Hkey. reflexivity.
Qed.

(** X5: after [addExtraGlobalParams] a kernel parameter that was registered
    keeps its type; one that was not is registered exactly when the
    population has an extra global parameter of that full name whose
    placeholder occurs in the sim, threshold or reset code, with the type of
    the first such parameter. *)
Theorem addExtraGlobalParams_lookup (ng : @NeuronGroupMembers.t VarMode double)
    (kernelParameters : gmap string string) (key : string) :
  NeuronGroupMembers.addExtraGlobalParams ng kernelParameters !! key
  = match kernelParameters !! key with
    | Some type => Some type
    | None => snd <$> NeuronGroupMembers.firstUsedParam ng key
    end.
Proof. apply addExtraGlobalParams_fold. Qed.

(** X6: registering the extra global parameters of a population a second
    time changes nothing. *)
Theorem addExtraGlobalParams_idempotent (ng : @NeuronGroupMembers.t VarMode double)
    (kernelParameters : gmap string string) :
  NeuronGroupMembers.addExtraGlobalParams ng
    (NeuronGroupMembers.addExtraGlobalParams ng kernelParameters)
  = NeuronGroupMembers.addExtraGlobalParams ng kernelParameters.
Proof.
  apply map_eq. intros key. unfold NeuronGroupMembers.addExtraGlobalParams.
  rewrite !addExtraGlobalParams_fold.
  destruct (kernelParameters !! key); [reflexivity |].
  destruct (List.find _ _); reflexivity.
Qed.

End ExtraGlobalParams.

(** ** neuronGroup.cc: variable initialisers and derived parameters *)

Section Initialisers.

Context {VarMode double : Type}.
Variable isRNGRequired : string -> bool.

(** X7: when empty code needs no random numbers, a population whose
    variable initialisers need a random-number generator also has
    initialisation code to run. *)
Theorem isInitRNGRequired_isInitCodeRequired (ng : @NeuronGroupMembers.t VarMode double) :
  isRNGRequired EmptyString = false ->
  NeuronGroupMembers.isInitRNGRequired isRNGRequired ng = true ->
  NeuronGroupMembers.isInitCodeRequired ng = true.
Proof.
  intros Hempty Hrng.
  unfold NeuronGroupMembers.isInitRNGRequired in Hrng.
  apply existsb_exists in Hrng. destruct Hrng as (v & Hin & Hv).
  unfold NeuronGroupMembers.isInitCodeRequired.
  apply existsb_exists. exists v. split; [exact Hin |].
  destruct (String.eqb_spec (NeuronGroupMembers.getCode v) EmptyString) as [Heq | Hne];
    [| reflexivity].
  rewrite Heq in Hv. congruence.
Qed.

Lemma push_back_all {A B : Type} (f : A -> B) (l : list A) :
  forall values : list B,
    fold_left (fun values d => (values ++ [f d])%list) l values = (values ++ List.map f l)%list.
Proof.
  induction l as [| d rest IH]; intros values; cbn [fold_left List.map].
  - rewrite app_nil_r. reflexivity.
  - rewrite IH, <- app_assoc. reflexivity.
Qed.

(** X8: [initDerivedParams] appends to the cache. Starting from an empty
    cache, a call with [dt1] followed by a call with [dt2] leaves twice as
    many values as there are derived parameters, and the value at the
    position of each derived parameter is still the one computed from
    [dt1]: a second initialisation does not replace the first. *)
Theorem initDerivedParams_twice (ng : @NeuronGroupMembers.t VarMode double) (dt1 dt2 : double)
    (i : nat) (d : string * (list double -> double -> double)) :
  NeuronGroupMembers.m_DerivedParams ng = [] ->
  NeuronGroupMembers.getDerivedParams ng !! i = Some d ->
  let ng2 := NeuronGroupMembers.initDerivedParams dt2 (NeuronGroupMembers.initDerivedParams dt1 ng) in
  NeuronGroupMembers.m_DerivedParams ng2 !! i = Some (snd d (NeuronGroupMembers.m_Params ng) dt1)
  /\ List.length (NeuronGroupMembers.m_DerivedParams ng2)
     = (2 * List.length (NeuronGroupMembers.getDerivedParams ng))%nat.
Proof.
  intros Hempty Hd ng2. subst ng2.
  unfold NeuronGroupMembers.initDerivedParams.
  cbn [NeuronGroupMembers.set_DerivedParams NeuronGroupMembers.m_DerivedParams
       NeuronGroupMembers.getDerivedParams NeuronGroupMembers.m_Params].
  rewrite !(push_back_all (fun d => snd d (NeuronGroupMembers.m_Params ng) _)).
  rewrite Hempty. cbn [app]. split.
  - rewrite lookup_app_l.
    + rewrite list_lookup_fmap, Hd. reflexivity.
    + rewrite length_map. eapply lookup_lt_Some. exact Hd.
  - rewrite length_app, !length_map. lia.
Qed.

End Initialisers.

(** ** neuronGroup.cc: variable queues *)

Lemma updateVarQueues_from_any (code : string) (vars : list (string * string)) :
  forall (i : nat) (ng : NeuronGroup.t),
    NeuronGroup.m_AnyVarQueuesRequired (NeuronGroup.updateVarQueues_from code vars i ng)
    = NeuronGroup.m_AnyVarQueuesRequired ng
      || existsb (fun v => contains code (fst v ++ "_pre")) vars.
Proof.
  induction vars as [| v rest IH]; intros i ng;
    cbn [NeuronGroup.updateVarQueues_from existsb].
  - rewrite orb_false_r. reflexivity.
  - rewrite IH. destruct (contains code (fst v ++ "_pre")); cbn.
    + rewrite orb_true_r. reflexivity.
    + reflexivity.
Qed.

Lemma updateVarQueues_from_rest (code : string) (vars : list (string * string)) :
  forall (i : nat) (ng : NeuronGroup.t),
    NeuronGroup.getNeuronModel (NeuronGroup.updateVarQueues_from code vars i ng)
      = NeuronGroup.getNeuronModel ng
    /\ NeuronGroup.m_NumDelaySlots (NeuronGroup.updateVarQueues_from code vars i ng)
      = NeuronGroup.m_NumDelaySlots ng
    /\ NeuronGroup.getInSyn (NeuronGroup.updateVarQueues_from code vars i ng)
      = NeuronGroup.getInSyn ng.
Proof.
  induction vars as [| v rest IH]; intros i ng; cbn [NeuronGroup.updateVarQueues_from].
  - repeat split.
  - destruct (IH (S i) (if contains code (fst v ++ "_pre")
                        then NeuronGroup.set_VarQueueRequired i ng else ng)) as (H1 & H2 & H3).
    rewrite H1, H2, H3. destruct (contains code (fst v ++ "_pre")); repeat split.
Qed.

Lemma updateVarQueues_from_length (code : string) (vars : list (string * string)) :
  forall (i : nat) (ng : NeuronGroup.t),
    List.length (NeuronGroup.m_VarQueueRequired (NeuronGroup.updateVarQueues_from code vars i ng))
    = List.length (NeuronGroup.m_VarQueueRequired ng).
Proof.
  induction vars as [| v rest IH]; intros i ng; cbn [NeuronGroup.updateVarQueues_from].
  - reflexivity.
  - rewrite IH. destruct (contains code (fst v ++ "_pre")); [| reflexivity].
    cbn [NeuronGroup.set_VarQueueRequired NeuronGroup.m_VarQueueRequired].
    apply length_insert.
Qed.

(** X9: [updateVarQueues] only ever raises flags, and it keeps the summary
    flag in step with them: when there is one flag per declared variable
    and [m_AnyVarQueuesRequired] says whether some variable is flagged, the
    same holds after the scan, no flag that was set is cleared, and the
    number of flags is unchanged. *)
Theorem updateVarQueues_keeps_summary (ng : NeuronGroup.t) (code : string) :
  List.length (NeuronGroup.m_VarQueueRequired ng)
    = List.length (NeuronGroup.getVars (NeuronGroup.getNeuronModel ng)) ->
  (NeuronGroup.m_AnyVarQueuesRequired ng = true <->
   exists j : nat, NeuronGroup.m_VarQueueRequired ng !! j = Some true) ->
  let ng' := NeuronGroup.updateVarQueues code ng in
  (NeuronGroup.m_AnyVarQueuesRequired ng' = true <->
   exists j : nat, NeuronGroup.m_VarQueueRequired ng' !! j = Some true)
  /\ (forall j : nat, NeuronGroup.m_VarQueueRequired ng !! j = Some true ->
        NeuronGroup.m_VarQueueRequired ng' !! j = Some true)
  /\ List.length (NeuronGroup.m_VarQueueRequired ng')
     = List.length (NeuronGroup.m_VarQueueRequired ng).
Proof.
  intros Hlen Hsummary ng'. subst ng'. unfold NeuronGroup.updateVarQueues.
  assert (Hflag : forall j,
    NeuronGroup.m_VarQueueRequired
      (NeuronGroup.updateVarQueues_from code (NeuronGroup.getVars (NeuronGroup.getNeuronModel ng)) 0 ng)
      !! j
    = (fun b => b || match NeuronGroup.getVars (NeuronGroup.getNeuronModel ng) !! j with
                     | Some v => contains code (fst v ++ "_pre")
                     | None => false
                     end) <$> (NeuronGroup.m_VarQueueRequired ng !! j)).
  { intros j. rewrite updateVarQueues_from_flags.
    rewrite decide_True by lia. rewrite Nat.sub_0_r. reflexivity. }
  split; [| split].
  - rewrite updateVarQueues_from_any. rewrite orb_true_iff, Hsummary. split.
    + intros [(j & Hj) | Hex].
      * exists j. rewrite Hflag, Hj. reflexivity.
      * apply existsb_exists in Hex. destruct Hex as (v & Hin & Hv).
        apply list_elem_of_In, list_elem_of_lookup in Hin. destruct Hin as (j & Hj).
        exists j. rewrite Hflag, Hj.
        destruct (lookup_lt_is_Some_2 (NeuronGroup.m_VarQueueRequired ng) j) as [b Hb].
        { rewrite Hlen. eapply lookup_lt_Some. exact Hj. }
        rewrite Hb. cbn. rewrite Hv, orb_true_r. reflexivity.
    + intros (j & Hj). rewrite Hflag in Hj.
      apply fmap_Some in Hj. destruct Hj as (b & Hb & Hj).
      symmetry in Hj. apply orb_true_iff in Hj. destruct Hj as [-> | Hj].
      * left. exists j. exact Hb.
      * right. destruct (NeuronGroup.getVars (NeuronGroup.getNeuronModel ng) !! j) as [v |] eqn:Hv;
          [| discriminate].
        apply existsb_exists. exists v. split; [| exact Hj].
        apply list_elem_of_In. eapply list_elem_of_lookup_2. exact Hv.
  - intros j Hj. rewrite Hflag, Hj. reflexivity.
  - apply updateVarQueues_from_length.
Qed.

Lemma NeuronGroup_eq (a b : NeuronGroup.t) :
  NeuronGroup.getNeuronModel a = NeuronGroup.getNeuronModel b ->
  NeuronGroup.m_NumDelaySlots a = NeuronGroup.m_NumDelaySlots b ->
  NeuronGroup.m_AnyVarQueuesRequired a = NeuronGroup.m_AnyVarQueuesRequired b ->
  NeuronGroup.m_VarQueueRequired a = NeuronGroup.m_VarQueueRequired b ->
  NeuronGroup.getInSyn a = NeuronGroup.getInSyn b ->
  a = b.
Proof. destruct a, b. cbn. intros -> -> -> -> ->. reflexivity. Qed.

Lemma updateVarQueues_flags_lookup (code : string) (ng : NeuronGroup.t) (j : nat) :
  NeuronGroup.m_VarQueueRequired (NeuronGroup.updateVarQueues code ng) !! j
  = (fun b => b || match NeuronGroup.getVars (NeuronGroup.getNeuronModel ng) !! j with
                   | Some v => contains code (fst v ++ "_pre")
                   | None => false
                   end) <$> (NeuronGroup.m_VarQueueRequired ng !! j).
Proof.
  unfold NeuronGroup.updateVarQueues. rewrite updateVarQueues_from_flags.
  rewrite decide_True by lia. rewrite Nat.sub_0_r. reflexivity.
Qed.

Lemma updateVarQueues_model (code : string) (ng : NeuronGroup.t) :
  NeuronGroup.getNeuronModel (NeuronGroup.updateVarQueues code ng) = NeuronGroup.getNeuronModel ng.
Proof. apply updateVarQueues_from_rest. Qed.

(** X10: scanning code fragments for queued variables does not depend on the
    order of the fragments, and scanning a fragment again changes nothing. *)
Theorem updateVarQueues_order (ng : NeuronGroup.t) (code1 code2 : string) :
  NeuronGroup.updateVarQueues code1 (NeuronGroup.updateVarQueues code2 ng)
    = NeuronGroup.updateVarQueues code2 (NeuronGroup.updateVarQueues code1 ng)
  /\ NeuronGroup.updateVarQueues code1 (NeuronGroup.updateVarQueues code1 ng)
    = NeuronGroup.updateVarQueues code1 ng.
Proof.
  split; apply NeuronGroup_eq.
  - rewrite !updateVarQueues_model. reflexivity.
  - unfold NeuronGroup.updateVarQueues.
    rewrite !(proj1 (proj2 (updateVarQueues_from_rest _ _ _ _))). reflexivity.
  - unfold NeuronGroup.updateVarQueues at 1 3. rewrite !updateVarQueues_from_any.
    rewrite !updateVarQueues_model.
    unfold NeuronGroup.updateVarQueues. rewrite !updateVarQueues_from_any.
    rewrite <- !orb_assoc. f_equal. apply orb_comm.
  - apply list_eq. intros j. rewrite !updateVarQueues_flags_lookup, !updateVarQueues_model.
    destruct (NeuronGroup.m_VarQueueRequired ng !! j) as [b |]; [| reflexivity].
    cbn. f_equal. rewrite <- !orb_assoc. f_equal. apply orb_comm.
  - unfold NeuronGroup.updateVarQueues.
    rewrite !(proj2 (proj2 (updateVarQueues_from_rest _ _ _ _))). reflexivity.
  - rewrite !updateVarQueues_model. reflexivity.
  - unfold NeuronGroup.updateVarQueues.
    rewrite !(proj1 (proj2 (updateVarQueues_from_rest _ _ _ _))). reflexivity.
  - unfold NeuronGroup.updateVarQueues at 1. rewrite updateVarQueues_from_any.
    rewrite updateVarQueues_model.
    unfold NeuronGroup.updateVarQueues. rewrite !updateVarQueues_from_any.
    rewrite <- orb_assoc, orb_diag. reflexivity.
  - apply list_eq. intros j. rewrite !updateVarQueues_flags_lookup, !updateVarQueues_model.
    destruct (NeuronGroup.m_VarQueueRequired ng !! j) as [b |]; [| reflexivity].
    cbn. f_equal. rewrite <- orb_assoc, orb_diag. reflexivity.
  - unfold NeuronGroup.updateVarQueues.
    rewrite !(proj2 (proj2 (updateVarQueues_from_rest _ _ _ _))). reflexivity.
Qed.

Section QueueQuery.

Context {VarMode double : Type}.

(** X11: asked by name, a declared variable needs a queue after a scan
    exactly when it needed one before or the fragment contains its name
    followed by [_pre]; the answer is that of the first variable declared
    under the name. *)
Theorem isVarQueueRequired_after_scan (ng : @NeuronGroupMembers.t VarMode double)
    (var code : string) (required : bool) :
  NeuronGroupMembers.isVarQueueRequired var ng = Some required ->
  NeuronGroupMembers.isVarQueueRequired var (NeuronGroupMembers.updateVarQueues code ng)
  = Some (required || contains code (var ++ "_pre")).
Proof.
  unfold NeuronGroupMembers.isVarQueueRequired, NeuronGroupMembers.updateVarQueues.
  assert (Hidx : NeuronGroupMembers.getVarIndex
                   (NeuronGroupMembers.set_base
                      (NeuronGroup.updateVarQueues code (NeuronGroupMembers.base ng)) ng) var
                 = NeuronGroupMembers.getVarIndex ng var).
  { unfold NeuronGroupMembers.getVarIndex.
    cbn [NeuronGroupMembers.set_base NeuronGroupMembers.base].
    rewrite updateVarQueues_model. reflexivity. }
  rewrite Hidx.
  destruct (NeuronGroupMembers.getVarIndex ng var) as [i |] eqn:Hi; cbn; [| discriminate].
  intros Hflag.
  destruct (getVarIndex_declared ng var i Hi) as [type Hv].
  rewrite updateVarQueues_flags_lookup, Hv, Hflag. reflexivity.
Qed.

End QueueQuery.

(** ** presynapticUpdateStrategy.cc: generation and its substitutions *)

Lemma getVarSubstitution_child_unbound (s : Substitutions) (vars : gmap string string)
    (funcs : gmap string (nat * string)) (source : string) :
  vars !! source = None ->
  getVarSubstitution (mkSubstitutions vars funcs (Some s)) source = getVarSubstitution s source.
Proof. intros H. cbn. rewrite H. reflexivity. Qed.


(** Without dendritic delay, the one function the substitution stack of a
    compatible strategy binds is [addToInSyn], with the write its policy
    predicates announce. *)
Lemma synSubs_accumulation (isRNGRequired : string -> bool) (s : Strategy)
    (model : ModelSpecInternal) (sg : SynapseGroupInternal) (popSubs : Substitutions)
    (backend : Backend) (trueSpike : bool) (id : string) :
  isDendriticDelayRequired sg = false ->
  isCompatible s sg = true ->
  getVarSubstitution popSubs "id" = Some id ->
  exists subs : Substitutions,
    synSubs isRNGRequired s model sg popSubs backend trueSpike = Some subs
    /\ m_FuncSubstitutions subs
       = {[ "addToInSyn" :=
              (1%nat, accumulationTemplate s model sg backend (postIndexText s sg id)) ]}.
Proof.
  intros Hdelay Hcompat Hid.
  rewrite isCompatible_table in Hcompat.
  destruct s; cbn [synSubs postIndexText]; unfold accumulationTemplate;
    cbn [shouldAccumulateInRegister shouldAccumulateInSharedMemory].
  - unfold PreSpan.synSubs, PreSpan.shouldAccumulateInRegister. rewrite Hdelay.
    destruct (PreSpan.shouldAccumulateInSharedMemory sg backend); bind_fresh;
      (eexists; split; [reflexivity |]; cbn; apply insert_empty).
  - unfold PostSpan.synSubs, PostSpan.shouldAccumulateInRegister. rewrite Hdelay, Hid.
    unfold connectivityOf in Hcompat.
    destruct (getSpanType sg); [| discriminate].
    assert (Hdense : getMatrixType sg &? DENSE
                     = bool_decide (matrixConnectivity (getMatrixType sg) = DENSE))
      by apply hasConnectivity_tag.
    assert (Hbitmask : getMatrixType sg &? BITMASK
                       = bool_decide (matrixConnectivity (getMatrixType sg) = BITMASK))
      by apply hasConnectivity_tag.
    assert (Hsparse : getMatrixType sg &? SPARSE
                      = bool_decide (matrixConnectivity (getMatrixType sg) = SPARSE))
      by apply hasConnectivity_tag.
    destruct (matrixConnectivity (getMatrixType sg)); try discriminate;
      rewrite Hdense, Hbitmask, Hsparse;
      change (bool_decide (DENSE = DENSE)) with true;
      change (bool_decide (BITMASK = BITMASK)) with true;
      change (bool_decide (SPARSE = SPARSE)) with true;
      change (bool_decide (DENSE = BITMASK)) with false;
      change (bool_decide (DENSE = SPARSE)) with false;
      change (bool_decide (BITMASK = DENSE)) with false;
      change (bool_decide (BITMASK = SPARSE)) with false;
      change (bool_decide (SPARSE = DENSE)) with false;
      change (bool_decide (SPARSE = BITMASK)) with false;
      cbn [orb]; bind_fresh.
    + eexists; split; [reflexivity |]; cbn; apply insert_empty.
    + eexists; split; [reflexivity |]; cbn; apply insert_empty.
    + rewrite (getVarSubstitution_bound _ "id_post" "ipost")
        by (cbn; rewrite lookup_insert_ne by discriminate; apply lookup_insert_eq).
      destruct (PostSpan.shouldAccumulateInSharedMemory sg backend); bind_fresh;
        (eexists; split; [reflexivity |]; cbn; apply insert_empty).
  - unfold PreSpanProcedural.synSubs, PreSpanProcedural.procPopSubs,
      PreSpanProcedural.shouldAccumulateInRegister. rewrite Hdelay.
    destruct (isRNGRequired (getRowBuildCode sg)),
      (PreSpanProcedural.shouldAccumulateInSharedMemory sg backend); bind_fresh;
      (eexists; split; [reflexivity |]; cbn; apply insert_empty).
Qed.

(** The substitution stack a strategy builds for the simulation code
    resolves [id_pre], [id_post] and [id_syn] itself, and every other name
    (but [rng]) as the population substitutions do. *)
Lemma synSubs_bindings (isRNGRequired : string -> bool) (s : Strategy)
    (model : ModelSpecInternal) (sg : SynapseGroupInternal) (popSubs : Substitutions)
    (backend : Backend) (trueSpike : bool) (id : string) :
  getVarSubstitution popSubs "id" = Some id ->
  exists subs : Substitutions,
    synSubs isRNGRequired s model sg popSubs backend trueSpike = Some subs
    /\ getVarSubstitution subs "id_pre" = Some (preIndexBinding s trueSpike)
    /\ getVarSubstitution subs "id_post" = Some (postIndexBinding s sg id)
    /\ getVarSubstitution subs "id_syn" = Some "synAddress"
    /\ (forall name : string,
          name <> "id_pre" -> name <> "id_post" -> name <> "id_syn" -> name <> "rng" ->
          getVarSubstitution subs name = getVarSubstitution popSubs name).
Proof.
  intros Hid.
  assert (Hpost : forall post : string,
    getVarSubstitution
      (mkSubstitutions
         (<["id_syn" := "synAddress"]>
            (<["id_post" := post]>
               (<["id_pre" := preIndexBinding StrategyPostSpan trueSpike]> ∅)))
         ∅ (Some popSubs)) "id_post" = Some post).
  { intros post. apply getVarSubstitution_bound. cbn.
    rewrite lookup_insert_ne by discriminate. apply lookup_insert_eq. }
  destruct s; cbn [synSubs preIndexBinding postIndexBinding].
  - unfold PreSpan.synSubs.
    destruct (isDendriticDelayRequired sg), (PreSpan.shouldAccumulateInSharedMemory sg backend);
      bind_fresh; (eexists; split; [reflexivity |]);
      (split; [| split; [| split]];
       [ apply getVarSubstitution_bound; cbn;
         rewrite !lookup_insert_ne by discriminate; apply lookup_insert_eq
       | apply getVarSubstitution_bound; cbn;
         rewrite lookup_insert_ne by discriminate; apply lookup_insert_eq
       | apply getVarSubstitution_bound; cbn; apply lookup_insert_eq
       | intros name H1 H2 H3 _; apply getVarSubstitution_child_unbound;
         rewrite !lookup_insert_ne by congruence; apply lookup_empty ]).
  - unfold PostSpan.synSubs. rewrite Hid.
    destruct (getMatrixType sg &? SPARSE); bind_fresh; cbn [preIndexBinding] in Hpost;
      rewrite ?Hpost;
      destruct (isDendriticDelayRequired sg),
        (PostSpan.shouldAccumulateInSharedMemory sg backend);
      bind_fresh; (eexists; split; [reflexivity |]);
      (split; [| split; [| split]];
       [ apply getVarSubstitution_bound; cbn;
         rewrite !lookup_insert_ne by discriminate; apply lookup_insert_eq
       | apply getVarSubstitution_bound; cbn;
         rewrite lookup_insert_ne by discriminate; apply lookup_insert_eq
       | apply getVarSubstitution_bound; cbn; apply lookup_insert_eq
       | intros name H1 H2 H3 _; apply getVarSubstitution_child_unbound;
         rewrite !lookup_insert_ne by congruence; apply lookup_empty ]).
  - unfold PreSpanProcedural.synSubs, PreSpanProcedural.procPopSubs.
    destruct (isRNGRequired (getRowBuildCode sg)), (isDendriticDelayRequired sg),
      (PreSpanProcedural.shouldAccumulateInSharedMemory sg backend);
      bind_fresh; (eexists; split; [reflexivity |]);
      (split; [| split; [| split]];
       [ rewrite getVarSubstitution_child_unbound
           by (rewrite !lookup_insert_ne by discriminate; apply lookup_empty);
         apply getVarSubstitution_bound; cbn;
         rewrite ?lookup_insert_ne by discriminate; apply lookup_insert_eq
       | apply getVarSubstitution_bound; cbn;
         rewrite lookup_insert_ne by discriminate; apply lookup_insert_eq
       | apply getVarSubstitution_bound; cbn; apply lookup_insert_eq
       | intros name H1 H2 H3 H4;
         rewrite getVarSubstitution_child_unbound
           by (rewrite !lookup_insert_ne by congruence; apply lookup_empty);
         apply getVarSubstitution_child_unbound;
         rewrite ?lookup_insert_ne by congruence; apply lookup_empty ]).
Qed.

(** ** presynapticUpdateStrategy.cc: the rows of the procedural strategy *)





Lemma prefix_append (p s : string) : String.prefix p (p ++ s) = true.
Proof.
  induction p as [| c p IH]; simpl.
  - destruct s; reflexivity.
  - destruct (ascii_dec c c) as [_ | Hne]; [exact IH | contradiction].
Qed.

Lemma append_assoc (a b c : string) : (a ++ b) ++ c = a ++ b ++ c.
Proof.
  induction a as [| x a IH]; [reflexivity |].
  change (String x ((a ++ b) ++ c) = String x (a ++ b ++ c)). f_equal. exact IH.
Qed.

Lemma index_cons (p : string) (b : ascii) (s : string) :
  String.index 0 p (String b s)
  = if String.prefix p (String b s) then Some 0%nat
    else match String.index 0 p s with
         | Some n => Some (S n)
         | None => None
         end.
Proof. reflexivity. Qed.

Lemma contains_inside (x p y : string) : contains (x ++ p ++ y) p = true.
Proof.
  unfold contains, find.
  assert (H : exists n, String.index 0 p (x ++ p ++ y) = Some n);
    [| destruct H as [n ->]; reflexivity].
  induction x as [| c x [n IH]].
  - change (EmptyString ++ p ++ y) with (p ++ y).
    pose proof (prefix_append p y) as Hprefix.
    destruct (p ++ y) as [| b rest] eqn:Hpy.
    + destruct p; [exists 0%nat; reflexivity | discriminate].
    + rewrite index_cons, Hprefix. exists 0%nat. reflexivity.
  - change (String c x ++ p ++ y) with (String c (x ++ p ++ y)).
    rewrite index_cons, IH.
    destruct (String.prefix p (String c (x ++ p ++ y))); eexists; reflexivity.
Qed.

Lemma contains_prefix (p y : string) : contains (p ++ y) p = true.
Proof. exact (contains_inside EmptyString p y). Qed.

(** ** What [genCode] hands to the handlers *)

Lemma frame_here (h a : string) : h ++ a = EmptyString ++ h ++ a.
Proof. reflexivity. Qed.

Lemma frame_step (x rest b h a : string) :
  rest = b ++ h ++ a -> x ++ rest = (x ++ b) ++ h ++ a.
Proof. intros ->. symmetry. apply append_assoc. Qed.

(** Splits a text written piece by piece around one of its pieces. *)
Ltac frame := repeat first [apply frame_here | apply frame_step].

Lemma PreSpan_genCode_frame (model : ModelSpecInternal) (sg : SynapseGroupInternal)
    (popSubs : Substitutions) (backend : Backend) (trueSpike : bool)
    (wumThreshHandler : SynapseGroupHandler) (id : string) (subs : Substitutions) :
  getVarSubstitution popSubs "id" = Some id ->
  PreSpan.synSubs model sg popSubs backend = Some subs ->
  exists before after : string,
    forall wumSimHandler : SynapseGroupHandler,
      PreSpan.genCode model sg popSubs backend trueSpike wumThreshHandler wumSimHandler
      = Some (before ++ wumSimHandler sg subs ++ after).
Proof.
  intros Hid Hsubs.
  destruct (negb trueSpike && isEventThresholdReTestRequired sg) eqn:HreTest;
    eexists; eexists; intros wumSimHandler;
    unfold PreSpan.genCode; rewrite Hid, Hsubs, HreTest; bind_fresh;
    f_equal; frame.
Qed.

Lemma PostSpan_genCode_frame (model : ModelSpecInternal) (sg : SynapseGroupInternal)
    (popSubs : Substitutions) (backend : Backend) (trueSpike : bool)
    (wumThreshHandler : SynapseGroupHandler) (id : string) (subs : Substitutions) :
  getVarSubstitution popSubs "id" = Some id ->
  PostSpan.synSubs model sg popSubs backend trueSpike = Some subs ->
  exists before after : string,
    forall wumSimHandler : SynapseGroupHandler,
      PostSpan.genCode model sg popSubs backend trueSpike wumThreshHandler wumSimHandler
      = Some (before ++ wumSimHandler sg subs ++ after).
Proof.
  intros Hid Hsubs.
  destruct (negb trueSpike && isEventThresholdReTestRequired sg) eqn:HreTest,
    (getMatrixType sg &? BITMASK) eqn:Hbitmask;
    eexists; eexists; intros wumSimHandler;
    unfold PostSpan.genCode; rewrite Hid, Hsubs, HreTest, ?Hbitmask; bind_fresh;
    f_equal; frame.
Qed.

Lemma procPopSubs_defined (isRNGRequired : string -> bool) (sg : SynapseGroupInternal)
    (popSubs : Substitutions) :
  is_Some (PreSpanProcedural.procPopSubs isRNGRequired sg popSubs).
Proof.
  unfold PreSpanProcedural.procPopSubs.
  destruct (isRNGRequired (getRowBuildCode sg)); bind_fresh; eexists; reflexivity.
Qed.

(** The substitutions of the connectivity code: the declarations written
    with them depend on the connection only; [addSynapse] is the one
    function bound, with the presynaptic update as its template;
    [id_post_begin] and [num_post] stand for a number or for a kernel
    variable that the declarations declare. *)
Lemma connSubs_spec (sg : SynapseGroupInternal) :
  exists declarations : string,
    forall (procSubs : Substitutions) (presynapticUpdate : string),
      exists subs : Substitutions,
        PreSpanProcedural.connSubs sg procSubs presynapticUpdate = Some (declarations, subs)
        /\ m_FuncSubstitutions subs = {[ "addSynapse" := (1%nat, presynapticUpdate) ]}
        /\ (m_VarSubstitutions subs !! "id_post_begin" = Some "0"
            \/ m_VarSubstitutions subs !! "id_post_begin" = Some "idPostStart"
               /\ contains declarations "const unsigned int idPostStart = " = true)
        /\ ((exists n : Z, m_VarSubstitutions subs !! "num_post" = Some (to_string n))
            \/ m_VarSubstitutions subs !! "num_post" = Some "numPost"
               /\ contains declarations "const unsigned int numPost = " = true).
Proof.
  unfold PreSpanProcedural.connSubs.
  destruct (getNumThreadsPerSpike sg >? 1);
    [destruct (ng_getNumNeurons (getTrgNeuronGroup sg)
               mod PreSpanProcedural.numPostPerThread sg =? 0) |];
    eexists; intros procSubs presynapticUpdate;
    bind_fresh; eexists; (split; [reflexivity |]);
    cbn [m_FuncSubstitutions m_VarSubstitutions];
    (split; [apply insert_empty |]).
  - split.
    + right. split; [apply lookup_insert_eq |].
      apply contains_prefix.
    + left. eexists. rewrite lookup_insert_ne by discriminate. apply lookup_insert_eq.
  - split.
    + right. split; [apply lookup_insert_eq |].
      rewrite append_assoc. apply contains_prefix.
    + right. split; [rewrite lookup_insert_ne by discriminate; apply lookup_insert_eq |].
      apply contains_inside.
  - split.
    + left. rewrite lookup_insert_ne by discriminate. apply lookup_insert_eq.
    + left. eexists. apply lookup_insert_eq.
Qed.

(** The kernel body of the procedural strategy: a fixed text, the
    declarations of the row partition, what the handler of the connectivity
    code writes, a fixed text; the substitutions that handler is handed
    depend on the handler of the simulation code through its text under
    [subs] only, and are as [connSubs_spec] says. *)
Lemma PreSpanProcedural_genCode_frame (isRNGRequired : string -> bool)
    (model : ModelSpecInternal) (sg : SynapseGroupInternal) (popSubs : Substitutions)
    (backend : Backend) (trueSpike : bool) (wumThreshHandler : SynapseGroupHandler)
    (id : string) (subs : Substitutions) :
  getVarSubstitution popSubs "id" = Some id ->
  PreSpanProcedural.synSubs isRNGRequired model sg popSubs backend = Some subs ->
  exists (before declarations after : string) (connSubs : string -> Substitutions),
    (forall wumSimHandler wumProceduralConnectHandler : SynapseGroupHandler,
       PreSpanProcedural.genCode isRNGRequired model sg popSubs backend trueSpike
         wumThreshHandler wumSimHandler wumProceduralConnectHandler
       = Some (before ++ declarations
               ++ wumProceduralConnectHandler sg (connSubs (wumSimHandler sg subs))
               ++ after))
    /\ (forall text : string,
          m_FuncSubstitutions (connSubs text)
            = {[ "addSynapse" := (1%nat, text ++ "synAddress++;" ++ endl) ]}
          /\ (m_VarSubstitutions (connSubs text) !! "id_post_begin" = Some "0"
              \/ m_VarSubstitutions (connSubs text) !! "id_post_begin" = Some "idPostStart"
                 /\ contains declarations "const unsigned int idPostStart = " = true)
          /\ ((exists n : Z,
                 m_VarSubstitutions (connSubs text) !! "num_post" = Some (to_string n))
              \/ m_VarSubstitutions (connSubs text) !! "num_post" = Some "numPost"
                 /\ contains declarations "const unsigned int numPost = " = true)).
Proof.
  intros Hid Hsubs.
  destruct (procPopSubs_defined isRNGRequired sg popSubs) as [procSubs HprocSubs].
  destruct (connSubs_spec sg) as [declarations Hconn].
  eexists. exists declarations. eexists.
  exists (fun text =>
            match PreSpanProcedural.connSubs sg procSubs (text ++ "synAddress++;" ++ endl) with
            | Some conn => snd conn
            | None => child procSubs
            end).
  split.
  - intros wumSimHandler wumProceduralConnectHandler.
    unfold PreSpanProcedural.genCode. rewrite Hid, HprocSubs, Hsubs.
    cbn [mbind option_bind].
    destruct (Hconn procSubs (wumSimHandler sg subs ++ "synAddress++;" ++ endl))
      as (conn & -> & _).
    cbn [mbind option_bind fst snd]. f_equal. frame.
  - intros text.
    destruct (Hconn procSubs (text ++ "synAddress++;" ++ endl)) as (conn & -> & Hprops).
    cbn [snd]. exact Hprops.
Qed.

Lemma getFuncSubstitution_bound (s : Substitutions) (source : string) (f : nat * string) :
  m_FuncSubstitutions s !! source = Some f ->
  getFuncSubstitution s source = Some f.
Proof. destruct s. cbn. intros ->. reflexivity. Qed.

(** The handler of the simulation code writes under the substitutions the
    strategy builds for it. *)
Lemma genCode_simCodeWrittenUnder (isRNGRequired : string -> bool) (s : Strategy)
    (model : ModelSpecInternal) (sg : SynapseGroupInternal) (popSubs : Substitutions)
    (backend : Backend) (trueSpike : bool) (id : string) (subs : Substitutions) :
  getVarSubstitution popSubs "id" = Some id ->
  synSubs isRNGRequired s model sg popSubs backend trueSpike = Some subs ->
  simCodeWrittenUnder isRNGRequired s model sg popSubs backend trueSpike subs.
Proof.
  intros Hid Hsubs wumThreshHandler. destruct s; cbn [synSubs] in Hsubs; cbn [genCode].
  - destruct (PreSpan_genCode_frame model sg popSubs backend trueSpike wumThreshHandler
                id subs Hid Hsubs) as (before & after & Hframe).
    exists before, after. intros wumSimHandler _. apply Hframe.
  - destruct (PostSpan_genCode_frame model sg popSubs backend trueSpike wumThreshHandler
                id subs Hid Hsubs) as (before & after & Hframe).
    exists before, after. intros wumSimHandler _. apply Hframe.
  - destruct (PreSpanProcedural_genCode_frame isRNGRequired model sg popSubs backend
                trueSpike wumThreshHandler id subs Hid Hsubs)
      as (before & declarations & after & connSubs & Hframe & Hconn).
    exists (before ++ declarations), after, connSubs.
    intros wumSimHandler wumProceduralConnectHandler. split.
    + rewrite Hframe, append_assoc. reflexivity.
    + destruct (Hconn (wumSimHandler sg subs)) as (Hfuncs & _).
      apply getFuncSubstitution_bound. rewrite Hfuncs. apply lookup_singleton_eq.
Qed.

(** C3: when dendritic delay is required, the handler of the simulation
    code writes its part of the kernel body that [genCode] of each strategy
    generates under a substitution stack that binds exactly one function,
    [addToInSynDelay] with two arguments, whose template is the backend's
    atomic add on the dendritic-delay buffer of the target; no [addToInSyn]
    into a register, shared memory or global memory is bound, whatever
    policy the strategy would choose without the delay. *)
Theorem dendritic_delay_atomic_add (isRNGRequired : string -> bool) (s : Strategy)
    (model : ModelSpecInternal) (sg : SynapseGroupInternal) (popSubs : Substitutions)
    (backend : Backend) (trueSpike : bool) (id : string) :
  isDendriticDelayRequired sg = true ->
  getVarSubstitution popSubs "id" = Some id ->
  exists subs : Substitutions,
    synSubs isRNGRequired s model sg popSubs backend trueSpike = Some subs
    /\ simCodeWrittenUnder isRNGRequired s model sg popSubs backend trueSpike subs
    /\ m_FuncSubstitutions subs
       = {[ "addToInSynDelay" :=
              (2%nat, dendriticDelayAtomicAdd model sg backend (postIndexText s sg id)) ]}.
Proof.
  intros Hdelay Hid.
  destruct (synSubs_dendritic_delay isRNGRequired s model sg popSubs backend trueSpike id
              Hdelay Hid) as (subs & Hsubs & Hfuncs).
  exists subs. split; [exact Hsubs |]. split; [| exact Hfuncs].
  exact (genCode_simCodeWrittenUnder isRNGRequired s model sg popSubs backend trueSpike
           id subs Hid Hsubs).
Qed.

Lemma dendritic_delay_atomic_add_witness :
  exists subs : Substitutions,
    synSubs (fun _ => false) StrategyPostSpan sampleModel
      (sampleConnection POSTSYNAPTIC DENSE 1 4 true) samplePopSubs (sampleBackend 6) true
    = Some subs
    /\ simCodeWrittenUnder (fun _ => false) StrategyPostSpan sampleModel
         (sampleConnection POSTSYNAPTIC DENSE 1 4 true) samplePopSubs (sampleBackend 6) true
         subs
    /\ m_FuncSubstitutions subs
       = {[ "addToInSynDelay" :=
              (2%nat, dendriticDelayAtomicAdd sampleModel
                        (sampleConnection POSTSYNAPTIC DENSE 1 4 true) (sampleBackend 6)
                        (postIndexText StrategyPostSpan
                           (sampleConnection POSTSYNAPTIC DENSE 1 4 true) "lid")) ]}.
Proof. apply dendritic_delay_atomic_add; reflexivity. Defined.

(** X13: without dendritic delay, the handler of the simulation code writes
    its part of the kernel body that [genCode] of a compatible strategy
    generates under a substitution stack whose one function is
    [addToInSyn], and the write it stands for is the one the strategy's own
    policy predicates announce: the register add when
    [shouldAccumulateInRegister] holds, else the shared-memory add when
    [shouldAccumulateInSharedMemory] holds, else the atomic add into the
    global input. *)
Theorem accumulation_follows_policy (isRNGRequired : string -> bool) (s : Strategy)
    (model : ModelSpecInternal) (sg : SynapseGroupInternal) (popSubs : Substitutions)
    (backend : Backend) (trueSpike : bool) (id : string) :
  isDendriticDelayRequired sg = false ->
  isCompatible s sg = true ->
  getVarSubstitution popSubs "id" = Some id ->
  exists subs : Substitutions,
    synSubs isRNGRequired s model sg popSubs backend trueSpike = Some subs
    /\ simCodeWrittenUnder isRNGRequired s model sg popSubs backend trueSpike subs
    /\ m_FuncSubstitutions subs
       = {[ "addToInSyn" :=
              (1%nat, accumulationTemplate s model sg backend (postIndexText s sg id)) ]}.
Proof.
  intros Hdelay Hcompat Hid.
  destruct (synSubs_accumulation isRNGRequired s model sg popSubs backend trueSpike id
              Hdelay Hcompat Hid) as (subs & Hsubs & Hfuncs).
  exists subs. split; [exact Hsubs |]. split; [| exact Hfuncs].
  exact (genCode_simCodeWrittenUnder isRNGRequired s model sg popSubs backend trueSpike
           id subs Hid Hsubs).
Qed.

(** X14: the substitution stack under which the handler of the simulation
    code writes its part of the kernel body that [genCode] of a strategy
    generates resolves [id_pre], [id_post] and [id_syn] itself, and every
    other name (but [rng], which the procedural strategy may bind) as the
    population substitutions do. *)
Theorem synSubs_resolves (isRNGRequired : string -> bool) (s : Strategy)
    (model : ModelSpecInternal) (sg : SynapseGroupInternal) (popSubs : Substitutions)
    (backend : Backend) (trueSpike : bool) (id : string) :
  getVarSubstitution popSubs "id" = Some id ->
  exists subs : Substitutions,
    synSubs isRNGRequired s model sg popSubs backend trueSpike = Some subs
    /\ simCodeWrittenUnder isRNGRequired s model sg popSubs backend trueSpike subs
    /\ getVarSubstitution subs "id_pre" = Some (preIndexBinding s trueSpike)
    /\ getVarSubstitution subs "id_post" = Some (postIndexBinding s sg id)
    /\ getVarSubstitution subs "id_syn" = Some "synAddress"
    /\ (forall name : string,
          name <> "id_pre" -> name <> "id_post" -> name <> "id_syn" -> name <> "rng" ->
          getVarSubstitution subs name = getVarSubstitution popSubs name).
Proof.
  intros Hid.
  destruct (synSubs_bindings isRNGRequired s model sg popSubs backend trueSpike id Hid)
    as (subs & Hsubs & Hbindings).
  exists subs. split; [exact Hsubs |]. split; [| exact Hbindings].
  exact (genCode_simCodeWrittenUnder isRNGRequired s model sg popSubs backend trueSpike
           id subs Hid Hsubs).
Qed.


(** ** snippet.h: merging initialisers *)

Section InitProperties.

Context {double : Type}.
Variable double_neq : double -> double -> bool.
Variable SnippetBase_canBeMerged : @Snippet.Base double -> @Snippet.Base double -> bool.

Lemma vector_eqb_names {T : Type} (name_of : T -> string) :
  forall a b : list T,
    Snippet.vector_eqb (fun x y => String.eqb (name_of x) (name_of y)) a b = true <->
    List.map name_of a = List.map name_of b.
Proof.
  induction a as [| x a IH]; intros [| y b]; cbn [Snippet.vector_eqb List.map].
  - split; reflexivity.
  - split; discriminate.
  - split; discriminate.
  - rewrite andb_true_iff, String.eqb_eq, IH. split.
    + intros [-> ->]. reflexivity.
    + intros [= -> ->]. split; reflexivity.
Qed.

Lemma Base_canBeMerged_names (this other : @Snippet.Base double) :
  Snippet.Base_canBeMerged this other = true <->
  Snippet.getParamNames this = Snippet.getParamNames other
  /\ List.map Snippet.dp_name (Snippet.getDerivedParams this)
     = List.map Snippet.dp_name (Snippet.getDerivedParams other).
Proof.
  unfold Snippet.Base_canBeMerged. rewrite andb_true_iff.
  pose proof (vector_eqb_names (fun x : string => x)
                (Snippet.getParamNames this) (Snippet.getParamNames other)) as Hnames.
  rewrite !map_id in Hnames.
  pose proof (vector_eqb_names Snippet.dp_name
                (Snippet.getDerivedParams this) (Snippet.getDerivedParams other)) as Hderived.
  unfold Snippet.DerivedParam_eqb.
  split.
  - intros [H1 H2]. split; [apply Hnames, H1 | apply Hderived, H2].
  - intros [H1 H2]. split; [apply Hnames, H1 | apply Hderived, H2].
Qed.

Lemma paramsMatch_true (codeString : string) (names : list string) :
  forall (i : nat) (mine theirs : list double),
    Snippet.paramsMatch double_neq codeString names i mine theirs = Some true <->
    (forall (k : nat) (name : string),
       names !! k = Some name ->
       contains codeString ("$(" ++ name ++ ")") = true ->
       exists a b : double,
         mine !! (i + k)%nat = Some a /\ theirs !! (i + k)%nat = Some b
         /\ double_neq a b = false).
Proof.
  induction names as [| name rest IH]; intros i mine theirs; cbn [Snippet.paramsMatch].
  - split; [intros _ k name' Hk; discriminate | reflexivity].
  - destruct (contains codeString ("$(" ++ name ++ ")")) eqn:Href.
    + destruct (mine !! i) as [a |] eqn:Ha; cbn.
      * destruct (theirs !! i) as [b |] eqn:Hb; cbn.
        -- destruct (double_neq a b) eqn:Hneq.
           ++ split; [discriminate |]. intros H.
              destruct (H 0%nat name eq_refl Href) as (a' & b' & Ha' & Hb' & Hneq').
              rewrite Nat.add_0_r in Ha', Hb'. congruence.
           ++ rewrite IH. split.
              ** intros H [| k] name' Hk Hc.
                 --- injection Hk as <-. rewrite Nat.add_0_r. exists a, b. auto.
                 --- replace (i + S k)%nat with (S i + k)%nat by lia. apply (H k name' Hk Hc).
              ** intros H k name' Hk Hc.
                 replace (S i + k)%nat with (i + S k)%nat by lia. apply (H (S k) name' Hk Hc).
        -- split; [discriminate |]. intros H.
           destruct (H 0%nat name eq_refl Href) as (a' & b' & Ha' & Hb' & _).
           rewrite Nat.add_0_r in Hb'. congruence.
      * split; [discriminate |]. intros H.
        destruct (H 0%nat name eq_refl Href) as (a' & b' & Ha' & _).
        rewrite Nat.add_0_r in Ha'. congruence.
    + rewrite IH. split.
      * intros H [| k] name' Hk Hc.
        -- injection Hk as <-. congruence.
        -- replace (i + S k)%nat with (S i + k)%nat by lia. apply (H k name' Hk Hc).
      * intros H k name' Hk Hc.
        replace (S i + k)%nat with (i + S k)%nat by lia. apply (H (S k) name' Hk Hc).
Qed.

(** X17: two initialisers can be merged for a code string exactly when
    the snippet class's own [canBeMerged] accepts the other snippet, both
    hold one derived value per derived parameter, and every parameter and
    derived parameter that the code string refers to has values on both
    sides that do not differ. Values the code string does not refer to play
    no part, and whatever the snippets, [canBeMerged] never returns true
    when the snippet class's own test fails. *)
Theorem canBeMerged_true (this other : @Snippet.Init double) (codeString : string) :
  Snippet.canBeMerged double_neq SnippetBase_canBeMerged this other codeString = Some true <->
  SnippetBase_canBeMerged (Snippet.getSnippet this) (Snippet.getSnippet other) = true
  /\ Snippet.referencedAgree double_neq codeString (Snippet.getParamNames (Snippet.getSnippet this))
       (Snippet.getParams this) (Snippet.getParams other)
  /\ List.length (Snippet.getDerivedParams (Snippet.getSnippet this))
     = List.length (Snippet.m_DerivedParams this)
  /\ List.length (Snippet.getDerivedParams (Snippet.getSnippet this))
     = List.length (Snippet.m_DerivedParams other)
  /\ Snippet.referencedAgree double_neq codeString
       (List.map Snippet.dp_name (Snippet.getDerivedParams (Snippet.getSnippet this)))
       (Snippet.m_DerivedParams this) (Snippet.m_DerivedParams other).
Proof.
  unfold Snippet.canBeMerged, Snippet.referencedAgree.
  pose proof (paramsMatch_true codeString (Snippet.getParamNames (Snippet.getSnippet this))
                0 (Snippet.getParams this) (Snippet.getParams other)) as Hparams.
  pose proof (paramsMatch_true codeString
                (List.map Snippet.dp_name (Snippet.getDerivedParams (Snippet.getSnippet this)))
                0 (Snippet.m_DerivedParams this) (Snippet.m_DerivedParams other)) as Hderived.
  cbn [Nat.add] in Hparams, Hderived.
  destruct (SnippetBase_canBeMerged (Snippet.getSnippet this) (Snippet.getSnippet other)).
  - destruct (Snippet.paramsMatch double_neq codeString
                (Snippet.getParamNames (Snippet.getSnippet this)) 0
                (Snippet.getParams this) (Snippet.getParams other)) as [[] |].
    + destruct Hparams as [Hparams _]. specialize (Hparams eq_refl).
      destruct (Nat.eqb_spec
                  (List.length (Snippet.getDerivedParams (Snippet.getSnippet this)))
                  (List.length (Snippet.m_DerivedParams this))) as [Hl1 | Hl1].
      * destruct (Nat.eqb_spec
                    (List.length (Snippet.getDerivedParams (Snippet.getSnippet this)))
                    (List.length (Snippet.m_DerivedParams other))) as [Hl2 | Hl2].
        -- rewrite Hderived. split.
           ++ intros H. repeat split; assumption.
           ++ intros (_ & _ & _ & _ & H). exact H.
        -- split; [discriminate |]. intros (_ & _ & _ & H & _). contradiction.
      * split; [discriminate |]. intros (_ & _ & H & _). contradiction.
    + split; [discriminate |]. intros (_ & H & _).
      apply Hparams in H. discriminate.
    + split; [discriminate |]. intros (_ & H & _).
      apply Hparams in H. discriminate.
  - split; [discriminate |]. intros (H & _). discriminate.
Qed.

End InitProperties.

(** ** modelCommon.cc: regimes in the code stream *)

Lemma append_nil_r (s : string) : s ++ EmptyString = s.
Proof.
  induction s as [| c s IH]; [reflexivity |].
  change (String c (s ++ EmptyString) = String c s). f_equal. exact IH.
Qed.

Lemma onRegimeEnd_several (cs : SpineMLGenerator.CodeStream) (id : Z) (code : string) :
  SpineMLGenerator.m_CurrentRegimeStream cs = EmptyString ->
  let cs' := SpineMLGenerator.onRegimeEnd true id (SpineMLGenerator.write code cs) in
  SpineMLGenerator.m_CurrentRegimeStream cs' = EmptyString
  /\ SpineMLGenerator.m_CodeStream cs'
     = SpineMLGenerator.m_CodeStream cs
       ++ (if String.eqb code EmptyString then EmptyString
           else (if SpineMLGenerator.m_FirstNonEmptyRegime cs then EmptyString else "else ")
                ++ SpineMLGenerator.regimeBlock (id, code))
  /\ SpineMLGenerator.m_FirstNonEmptyRegime cs'
     = (if String.eqb code EmptyString then SpineMLGenerator.m_FirstNonEmptyRegime cs
        else false).
Proof.
  intros Hempty cs'. subst cs'.
  unfold SpineMLGenerator.onRegimeEnd, SpineMLGenerator.write.
  cbn [SpineMLGenerator.m_CurrentRegimeStream SpineMLGenerator.m_CodeStream
       SpineMLGenerator.m_FirstNonEmptyRegime].
  rewrite Hempty. change (EmptyString ++ code) with code.
  destruct (String.eqb_spec code EmptyString) as [-> | Hcode]; cbn [negb].
  - cbn. rewrite append_nil_r. repeat split; reflexivity.
  - unfold SpineMLGenerator.regimeBlock. cbn [fst snd].
    destruct (SpineMLGenerator.m_FirstNonEmptyRegime cs);
      cbn [SpineMLGenerator.emit SpineMLGenerator.flush SpineMLGenerator.m_CodeStream
           SpineMLGenerator.m_CurrentRegimeStream SpineMLGenerator.m_FirstNonEmptyRegime].
    + change (EmptyString ++ ?x) with x.
      rewrite !append_assoc. repeat split; reflexivity.
    + rewrite !append_assoc. repeat split; reflexivity.
Qed.

Lemma writeRegimes_several (regimes : list (Z * string)) :
  forall cs : SpineMLGenerator.CodeStream,
    SpineMLGenerator.m_CurrentRegimeStream cs = EmptyString ->
    SpineMLGenerator.m_CodeStream (SpineMLGenerator.writeRegimes true regimes cs)
      = SpineMLGenerator.m_CodeStream cs
        ++ SpineMLGenerator.regimeChain (SpineMLGenerator.m_FirstNonEmptyRegime cs) regimes
    /\ SpineMLGenerator.m_CurrentRegimeStream (SpineMLGenerator.writeRegimes true regimes cs)
       = EmptyString.
Proof.
  unfold SpineMLGenerator.writeRegimes.
  induction regimes as [| [id code] rest IH]; intros cs Hempty;
    cbn [fold_left SpineMLGenerator.regimeChain fst snd].
  - rewrite append_nil_r. split; [reflexivity | exact Hempty].
  - destruct (onRegimeEnd_several cs id code Hempty) as (Hcur & Hcode & Hfirst).
    destruct (IH _ Hcur) as [Hc Hcur'].
    split; [| exact Hcur'].
    rewrite Hc, Hcode, Hfirst.
    destruct (String.eqb code EmptyString).
    + rewrite append_nil_r. reflexivity.
    + rewrite !append_assoc. reflexivity.
Qed.

Lemma onRegimeEnd_single (cs : SpineMLGenerator.CodeStream) (id : Z) (code : string) :
  SpineMLGenerator.m_CurrentRegimeStream cs = EmptyString ->
  let cs' := SpineMLGenerator.onRegimeEnd false id (SpineMLGenerator.write code cs) in
  SpineMLGenerator.m_CurrentRegimeStream cs' = EmptyString
  /\ SpineMLGenerator.m_CodeStream cs' = SpineMLGenerator.m_CodeStream cs ++ code.
Proof.
  intros Hempty cs'. subst cs'.
  unfold SpineMLGenerator.onRegimeEnd, SpineMLGenerator.write.
  cbn [SpineMLGenerator.m_CurrentRegimeStream SpineMLGenerator.m_CodeStream
       SpineMLGenerator.m_FirstNonEmptyRegime].
  rewrite Hempty. change (EmptyString ++ code) with code.
  destruct (String.eqb_spec code EmptyString) as [-> | Hcode]; cbn [negb].
  - cbn. rewrite append_nil_r. split; reflexivity.
  - cbn. split; reflexivity.
Qed.

Lemma writeRegimes_single (regimes : list (Z * string)) :
  forall cs : SpineMLGenerator.CodeStream,
    SpineMLGenerator.m_CurrentRegimeStream cs = EmptyString ->
    SpineMLGenerator.m_CodeStream (SpineMLGenerator.writeRegimes false regimes cs)
      = SpineMLGenerator.m_CodeStream cs ++ String.concat EmptyString (List.map snd regimes)
    /\ SpineMLGenerator.m_CurrentRegimeStream (SpineMLGenerator.writeRegimes false regimes cs)
       = EmptyString.
Proof.
  unfold SpineMLGenerator.writeRegimes.
  induction regimes as [| [id code] rest IH]; intros cs Hempty; cbn [fold_left List.map fst snd].
  - cbn. rewrite append_nil_r. split; [reflexivity | exact Hempty].
  - destruct (onRegimeEnd_single cs id code Hempty) as (Hcur & Hcode).
    destruct (IH _ Hcur) as [Hc Hcur'].
    split; [| exact Hcur'].
    rewrite Hc, Hcode, append_assoc. f_equal.
    cbn [String.concat]. destruct (List.map snd rest); [| reflexivity].
    cbn. rewrite append_nil_r. reflexivity.
Qed.

(** X18: writing the regimes of a model into a fresh code stream gives, for
    a model with several regimes, the chain of [if(_regimeID == id)] blocks
    of the regimes that have code, each but the first preceded by [else]
    and regimes without code leaving no trace; for a model with a single
    regime it gives the code as it was written. Nothing is left in the
    stream of the current regime. *)
Theorem writeRegimes_code (regimes : list (Z * string)) :
  SpineMLGenerator.m_CodeStream
    (SpineMLGenerator.writeRegimes true regimes SpineMLGenerator.emptyCodeStream)
    = SpineMLGenerator.regimeChain true regimes
  /\ SpineMLGenerator.m_CodeStream
       (SpineMLGenerator.writeRegimes false regimes SpineMLGenerator.emptyCodeStream)
     = String.concat EmptyString (List.map snd regimes)
  /\ (forall multipleRegimes : bool,
        SpineMLGenerator.m_CurrentRegimeStream
          (SpineMLGenerator.writeRegimes multipleRegimes regimes SpineMLGenerator.emptyCodeStream)
        = EmptyString).
Proof.
  destruct (writeRegimes_several regimes SpineMLGenerator.emptyCodeStream eq_refl) as [Hs Hs'].
  destruct (writeRegimes_single regimes SpineMLGenerator.emptyCodeStream eq_refl) as [H1 H1'].
  split; [exact Hs | split; [exact H1 |]].
  intros []; assumption.
Qed.

(** ** modelCommon.cc: regime IDs and handlers *)

Section ModelCodeProperties.

Context {Handler : Type}.

Lemma insertAll_lookup (names : list string) :
  forall (ids : gmap string Z) (key : string),
    ModelCode.insertAll names ids !! key
    = match ids !! key with
      | Some id => Some id
      | None => if bool_decide (key ∈ names) then Some 0 else None
      end.
Proof.
  unfold ModelCode.insertAll.
  induction names as [| name rest IH]; intros ids key; cbn [fold_left].
  - rewrite bool_decide_eq_false_2 by apply not_elem_of_nil.
    destruct (ids !! key); reflexivity.
  - rewrite IH. unfold ModelCode.lookupOrInsert.
    destruct (ids !! name) as [id |] eqn:Hname; cbn [snd].
    + destruct (ids !! key) as [id' |] eqn:Hkey; [reflexivity |].
      assert (Hne : key <> name) by congruence.
      destruct (decide (key ∈ rest)) as [Hin | Hout].
      * rewrite !bool_decide_eq_true_2; [reflexivity | right; exact Hin | exact Hin].
      * rewrite !bool_decide_eq_false_2; [reflexivity | | exact Hout].
        intros Hin. apply elem_of_cons in Hin. destruct Hin; contradiction.
    + destruct (decide (key = name)) as [-> | Hne].
      * rewrite lookup_insert_eq, Hname.
        rewrite (bool_decide_eq_true_2 (name ∈ name :: rest)) by left. reflexivity.
      * rewrite lookup_insert_ne by congruence.
        destruct (ids !! key); [reflexivity |].
        destruct (decide (key ∈ rest)) as [Hin | Hout].
        -- rewrite !bool_decide_eq_true_2; [reflexivity | right; exact Hin | exact Hin].
        -- rewrite !bool_decide_eq_false_2; [reflexivity | | exact Hout].
           intros Hin. apply elem_of_cons in Hin. destruct Hin; contradiction.
Qed.

Lemma insertAll_app (a b : list string) (ids : gmap string Z) :
  ModelCode.insertAll (a ++ b) ids = ModelCode.insertAll b (ModelCode.insertAll a ids).
Proof. unfold ModelCode.insertAll. apply fold_left_app. Qed.

Lemma handleConditions_spec (h : option Handler) (type : string) (cur : Z)
    (conditions : list string) :
  forall st : @ModelCode.State Handler,
    match ModelCode.handleConditions h type cur conditions st with
    | (st', None) =>
        (conditions <> [] -> is_Some h)
        /\ ModelCode.regimeIDs st' = ModelCode.insertAll conditions (ModelCode.regimeIDs st)
        /\ ModelCode.regimeEnds (ModelCode.calls st') = ModelCode.regimeEnds (ModelCode.calls st)
    | (_, Some _) => conditions <> [] /\ h = None
    end.
Proof.
  induction conditions as [| target rest IH]; intros st; cbn [ModelCode.handleConditions].
  - split; [intros H; contradiction | split; reflexivity].
  - destruct h as [h |]; [| split; [discriminate | reflexivity]].
    destruct (ModelCode.lookupOrInsert target (ModelCode.regimeIDs st)) as [tid ids] eqn:Hlook.
    match goal with |- context [ModelCode.handleConditions _ _ _ rest ?s] => specialize (IH s) end.
    destruct (ModelCode.handleConditions (Some h) type cur rest _) as [st' [msg |]].
    + destruct IH as [_ IH]. discriminate.
    + destruct IH as (_ & Hids & Hends). split; [intros _; eexists; reflexivity |]. split.
      * rewrite Hids. cbn [ModelCode.regimeIDs ModelCode.insertAll fold_left].
        rewrite Hlook. reflexivity.
      * rewrite Hends. cbn [ModelCode.calls]. unfold ModelCode.regimeEnds.
        rewrite map_app, concat_app. cbn. rewrite app_nil_r. reflexivity.
Qed.

Lemma handleTimeDerivatives_spec (h : option Handler) (type : string) (cur : Z)
    (derivatives : list string) :
  forall st : @ModelCode.State Handler,
    match ModelCode.handleTimeDerivatives h type cur derivatives st with
    | (st', None) =>
        (derivatives <> [] -> is_Some h)
        /\ ModelCode.regimeIDs st' = ModelCode.regimeIDs st
        /\ ModelCode.regimeEnds (ModelCode.calls st') = ModelCode.regimeEnds (ModelCode.calls st)
    | (_, Some _) => derivatives <> [] /\ h = None
    end.
Proof.
  induction derivatives as [| variable rest IH]; intros st;
    cbn [ModelCode.handleTimeDerivatives].
  - split; [intros H; contradiction | split; reflexivity].
  - destruct h as [h |]; [| split; [discriminate | reflexivity]].
    match goal with
    | |- context [ModelCode.handleTimeDerivatives _ _ _ rest ?s] => specialize (IH s)
    end.
    destruct (ModelCode.handleTimeDerivatives (Some h) type cur rest _) as [st' [msg |]].
    + destruct IH as [_ IH]. discriminate.
    + destruct IH as (_ & Hids & Hends). split; [intros _; eexists; reflexivity |]. split.
      * rewrite Hids. reflexivity.
      * rewrite Hends. cbn [ModelCode.calls]. unfold ModelCode.regimeEnds.
        rewrite map_app, concat_app. cbn. rewrite app_nil_r. reflexivity.
Qed.

Lemma handleEvents_spec (handlers : gmap string Handler) (type : string) (cur : Z)
    (events : list (string * string)) :
  forall st : @ModelCode.State Handler,
    match ModelCode.handleEvents handlers type cur events st with
    | (st', None) =>
        (forall event, In event events -> is_Some (handlers !! fst event))
        /\ ModelCode.regimeIDs st'
           = ModelCode.insertAll (List.map snd events) (ModelCode.regimeIDs st)
        /\ ModelCode.regimeEnds (ModelCode.calls st') = ModelCode.regimeEnds (ModelCode.calls st)
    | (_, Some _) => exists event, In event events /\ handlers !! fst event = None
    end.
Proof.
  induction events as [| [srcPort target] rest IH]; intros st; cbn [ModelCode.handleEvents].
  - split; [intros event [] | split; reflexivity].
  - destruct (handlers !! srcPort) as [h |] eqn:Hport.
    + destruct (ModelCode.lookupOrInsert target (ModelCode.regimeIDs st)) as [tid ids] eqn:Hlook.
      match goal with |- context [ModelCode.handleEvents _ _ _ rest ?s] => specialize (IH s) end.
      destruct (ModelCode.handleEvents handlers type cur rest _) as [st' [msg |]].
      * destruct IH as (event & Hin & Hevent). exists event. split; [right; exact Hin | exact Hevent].
      * destruct IH as (Hall & Hids & Hends). split; [| split].
        -- intros event [<- | Hin]; [cbn; rewrite Hport; eexists; reflexivity | apply Hall, Hin].
        -- rewrite Hids. cbn [ModelCode.regimeIDs ModelCode.insertAll fold_left List.map snd].
           rewrite Hlook. reflexivity.
        -- rewrite Hends. cbn [ModelCode.calls]. unfold ModelCode.regimeEnds.
           rewrite map_app, concat_app. cbn. rewrite app_nil_r. reflexivity.
    + exists (srcPort, target). split; [left; reflexivity | exact Hport].
Qed.

Lemma handleImpulses_spec (handlers : gmap string Handler) (type : string) (cur : Z)
    (impulses : list (string * string)) :
  forall st : @ModelCode.State Handler,
    match ModelCode.handleImpulses handlers type cur impulses st with
    | (st', None) =>
        (forall impulse, In impulse impulses -> is_Some (handlers !! fst impulse))
        /\ ModelCode.regimeIDs st'
           = ModelCode.insertAll (List.map snd impulses) (ModelCode.regimeIDs st)
        /\ ModelCode.regimeEnds (ModelCode.calls st') = ModelCode.regimeEnds (ModelCode.calls st)
    | (_, Some _) => exists impulse, In impulse impulses /\ handlers !! fst impulse = None
    end.
Proof.
  induction impulses as [| [srcPort target] rest IH]; intros st; cbn [ModelCode.handleImpulses].
  - split; [intros impulse [] | split; reflexivity].
  - destruct (handlers !! srcPort) as [h |] eqn:Hport.
    + destruct (ModelCode.lookupOrInsert target (ModelCode.regimeIDs st)) as [tid ids] eqn:Hlook.
      match goal with |- context [ModelCode.handleImpulses _ _ _ rest ?s] => specialize (IH s) end.
      destruct (ModelCode.handleImpulses handlers type cur rest _) as [st' [msg |]].
      * destruct IH as (impulse & Hin & Himpulse).
        exists impulse. split; [right; exact Hin | exact Himpulse].
      * destruct IH as (Hall & Hids & Hends). split; [| split].
        -- intros impulse [<- | Hin]; [cbn; rewrite Hport; eexists; reflexivity | apply Hall, Hin].
        -- rewrite Hids. cbn [ModelCode.regimeIDs ModelCode.insertAll fold_left List.map snd].
           rewrite Hlook. reflexivity.
        -- rewrite Hends. cbn [ModelCode.calls]. unfold ModelCode.regimeEnds.
           rewrite map_app, concat_app. cbn. rewrite app_nil_r. reflexivity.
    + exists (srcPort, target). split; [left; reflexivity | exact Hport].
Qed.

Section Walk.

Variable objectHandlerEvent : gmap string Handler.
Variable objectHandlerCondition : option Handler.
Variable objectHandlerImpulse : gmap string Handler.
Variable objectHandlerTimeDerivative : option Handler.

Lemma handleRegime_spec (type : string) (multipleRegimes : bool)
    (regime : @ModelCode.Regime) (st : @ModelCode.State Handler) :
  match ModelCode.handleRegime objectHandlerEvent objectHandlerCondition
          objectHandlerImpulse objectHandlerTimeDerivative type multipleRegimes regime st with
  | (st', None) =>
      (ModelCode.regimeHandled objectHandlerEvent objectHandlerCondition
     objectHandlerImpulse objectHandlerTimeDerivative) regime
      /\ ModelCode.regimeIDs st'
         = ModelCode.insertAll (ModelCode.namesLookedUp regime) (ModelCode.regimeIDs st)
      /\ ModelCode.regimeEnds (ModelCode.calls st')
         = (ModelCode.regimeEnds (ModelCode.calls st)
            ++ [(multipleRegimes,
                 fst (ModelCode.lookupOrInsert (ModelCode.regimeName regime)
                        (ModelCode.regimeIDs st)))])%list
  | (_, Some _) => ~ (ModelCode.regimeHandled objectHandlerEvent objectHandlerCondition
     objectHandlerImpulse objectHandlerTimeDerivative) regime
  end.
Proof.
  unfold ModelCode.handleRegime, ModelCode.regimeHandled.
  destruct (ModelCode.lookupOrInsert (ModelCode.regimeName regime) (ModelCode.regimeIDs st))
    as [cur ids] eqn:Hlook.
  pose proof (handleConditions_spec objectHandlerCondition type cur
                (ModelCode.onConditions regime) (ModelCode.mkState ids (ModelCode.calls st)))
    as Hc.
  destruct (ModelCode.handleConditions _ _ _ _ _) as [st1 [msg |]].
  { destruct Hc as [Hne Hnone]. intros (H & _). specialize (H Hne). rewrite Hnone in H.
    destruct H; discriminate. }
  destruct Hc as (Hc & Hids1 & Hends1).
  pose proof (handleEvents_spec objectHandlerEvent type cur (ModelCode.onEvents regime) st1) as He.
  destruct (ModelCode.handleEvents _ _ _ _ _) as [st2 [msg |]].
  { destruct He as (event & Hin & Hnone). intros (_ & H & _). specialize (H event Hin).
    rewrite Hnone in H. destruct H; discriminate. }
  destruct He as (He & Hids2 & Hends2).
  pose proof (handleImpulses_spec objectHandlerImpulse type cur (ModelCode.onImpulses regime) st2)
    as Hi.
  destruct (ModelCode.handleImpulses _ _ _ _ _) as [st3 [msg |]].
  { destruct Hi as (impulse & Hin & Hnone). intros (_ & _ & H & _). specialize (H impulse Hin).
    rewrite Hnone in H. destruct H; discriminate. }
  destruct Hi as (Hi & Hids3 & Hends3).
  pose proof (handleTimeDerivatives_spec objectHandlerTimeDerivative type cur
                (ModelCode.timeDerivatives regime) st3) as Ht.
  destruct (ModelCode.handleTimeDerivatives _ _ _ _ _) as [st4 [msg |]].
  { destruct Ht as [Hne Hnone]. intros (_ & _ & _ & H). specialize (H Hne). rewrite Hnone in H.
    destruct H; discriminate. }
  destruct Ht as (Ht & Hids4 & Hends4).
  split; [repeat split; assumption |]. split.
  - cbn [ModelCode.regimeIDs]. rewrite Hids4, Hids3, Hids2, Hids1.
    cbn [ModelCode.regimeIDs].
    unfold ModelCode.namesLookedUp, ModelCode.targetRegimes.
    change (ModelCode.insertAll (?n :: ?l) ?m)
      with (ModelCode.insertAll l (snd (ModelCode.lookupOrInsert n m))).
    rewrite Hlook. cbn [snd]. rewrite !insertAll_app. reflexivity.
  - cbn [ModelCode.calls]. unfold ModelCode.regimeEnds at 1.
    rewrite map_app, concat_app. cbn [List.map List.concat app].
    fold (ModelCode.regimeEnds (ModelCode.calls st4)).
    rewrite Hends4, Hends3, Hends2, Hends1. cbn [ModelCode.calls fst]. reflexivity.
Qed.

Lemma handleRegimes_spec (type : string) (multipleRegimes : bool)
    (rs : list (@ModelCode.Regime)) :
  forall st : @ModelCode.State Handler,
    (forall r, In r rs -> is_Some (ModelCode.regimeIDs st !! ModelCode.regimeName r)) ->
    match ModelCode.handleRegimes objectHandlerEvent objectHandlerCondition
            objectHandlerImpulse objectHandlerTimeDerivative type multipleRegimes rs st with
    | (st', None) =>
        Forall (ModelCode.regimeHandled objectHandlerEvent objectHandlerCondition
     objectHandlerImpulse objectHandlerTimeDerivative) rs
        /\ ModelCode.regimeIDs st'
           = ModelCode.insertAll (List.concat (List.map ModelCode.namesLookedUp rs))
               (ModelCode.regimeIDs st)
        /\ ModelCode.regimeEnds (ModelCode.calls st')
           = (ModelCode.regimeEnds (ModelCode.calls st)
              ++ List.map (fun r => (multipleRegimes,
                                     default 0 (ModelCode.regimeIDs st !! ModelCode.regimeName r)))
                   rs)%list
    | (_, Some _) => ~ Forall (ModelCode.regimeHandled objectHandlerEvent objectHandlerCondition
     objectHandlerImpulse objectHandlerTimeDerivative) rs
    end.
Proof.
  induction rs as [| regime rest IH]; intros st Hdeclared; cbn [ModelCode.handleRegimes].
  - split; [constructor |]. split; [reflexivity |]. cbn. rewrite app_nil_r. reflexivity.
  - pose proof (handleRegime_spec type multipleRegimes regime st) as Hr.
    destruct (ModelCode.handleRegime _ _ _ _ _ _ _ _) as [st1 [msg |]].
    { intros Hall. inversion Hall; subst. contradiction. }
    destruct Hr as (Hr & Hids & Hends).
    assert (Hkeep : forall key id, ModelCode.regimeIDs st !! key = Some id ->
                                   ModelCode.regimeIDs st1 !! key = Some id).
    { intros key id Hkey. rewrite Hids, insertAll_lookup, Hkey. reflexivity. }
    assert (Hdeclared1 : forall r, In r rest ->
              is_Some (ModelCode.regimeIDs st1 !! ModelCode.regimeName r)).
    { intros r Hin. destruct (Hdeclared r (or_intror Hin)) as [id Hid].
      exists id. apply Hkeep, Hid. }
    specialize (IH st1 Hdeclared1).
    destruct (ModelCode.handleRegimes _ _ _ _ _ _ _ _) as [st2 [msg |]].
    { intros Hall. inversion Hall; subst. contradiction. }
    destruct IH as (Hrest & Hids2 & Hends2).
    split; [constructor; assumption |]. split.
    + rewrite Hids2, Hids. cbn [List.map List.concat]. rewrite insertAll_app. reflexivity.
    + rewrite Hends2, Hends. cbn [List.map]. rewrite <- app_assoc. cbn [app].
      f_equal. f_equal.
      * f_equal. destruct (Hdeclared regime (or_introl eq_refl)) as [id Hid].
        unfold ModelCode.lookupOrInsert. rewrite Hid. reflexivity.
      * apply map_ext_in. intros r Hin. f_equal.
        destruct (Hdeclared r (or_intror Hin)) as [id Hid].
        rewrite (Hkeep _ _ Hid), Hid. reflexivity.
Qed.

Lemma buildRegimeIDs_from (rs : list (@ModelCode.Regime)) :
  forall ids : gmap string Z,
    let step := fun (ids : gmap string Z) (r : @ModelCode.Regime) =>
                  match ids !! ModelCode.regimeName r with
                  | Some _ => ids
                  | None => <[ModelCode.regimeName r := wrap32 (Z.of_nat (size ids))]> ids
                  end in
    (forall key id, ids !! key = Some id -> fold_left step rs ids !! key = Some id)
    /\ (forall key, is_Some (fold_left step rs ids !! key) <->
                    is_Some (ids !! key) \/ exists r, In r rs /\ ModelCode.regimeName r = key)
    /\ (NoDup (List.map ModelCode.regimeName rs) ->
        (forall r, In r rs -> ids !! ModelCode.regimeName r = None) ->
        size (fold_left step rs ids) = (size ids + List.length rs)%nat
        /\ forall i r, rs !! i = Some r ->
             fold_left step rs ids !! ModelCode.regimeName r
             = Some (wrap32 (Z.of_nat (size ids + i)))).
Proof.
  induction rs as [| r0 rest IH]; intros ids step; cbn [fold_left].
  - split; [auto |]. split.
    + intros key. split; [auto |]. intros [H | (r & [] & _)]. exact H.
    + intros _ _. split; [cbn; lia |]. intros i r Hi. discriminate.
  - destruct (IH (step ids r0)) as (Hkeep & Hdom & Hnodup). fold step in Hkeep, Hdom, Hnodup.
    assert (Hstep_keep : forall key id, ids !! key = Some id -> step ids r0 !! key = Some id).
    { intros key id Hkey. unfold step.
      destruct (ids !! ModelCode.regimeName r0) eqn:H0; [exact Hkey |].
      rewrite lookup_insert_ne by congruence. exact Hkey. }
    assert (Hstep_dom : forall key, is_Some (step ids r0 !! key) <->
                                    is_Some (ids !! key) \/ ModelCode.regimeName r0 = key).
    { intros key. unfold step.
      destruct (ids !! ModelCode.regimeName r0) as [id0 |] eqn:H0.
      - split; [auto |]. intros [H | <-]; [exact H | eexists; exact H0].
      - destruct (decide (ModelCode.regimeName r0 = key)) as [<- | Hne].
        + rewrite lookup_insert_eq. split; [auto | intros _; eexists; reflexivity].
        + rewrite lookup_insert_ne by exact Hne. split; [auto |]. intros [H | H]; [exact H | contradiction]. }
    split; [| split].
    + intros key id Hkey. apply Hkeep, Hstep_keep, Hkey.
    + intros key. rewrite Hdom, Hstep_dom. split.
      * intros [[H | H] | (r & Hin & Hr)].
        -- left. exact H.
        -- right. exists r0. split; [left; reflexivity | exact H].
        -- right. exists r. split; [right; exact Hin | exact Hr].
      * intros [H | (r & [<- | Hin] & Hr)].
        -- left. left. exact H.
        -- left. right. exact Hr.
        -- right. exists r. split; assumption.
    + intros Hnd Hfresh. cbn [List.map] in Hnd. apply NoDup_cons in Hnd. destruct Hnd as [Hnotin Hnd].
      assert (H0 : ids !! ModelCode.regimeName r0 = None) by (apply Hfresh; left; reflexivity).
      assert (Hstep : step ids r0
                      = <[ModelCode.regimeName r0 := wrap32 (Z.of_nat (size ids))]> ids).
      { unfold step. rewrite H0. reflexivity. }
      assert (Hsize : size (step ids r0) = S (size ids)).
      { rewrite Hstep. apply map_size_insert_None. exact H0. }
      destruct (Hnodup Hnd) as [Hsz Hidx].
      { intros r Hin. rewrite Hstep. rewrite lookup_insert_ne.
        - apply Hfresh. right. exact Hin.
        - intros Heq. apply Hnotin. rewrite Heq.
          apply list_elem_of_In. apply in_map. exact Hin. }
      split.
      * rewrite Hsz, Hsize. cbn [List.length]. lia.
      * intros [| i] r Hi.
        -- injection Hi as <-. apply Hkeep. rewrite Hstep, lookup_insert_eq.
           rewrite Nat.add_0_r. reflexivity.
        -- rewrite (Hidx i r Hi), Hsize. do 3 f_equal. lia.
Qed.

Lemma buildRegimeIDs_declared (rs : list (@ModelCode.Regime)) (key : string) :
  is_Some (ModelCode.buildRegimeIDs rs !! key) <->
  exists r, In r rs /\ ModelCode.regimeName r = key.
Proof.
  unfold ModelCode.buildRegimeIDs.
  destruct (buildRegimeIDs_from rs ∅) as (_ & Hdom & _). cbn zeta in Hdom.
  rewrite Hdom. rewrite lookup_empty. split.
  - intros [[x Hx] | H]; [discriminate | exact H].
  - intros H. right. exact H.
Qed.

Lemma buildRegimeIDs_positions (rs : list (@ModelCode.Regime)) :
  NoDup (List.map ModelCode.regimeName rs) ->
  (Z.of_nat (List.length rs) <= UINT_MAX + 1) ->
  size (ModelCode.buildRegimeIDs rs) = List.length rs
  /\ forall i r, rs !! i = Some r ->
        ModelCode.buildRegimeIDs rs !! ModelCode.regimeName r = Some (Z.of_nat i).
Proof.
  intros Hnd Hlen. unfold ModelCode.buildRegimeIDs.
  destruct (buildRegimeIDs_from rs ∅) as (_ & _ & H). cbn zeta in H.
  destruct (H Hnd) as [Hsize Hidx]; [intros r _; apply lookup_empty |].
  rewrite map_size_empty in Hsize, Hidx. split; [exact Hsize |].
  intros i r Hi. rewrite (Hidx i r Hi). cbn [Nat.add]. f_equal.
  apply wrap32_small. apply lookup_lt_Some in Hi. unfold UINT_MAX in *. lia.
Qed.

(** X19: [generateModelCode] returns, rather than throws, exactly when
    every transition and time derivative of every regime has a handler and
    the initial regime is the name of a regime or the target regime of some
    transition: a name that is only ever a target passes for a regime. *)
Theorem generateModelCode_returns (componentClass : @ModelCode.ComponentClass) :
  (exists (calls : list (@ModelCode.Call Handler)) (result : bool * Z),
     ModelCode.generateModelCode objectHandlerEvent objectHandlerCondition
       objectHandlerImpulse objectHandlerTimeDerivative componentClass
     = (calls, inr result))
  <-> Forall (ModelCode.regimeHandled objectHandlerEvent objectHandlerCondition
     objectHandlerImpulse objectHandlerTimeDerivative) (ModelCode.regimes componentClass)
      /\ exists r, In r (ModelCode.regimes componentClass)
                   /\ In (ModelCode.initial_regime componentClass) (ModelCode.namesLookedUp r).
Proof.
  unfold ModelCode.generateModelCode.
  pose proof (handleRegimes_spec (ModelCode.componentType componentClass)
                (bool_decide (1 < size (ModelCode.buildRegimeIDs (ModelCode.regimes componentClass)))%nat)
                (ModelCode.regimes componentClass)
                (ModelCode.mkState (ModelCode.buildRegimeIDs (ModelCode.regimes componentClass)) []))
    as Hwalk.
  destruct (ModelCode.handleRegimes _ _ _ _ _ _ _ _) as [st [msg |]].
  - split.
    + intros (calls & result & H). discriminate.
    + intros [Hall _]. exfalso. apply Hwalk; [| exact Hall].
      intros r Hin. apply buildRegimeIDs_declared. exists r. split; [exact Hin | reflexivity].
  - destruct Hwalk as (Hall & Hids & _).
    { intros r Hin. apply buildRegimeIDs_declared. exists r. split; [exact Hin | reflexivity]. }
    cbn [ModelCode.regimeIDs] in Hids.
    assert (Hinitial : is_Some (ModelCode.regimeIDs st !! ModelCode.initial_regime componentClass)
                       <-> exists r, In r (ModelCode.regimes componentClass)
                             /\ In (ModelCode.initial_regime componentClass)
                                   (ModelCode.namesLookedUp r)).
    { rewrite Hids, insertAll_lookup. split.
      - destruct (ModelCode.buildRegimeIDs _ !! _) as [id |] eqn:Hdecl.
        + intros _. destruct (proj1 (buildRegimeIDs_declared _ _) (mk_is_Some _ _ Hdecl))
            as (r & Hin & Hname).
          exists r. split; [exact Hin | left; exact Hname].
        + case_bool_decide as Hin; [| intros [x Hx]; discriminate].
          intros _. apply list_elem_of_In, in_concat in Hin.
          destruct Hin as (names & Hnames & Hin). apply in_map_iff in Hnames.
          destruct Hnames as (r & <- & Hr). exists r. split; assumption.
      - intros (r & Hr & Hin).
        destruct (ModelCode.buildRegimeIDs _ !! _); [eexists; reflexivity |].
        rewrite bool_decide_eq_true_2; [eexists; reflexivity |].
        apply list_elem_of_In, in_concat. exists (ModelCode.namesLookedUp r).
        split; [apply in_map; exact Hr | exact Hin]. }
    destruct (ModelCode.regimeIDs st !! ModelCode.initial_regime componentClass) as [id |].
    + split.
      * intros _. split; [exact Hall |]. apply Hinitial. eexists; reflexivity.
      * intros _. eexists; eexists; reflexivity.
    + split.
      * intros (calls & result & H). discriminate.
      * intros [_ H]. apply Hinitial in H. destruct H; discriminate.
Qed.

(** X20: when [generateModelCode] returns and the initial regime is not
    the name of any regime, the ID it returns for the initial regime is 0,
    the ID of the first regime. *)
Theorem generateModelCode_undeclared_initial (componentClass : @ModelCode.ComponentClass)
    (calls : list (@ModelCode.Call Handler)) (multipleRegimes : bool) (initialRegimeID : Z) :
  ModelCode.generateModelCode objectHandlerEvent objectHandlerCondition
    objectHandlerImpulse objectHandlerTimeDerivative componentClass
  = (calls, inr (multipleRegimes, initialRegimeID)) ->
  (forall r, In r (ModelCode.regimes componentClass) ->
             ModelCode.regimeName r <> ModelCode.initial_regime componentClass) ->
  initialRegimeID = 0.
Proof.
  unfold ModelCode.generateModelCode. intros Hresult Hundeclared.
  pose proof (handleRegimes_spec (ModelCode.componentType componentClass)
                (bool_decide (1 < size (ModelCode.buildRegimeIDs (ModelCode.regimes componentClass)))%nat)
                (ModelCode.regimes componentClass)
                (ModelCode.mkState (ModelCode.buildRegimeIDs (ModelCode.regimes componentClass)) []))
    as Hwalk.
  destruct (ModelCode.handleRegimes _ _ _ _ _ _ _ _) as [st [msg |]]; [discriminate |].
  destruct Hwalk as (_ & Hids & _).
  { intros r Hin. apply buildRegimeIDs_declared. exists r. split; [exact Hin | reflexivity]. }
  cbn [ModelCode.regimeIDs] in Hids.
  destruct (ModelCode.regimeIDs st !! ModelCode.initial_regime componentClass) as [id |] eqn:Hid;
    [| discriminate].
  injection Hresult as _ _ <-.
  rewrite Hids, insertAll_lookup in Hid.
  destruct (ModelCode.buildRegimeIDs _ !! _) as [id' |] eqn:Hdecl.
  - exfalso. destruct (proj1 (buildRegimeIDs_declared _ _) (mk_is_Some _ _ Hdecl))
      as (r & Hin & Hname).
    apply (Hundeclared r Hin Hname).
  - case_bool_decide; congruence.
Qed.

(** X21: when the regimes have distinct names and [generateModelCode]
    returns, the regimes have been given the IDs 0, 1, 2, ... in document
    order: [regimeEndFunc] has been called once per regime, in that order
    and with those IDs, the ID returned for an initial regime that is a
    regime is its position, and the model counts as having several regimes
    exactly when there is more than one. *)
Theorem generateModelCode_regime_ids (componentClass : @ModelCode.ComponentClass)
    (calls : list (@ModelCode.Call Handler)) (multipleRegimes : bool) (initialRegimeID : Z) :
  NoDup (List.map ModelCode.regimeName (ModelCode.regimes componentClass)) ->
  Z.of_nat (List.length (ModelCode.regimes componentClass)) <= UINT_MAX + 1 ->
  ModelCode.generateModelCode objectHandlerEvent objectHandlerCondition
    objectHandlerImpulse objectHandlerTimeDerivative componentClass
  = (calls, inr (multipleRegimes, initialRegimeID)) ->
  ModelCode.regimeEnds calls
    = List.map (fun i => (multipleRegimes, Z.of_nat i))
        (seq 0 (List.length (ModelCode.regimes componentClass)))
  /\ multipleRegimes = bool_decide (1 < List.length (ModelCode.regimes componentClass))%nat
  /\ (forall i r, ModelCode.regimes componentClass !! i = Some r ->
        ModelCode.regimeName r = ModelCode.initial_regime componentClass ->
        initialRegimeID = Z.of_nat i).
Proof.
  intros Hnd Hlen. unfold ModelCode.generateModelCode. intros Hresult.
  destruct (buildRegimeIDs_positions _ Hnd Hlen) as [Hsize Hpos].
  pose proof (handleRegimes_spec (ModelCode.componentType componentClass)
                (bool_decide (1 < size (ModelCode.buildRegimeIDs (ModelCode.regimes componentClass)))%nat)
                (ModelCode.regimes componentClass)
                (ModelCode.mkState (ModelCode.buildRegimeIDs (ModelCode.regimes componentClass)) []))
    as Hwalk.
  destruct (ModelCode.handleRegimes _ _ _ _ _ _ _ _) as [st [msg |]]; [discriminate |].
  destruct Hwalk as (_ & Hids & Hends).
  { intros r Hin. apply buildRegimeIDs_declared. exists r. split; [exact Hin | reflexivity]. }
  cbn [ModelCode.regimeIDs ModelCode.calls] in Hids, Hends.
  destruct (ModelCode.regimeIDs st !! ModelCode.initial_regime componentClass) as [id |] eqn:Hid;
    [| discriminate].
  injection Hresult as <- <- <-.
  rewrite Hsize. split; [| split; [reflexivity |]].
  - rewrite Hends. cbn [ModelCode.regimeEnds List.map List.concat app].
    rewrite Hsize.
    apply list_eq. intros i. rewrite !list_lookup_fmap.
    destruct (ModelCode.regimes componentClass !! i) as [r |] eqn:Hr; cbn.
    + rewrite lookup_seq_lt by (eapply lookup_lt_Some; exact Hr). cbn.
      rewrite (Hpos i r Hr). reflexivity.
    + rewrite lookup_seq_ge by (apply lookup_ge_None; exact Hr). reflexivity.
  - intros i r Hi Hname. rewrite Hids, insertAll_lookup in Hid.
    rewrite <- Hname, (Hpos i r Hi) in Hid. congruence.
Qed.

End Walk.

End ModelCodeProperties.

(** ** The aliases of a SpineML model *)

Lemma findAlias_map (g : string -> string -> Aliases.Alias) (entries : list (string * string))
    (x : string) (alias : Aliases.Alias) :
  Aliases.findAlias x (List.map (fun entry => (fst entry, g (fst entry) (snd entry))) entries)
    = Some alias ->
  exists c, (x, c) ∈ entries /\ alias = g x c.
Proof.
  induction entries as [| [name c] entries IH]; cbn; [discriminate |].
  destruct (bool_decide (name = x)) eqn:Hname.
  - apply bool_decide_eq_true_1 in Hname. subst name. intros [= <-].
    exists c. split; [apply list_elem_of_here | reflexivity].
  - intros Hfind. destruct (IH Hfind) as (c' & Hin & ->).
    exists c'. split; [apply list_elem_of_further; exact Hin | reflexivity].
Qed.

Lemma findAlias_names (m : Aliases.t) (x : string) :
  x ∈ Aliases.names m -> is_Some (Aliases.findAlias x m).
Proof.
  induction m as [| [name a] m IH]; cbn.
  - intros Hin. apply elem_of_nil in Hin. destruct Hin.
  - intros Hin. destruct (bool_decide (name = x)) eqn:Hname; [eexists; reflexivity |].
    apply bool_decide_eq_false_1 in Hname.
    apply elem_of_cons in Hin as [-> | Hin]; [congruence | apply IH, Hin].
Qed.




Section AliasesDependencies.

Variable references : string -> string -> bool.

Lemma dependenciesOf_filter (m : Aliases.t) (name : string) (alias : Aliases.Alias) :
  Aliases.dependenciesOf references m name alias
  = (Aliases.dependencies alias
     ++ filter (fun other => other <> name /\ references (Aliases.code alias) other = true)
          (Aliases.names m))%list.
Proof.
  unfold Aliases.dependenciesOf. generalize (Aliases.dependencies alias) as deps.
  induction m as [| [other a] m IH]; intros deps; cbn [fold_left Aliases.names List.map fst].
  - rewrite filter_nil, app_nil_r. reflexivity.
  - rewrite IH, filter_cons.
    destruct (decide (other <> name /\ references (Aliases.code alias) other = true))
      as [[Hne Href] | Hno].
    + rewrite (bool_decide_eq_true_2 _ Hne), Href. cbn [andb].
      rewrite <- app_assoc. reflexivity.
    + destruct (bool_decide (other <> name)) eqn:Hne; [| reflexivity].
      destruct (references (Aliases.code alias) other) eqn:Href; [| reflexivity].
      exfalso. apply Hno. split; [| reflexivity].
      apply bool_decide_eq_true_1 in Hne. exact Hne.
Qed.

Lemma names_construct (entries : list (string * string)) :
  Aliases.names (Aliases.construct references entries) = List.map fst entries.
Proof.
  unfold Aliases.construct, Aliases.findDependencies, Aliases.emplaced, Aliases.names.
  rewrite !List.map_map. reflexivity.
Qed.


(** What the constructor leaves under a name: the code of the entry and,
    as dependencies, the other names that the code references. *)
Lemma findAlias_construct (entries : list (string * string)) (x : string)
    (alias : Aliases.Alias) :
  Aliases.findAlias x (Aliases.construct references entries) = Some alias ->
  exists c, (x, c) ∈ entries
            /\ Aliases.code alias = c
            /\ Aliases.dependencies alias
               = filter (fun other => other <> x /\ references c other = true)
                   (List.map fst entries).
Proof.
  unfold Aliases.construct, Aliases.findDependencies. unfold Aliases.emplaced at 2.
  rewrite List.map_map. cbn [fst snd Aliases.code].
  intros Hfind.
  apply (findAlias_map
           (fun name c => Aliases.mkAlias c
              (Aliases.dependenciesOf references (Aliases.emplaced entries) name
                 (Aliases.mkAlias c [])))) in Hfind.
  destruct Hfind as (c & Hin & ->). exists c. split; [exact Hin |]. split; [reflexivity |].
  cbn [Aliases.dependencies]. rewrite dependenciesOf_filter. cbn [Aliases.dependencies Aliases.code].
  unfold Aliases.names, Aliases.emplaced. rewrite List.map_map. reflexivity.
Qed.

End AliasesDependencies.

Section Search.

Variable hash : string -> Z.
Variable m : Aliases.t.
Variable excludeAliases : gset string.

(** The map is one a constructor leaves: the iterators stored as
    dependencies point into the map, and there are no more of them under a
    name than the map has entries. *)
Hypothesis dependencies_in_map : forall x alias d,
  Aliases.findAlias x m = Some alias -> d ∈ Aliases.dependencies alias -> d ∈ Aliases.names m.
Hypothesis dependencies_length : forall x alias,
  Aliases.findAlias x m = Some alias ->
  (List.length (Aliases.dependencies alias) <= List.length m)%nat.



Section Sound.

(** A property of aliases that passes from an alias to the dependencies
    that are not excluded. *)
Variable P : string -> Prop.
Hypothesis P_dependencies : forall v alias d,
  P v -> Aliases.findAlias v m = Some alias -> d ∈ Aliases.dependencies alias ->
  d ∉ excludeAliases -> P d.


End Sound.


End Search.

Section AliasesConstructed.

Variable references : string -> string -> bool.
Variable hash : string -> Z.
Variable entries : list (string * string).
Variable excludeAliases : gset string.
Variable codeStrings : list string.






Lemma entries_code_unique (x c c' : string) :
  NoDup (List.map fst entries) -> (x, c) ∈ entries -> (x, c') ∈ entries -> c = c'.
Proof.
  induction entries as [| [name code] l IH]; cbn [List.map fst]; intros Hnodup Hc Hc'.
  - apply elem_of_nil in Hc. destruct Hc.
  - apply NoDup_cons in Hnodup as [Hfresh Hnodup].
    assert (Hfst : forall y, (name, y) ∈ l -> False).
    { intros y Hy. apply Hfresh. apply list_elem_of_fmap. exists (name, y).
      split; [reflexivity | exact Hy]. }
    apply elem_of_cons in Hc as [Hc | Hc]; apply elem_of_cons in Hc' as [Hc' | Hc'].
    + congruence.
    + injection Hc as -> ->. destruct (Hfst _ Hc').
    + injection Hc' as -> ->. destruct (Hfst _ Hc).
    + exact (IH Hnodup Hc Hc').
Qed.





End AliasesConstructed.



(** X24: the dependency loop of the constructor changes neither the names
    nor the code of the aliases: when the names of the entries are
    distinct, [isAlias] holds exactly of the names of the entries,
    [getAliasCode] returns the code [c] exactly for an entry [(name, c)],
    and it throws exactly when [isAlias] does not hold. *)
Theorem getAliasCode_construct (references : string -> string -> bool)
    (entries : list (string * string)) (name : string) :
  NoDup (List.map fst entries) ->
  (Aliases.isAlias name (Aliases.construct references entries) = true
   <-> name ∈ List.map fst entries)
  /\ (forall c, Aliases.getAliasCode name (Aliases.construct references entries) = inr c
                <-> (name, c) ∈ entries)
  /\ (Aliases.isAlias name (Aliases.construct references entries) = false
      <-> Aliases.getAliasCode name (Aliases.construct references entries)
          = inl ("Cannot find alias '" ++ name ++ "'")).
Proof.
  intros Hnodup. unfold Aliases.isAlias, Aliases.getAliasCode.
  destruct (Aliases.findAlias name (Aliases.construct references entries)) as [alias |]
    eqn:Hfind.
  - destruct (findAlias_construct references _ _ _ Hfind) as (c & Hc & Hcode & _).
    split; [| split].
    + split; [intros _ | reflexivity].
      apply list_elem_of_fmap. exists (name, c). split; [reflexivity | exact Hc].
    + intros c'. split.
      * intros [= <-]. rewrite Hcode. exact Hc.
      * intros Hc'. rewrite Hcode. f_equal.
        exact (entries_code_unique entries name c c' Hnodup Hc Hc').
    + split; discriminate.
  - assert (Hout : name ∉ List.map fst entries).
    { intros Hin. rewrite <- (names_construct references) in Hin.
      destruct (findAlias_names _ _ Hin) as [alias Halias]. congruence. }
    split; [| split].
    + split; [discriminate | intros Hin; destruct (Hout Hin)].
    + intros c. split; [discriminate |]. intros Hc. exfalso. apply Hout.
      apply list_elem_of_fmap. exists (name, c). split; [reflexivity | exact Hc].
    + split; reflexivity.
Qed.

(** ** The properties on the sample descriptors *)

Lemma setVarMode_getVarMode_witness :
  NeuronGroupMembers.getVarMode "shift" (NeuronGroupMembers.set_VarMode [2; 4] sampleMembers)
    = Some 4
  /\ NeuronGroupMembers.getVarMode "x" (NeuronGroupMembers.set_VarMode [2; 4] sampleMembers)
     = NeuronGroupMembers.getVarMode "x" sampleMembers.
Proof.
  destruct (setVarMode_getVarMode sampleMembers "shift" 4 eq_refl) as [_ Hset].
  destruct (Hset (NeuronGroupMembers.set_VarMode [2; 4] sampleMembers) eq_refl) as [Hsame Hother].
  split; [exact Hsame | apply Hother; discriminate].
Defined.

Lemma setVarMode_zero_copy_witness :
  NeuronGroupMembers.isZeroCopyEnabled sampleZeroCopy
    (NeuronGroupMembers.set_VarMode [2; 4] sampleMembers) = true.
Proof.
  apply (setVarMode_zero_copy sampleZeroCopy sampleMembers _ "shift" 4); reflexivity.
Defined.

Lemma isInitRNGRequired_isInitCodeRequired_witness :
  NeuronGroupMembers.isInitCodeRequired sampleMembers = true.
Proof.
  apply (isInitRNGRequired_isInitCodeRequired sampleIsRNGRequired); reflexivity.
Defined.

Lemma initDerivedParams_twice_witness :
  NeuronGroupMembers.m_DerivedParams
    (NeuronGroupMembers.initDerivedParams 7
       (NeuronGroupMembers.initDerivedParams 3 sampleMembers)) !! 0%nat = Some 30
  /\ List.length (NeuronGroupMembers.m_DerivedParams
       (NeuronGroupMembers.initDerivedParams 7
          (NeuronGroupMembers.initDerivedParams 3 sampleMembers))) = 2%nat.
Proof.
  apply (initDerivedParams_twice sampleMembers 3 7 0 ("scaledStep", fun params dt => dt * 10));
    reflexivity.
Defined.

Lemma updateVarQueues_keeps_summary_witness :
  (NeuronGroup.m_AnyVarQueuesRequired
     (NeuronGroup.updateVarQueues "$(V_pre)" (sampleNeuronGroup 1)) = true <->
   exists j : nat,
     NeuronGroup.m_VarQueueRequired
       (NeuronGroup.updateVarQueues "$(V_pre)" (sampleNeuronGroup 1)) !! j = Some true)
  /\ (forall j : nat, NeuronGroup.m_VarQueueRequired (sampleNeuronGroup 1) !! j = Some true ->
        NeuronGroup.m_VarQueueRequired
          (NeuronGroup.updateVarQueues "$(V_pre)" (sampleNeuronGroup 1)) !! j = Some true)
  /\ List.length (NeuronGroup.m_VarQueueRequired
       (NeuronGroup.updateVarQueues "$(V_pre)" (sampleNeuronGroup 1)))
     = List.length (NeuronGroup.m_VarQueueRequired (sampleNeuronGroup 1)).
Proof.
  apply (updateVarQueues_keeps_summary (sampleNeuronGroup 1) "$(V_pre)").
  - reflexivity.
  - split; [discriminate |].
    intros ([| [| j]] & Hj); discriminate.
Defined.

Lemma isVarQueueRequired_after_scan_witness :
  NeuronGroupMembers.isVarQueueRequired "shift"
    (NeuronGroupMembers.updateVarQueues "$(shift_pre) * $(g)" sampleMembers)
  = Some (false || contains "$(shift_pre) * $(g)" ("shift" ++ "_pre")).
Proof. apply isVarQueueRequired_after_scan. reflexivity. Defined.

Lemma accumulation_follows_policy_witness :
  exists subs : Substitutions,
    synSubs (fun _ => false) StrategyPostSpan sampleModel samplePostsynapticSparse
      samplePopSubs (sampleBackend 6) true = Some subs
    /\ simCodeWrittenUnder (fun _ => false) StrategyPostSpan sampleModel
         samplePostsynapticSparse samplePopSubs (sampleBackend 6) true subs
    /\ m_FuncSubstitutions subs
       = {[ "addToInSyn" :=
              (1%nat, accumulationTemplate StrategyPostSpan sampleModel samplePostsynapticSparse
                        (sampleBackend 6)
                        (postIndexText StrategyPostSpan samplePostsynapticSparse "lid")) ]}.
Proof. apply accumulation_follows_policy; reflexivity. Defined.

Lemma synSubs_resolves_witness :
  exists subs : Substitutions,
    synSubs (fun _ => false) StrategyPreSpanProcedural sampleModel sampleProcedural_10_over_3
      samplePopSubs (sampleBackend 6) true = Some subs
    /\ simCodeWrittenUnder (fun _ => false) StrategyPreSpanProcedural sampleModel
         sampleProcedural_10_over_3 samplePopSubs (sampleBackend 6) true subs
    /\ getVarSubstitution subs "id_pre" = Some (preIndexBinding StrategyPreSpanProcedural true)
    /\ getVarSubstitution subs "id_post"
       = Some (postIndexBinding StrategyPreSpanProcedural sampleProcedural_10_over_3 "lid")
    /\ getVarSubstitution subs "id_syn" = Some "synAddress"
    /\ (forall name : string,
          name <> "id_pre" -> name <> "id_post" -> name <> "id_syn" -> name <> "rng" ->
          getVarSubstitution subs name = getVarSubstitution samplePopSubs name).
Proof. apply synSubs_resolves. reflexivity. Defined.



(** The feature test extra_global_params_in_sim_code: the sim code uses
    [$(input)], so the population [pre] registers the kernel parameter
    [inputpre] of type [scalar]. *)
Example addExtraGlobalParams_test_model :
  NeuronGroupMembers.addExtraGlobalParams sampleMembers ∅ = {[ "inputpre" := "scalar" ]}.
Proof. reflexivity. Qed.

Lemma generateModelCode_undeclared_initial_witness :
  snd (ModelCode.generateModelCode (Handler := string) ∅ (Some "condition")
         sampleImpulseHandlers (Some "derivative") sampleUndeclaredInitial)
  = inr (true, 0).
Proof.
  destruct (ModelCode.generateModelCode (Handler := string) ∅ (Some "condition")
              sampleImpulseHandlers (Some "derivative") sampleUndeclaredInitial)
    as [calls [message | [multipleRegimes initialRegimeID]]] eqn:Hrun.
  - vm_compute in Hrun. discriminate.
  - assert (Hid : initialRegimeID = 0).
    { apply (generateModelCode_undeclared_initial _ _ _ _ _ _ _ _ Hrun).
      intros r [<- | [<- | []]]; discriminate. }
    subst initialRegimeID. vm_compute in Hrun.
    injection Hrun as _ <-. reflexivity.
Defined.

Lemma generateModelCode_regime_ids_witness :
  ModelCode.regimeEnds
    (fst (ModelCode.generateModelCode (Handler := string) ∅ (Some "condition")
            sampleImpulseHandlers (Some "derivative") sampleComponentClass))
  = [(true, 0); (true, 1)].
Proof.
  destruct (ModelCode.generateModelCode (Handler := string) ∅ (Some "condition")
              sampleImpulseHandlers (Some "derivative") sampleComponentClass)
    as [calls [message | [multipleRegimes initialRegimeID]]] eqn:Hrun.
  - vm_compute in Hrun. discriminate.
  - assert (Hnames : NoDup (List.map ModelCode.regimeName
                              (ModelCode.regimes sampleComponentClass))).
    { apply NoDup_cons; split;
        [intros [Hin | []]%list_elem_of_In; discriminate | apply NoDup_singleton]. }
    assert (Hlength : Z.of_nat (List.length (ModelCode.regimes sampleComponentClass))
                      <= UINT_MAX + 1)
      by (cbn; unfold UINT_MAX; lia).
    destruct (generateModelCode_regime_ids _ _ _ _ _ _ _ _ Hnames Hlength Hrun)
      as (Hends & Hmultiple & _).
    cbn [fst]. rewrite Hends, Hmultiple. reflexivity.
Defined.



Lemma getAliasCode_construct_witness :
  Aliases.getAliasCode "I_syn" (Aliases.construct sampleReferences sampleAliasEntries)
  = inr "g_syn * (E_syn - V)".
Proof.
  apply (getAliasCode_construct sampleReferences sampleAliasEntries "I_syn").
  - repeat (apply NoDup_cons; split; [intros Hin%list_elem_of_In; cbn in Hin; intuition discriminate |]).
    apply NoDup_nil_2.
  - apply list_elem_of_further, list_elem_of_here.
Defined.
